(* ===== verification/_CoqProject ===== *)
-Q . S2P
Prelude.v
Grid.v
Grammar.v
Connectivity.v
Eval.v
Instantiate.v
Typing.v
Semantics.v
Random.v
Generator.v
Fairness.v
Tags.v
Examples.v
GridDist.v
UI.v
Canvas.v
Display.v
