(* ===== verification/Prelude.v ===== *)
(** * A verification development of the Zendo rule engine (src/js/zendo-prototype.js)

    The program is a browser prototype of a "Zendo" deduction puzzle: a secret
    rule splits all 3x3 grids of coloured shapes into valid and invalid ones,
    and the player submits grids to learn the rule.  Everything lives in the
    one file src/js/zendo-prototype.js.  This header is the documentation of
    the whole development; it is kept true at the end of every sitting.

    ** The program's parts and how they interact

    - Symbol and grid model (lines 7, 262-282, 834-842): a grid is a JS array
      of 9 cells, each [null] or an object [{color, shape}].
    - Grammar table [ruleDict] (lines 495-787): five fragment categories
      ([rule], [noun], [nounPred], [group], [groupPred]), each an array of
      templates with a weight, child categories, attribute texts, exclusion
      tags, description templates and a [match] closure.
    - Weighted fragment generator [randomRuleFragmentOfType] (lines 361-445):
      picks one template per category in a single weighted pass over the
      options, skipping those whose tags clash with the active tag set (a JS
      [Set] shared by reference between siblings), then recurses into the
      child categories and draws an attribute index.
    - Rule instantiator [instantiateRule], [randomRule] (lines 447-493): turns
      a generated skeleton into descriptions (by [String.prototype.replace] of
      the placeholders [%k], [$k] and [@]) and a tree of [match] closures.
    - Connectivity helper [checkConnected] (lines 809-832): a recursive flood
      fill over a [Set] of cell indices.
    - Grid sampler and example generator [randomGrid], [generateExamples]
      (lines 262-313): selection sampling of a random grid and rejection
      sampling of valid and invalid example grids, with a 500-attempt cap.
    - The page's state machine [resetModule], [setModuleState],
      [generateChallenge], [buttonPress], [erasePress], [gridOnClick]
      (lines 7-260), and the page's output: [refreshDisplay]'s DOM writes
      and the canvas drawing [setCanvasScale], [drawSymbol],
      [drawGridLines], [strokeLine] (lines 43-155, 314-358).

    Control flow: randomRule = instantiateRule (randomRuleFragmentOfType
    "rule"); the page calls rule.match(grid) to judge grids and
    generateExamples to seed displays and challenges; checkConnected is called
    from one groupPred closure.

    ** Files of the development (in dependency order)

    - [Prelude] (this file): the JS error and result type with stdpp's monad
      classes, JS values and arguments with their coercions, the short-circuit
      operators and [Array.prototype.every]/[some] over throwing callbacks,
      the shared lemmas and the [zendo] hint database.
    - [Grid]: symbols, grids, JS cell access ([undefined] out of range versus
      [null]), [indices], [arrayCount], [gridToString] and a decoder
      [parseGrid] of its text.
    - [Grammar]: the table [ruleDict] transcribed template by template
      ([template] records, [matcher] constructors for the closures), its
      tags, and the depth [rank] each category needs.
    - [Connectivity]: [floodFill] and [checkConnected] over a [gset], the
      shared [Set] threaded through the recursive calls.
    - [Eval]: the interpretation of each [matcher] constructor as the JS
      closure, with JS coercions and TypeErrors on [null] cells.
    - [Instantiate]: [String.prototype.replace], [instantiateRule].
    - [Typing]: a type per category ([fn_type]), well-formed skeletons
      ([wf_frag]), the induction principle [instantiate_wf_ind] over them,
      and evaluation totality.
    - [Semantics]: the spec's meaning of every alternative of the table
      ([noun_sem], [rule_sem], [group_sem], [groupPred_sem], [sem]) and the
      refinement relation [refines] between closures and meanings.
    - [Random]: the [RandomMonad] interface for [Math.random()] and its two
      implementations, a stream sampler [Sampler] and a finite distribution
      [Dist] with rational probabilities.
    - [Generator]: [select_loop], [gen_children], [randomRuleFragmentOfType],
      [randomRule]; the tag discipline [tag_ok]; an abstract interpreter
      [outcomes] that decides which calls can succeed.
    - [Fairness]: the weighted pass in the [Dist] semantics.
    - [Tags]: consequences of the tag discipline for generated rules.
    - [Examples]: JS arrays with holes ([js_array], [js_get], [js_set]),
      [randomGrid], [generateExamples], [shuffleArray].
    - [GridDist]: [randomGrid] in the [Dist] semantics, with binomial
      coefficients [choose] and the loop invariant of selection sampling.
    - [UI]: the globals as [ui_state], each handler as a function in the
      [RandomMonad], the step relation [reachable] and its invariant
      [ui_inv], and [pressButtons], a sequence of button clicks.
    - [Canvas]: each drawing function as the list of context calls it
      makes ([cmd]), run on a model of the 2D context ([exec]: styles,
      scale, [save]/[restore] stack, current path, painted regions), and
      [setCanvasScale] with the WebIDL conversion of [canvas.width].
    - [Display]: [refreshDisplay] in full ([refreshDisplay_page]): the DOM
      as a map from element ids to [innerText] and [classList], the grid
      and brush pictures as the calls of [Canvas].

    ** What the theorems show

    - Evaluation (Typing, Semantics, Eval, Connectivity): a well-formed
      skeleton instantiates without error to a rule whose [match] returns a
      boolean on every 9-cell grid ([instantiate_rule_boolean]), and that
      boolean is the spec's reading of the rule on every grid of valid
      symbols ([rule_match_meaning], from [instantiate_refines] for all
      five categories); [checkConnected] decides reachability in the
      4-neighbour grid graph ([checkConnected_correct]) and depends only on
      the set of cells.
    - Generation (Generator, Fairness, Tags): with draws in (0,1)
      [randomRule] returns a rule whose [match] is boolean
      ([randomRule_total]); the skeleton is well-formed and tag-disciplined;
      the recursion depth is never exhausted ([gen_terminates]); a draw of 0
      makes it throw (the comparison is strict); in the distribution
      semantics the pass picks each eligible alternative with probability
      weight / total weight exactly ([select_fair]); no tag context repeats
      a tag, the child of "adjacent to" has no position, and the weight-0
      "are identical" predicate never occurs.
    - Sampling (Examples, GridDist): [randomGrid] places exactly its fill
      target of symbols, and returns each grid of [n ≥ 3] valid symbols
      with probability [1/7 · 1/(C(9,n) · 9^n)] ([randomGrid_distribution]),
      the spec's "each k-subset equally likely"; [generateExamples] returns
      valid grids followed by invalid grids within the requested counts and
      500 attempts, stops early only when both buckets are full, and ends
      by its own test, never by the model's fuel; [shuffleArray] permutes its array.
    - Rendering (Grid): [gridToString] loses nothing on grids of valid
      symbols: [parseGrid] reads the grid back ([gridToString_roundtrip]).
    - The page (UI): from every reachable state every handler returns
      without throwing; in challenge mode the displayed grid is
      [challenge[stageNumber]], and a Y/N press is judged against the
      rule's verdict on that grid; the challenge has at most [stageTotal]
      grids and the counter stays within it ([reachable_stage_bounds]);
      every challenge ends after at most [stageTotal] Y/N presses
      ([challenge_terminates]), and the right answers solve it
      ([challenge_solvable]).
    - The page's output (Display, Canvas): the full [refreshDisplay]
      throws exactly when the model of [UI] does
      (lemma [refreshDisplay_refines]); in challenge mode with the rule hidden
      the page does not depend on the rule ([challenge_page_hides_rule]);
      outside it the status text and the Y/N highlights show the verdict;
      the status light shows the mode; the grid picture puts each symbol
      inside its own cell, clear of the grid lines
      ([grid_picture_layout]); and a click on a drawn symbol edits that
      cell, for any canvas 19 to 2^32 device pixels wide
      ([click_on_symbol_edits_cell]).

    ** Bounds and fuel

    Recursion that JS runs unbounded is given an explicit bound, and a
    theorem shows the bound is never the reason a call stops:
    - [randomRuleFragmentOfType] gets depth [rank t], the height of the
      (acyclic) grammar below [t] ([gen_terminates]);
    - [floodFill] gets the size of the cell set, since each call that
      recurses first deletes a cell;
    - [generateExamples]'s loop gets 501 iterations, one more than its
      test [attempts < 500] allows: it ends by that test, and any larger
      fuel gives the same result ([generateExamples_attempts]);
    - [shuffleArray]'s loop, which rereads [a.length], gets [length a + 1]
      tests: with draws in [0,1) every swap stays inside the array, so the
      loop runs [length a] times and the last test ends it
      ([shuffleArray_perm]).
    Numbers are [nat]/[Z] where the code uses small integers (indices,
    counters below 10); probabilities and weights are rationals [Q], since
    the code compares a draw with ratios of small integers.

    ** Not modelled

    - Pixels: a painted region is its path or rectangle, bounded by a box;
      rasterisation, anti-aliasing and the extent of text (which depends
      on the font) are not modelled.  The canvas and DOM APIs are the
      browser's, modelled from the HTML specification for the calls the
      code makes; [ctx.lineWidth] reads digit strings only.
    - The page's output is not part of [ui_state]: [UI] keeps the one
      effect of [refreshDisplay] that matters to the globals (a throw), and
      [Display] proves that the full function has exactly that effect.
      The calls of [setCanvasScale] in [resetModule] only reset the two
      contexts, and the console messages change nothing.
    - The partial assignments a throwing handler leaves behind: a throw
      aborts the step, and the UI theorems show that no reachable handler
      throws with draws in (0,1).
    - [Math.random] itself: it is the interface [RandomMonad]. *)

From stdpp Require Export base list gmap strings.
From Stdlib Require Export ZifyNat.

(** ** Errors and results *)

(** The errors the modelled code can raise.  [TypeError] is what JS throws on
    reading a property of [null]/[undefined], calling [undefined] or calling
    [.every] on a non-array; [Error msg] is [throw new Error(msg)].
    [OutOfFuel] is not a JS error: it is what a definition that recurses on
    an explicit bound returns when the bound runs out, and the termination
    theorems show that the bounds chosen are never exhausted. *)
Inductive js_error :=
  | TypeError
  | Error (msg : string)
  | OutOfFuel.

Inductive result (A : Type) : Type :=
  | Ok (a : A)
  | Err (e : js_error).
Arguments Ok {A} a.
Arguments Err {A} e.

#[export] Instance result_ret : MRet result := λ A a, Ok a.
#[export] Instance result_bind : MBind result :=
  λ A B f m, match m with Ok a => f a | Err e => Err e end.
#[export] Instance result_fmap : FMap result :=
  λ A B f m, match m with Ok a => Ok (f a) | Err e => Err e end.

(** ** JS values and arguments *)

(** The values the [match] closures return: booleans, and for the [group]
    category an array of arrays of cell indices. *)
Inductive val :=
  | VBool (b : bool)
  | VGroups (gs : list (list nat)).

(** [ToBoolean]: every array is truthy. *)
Definition truthy (v : val) : bool :=
  match v with VBool b => b | VGroups _ => true end.

(** The second argument [x] of a [match] closure: [undefined] for rules and
    groups, a cell index for nouns and noun predicates, an array of cell
    indices for group predicates. *)
Inductive arg :=
  | AUndef
  | AIdx (i : nat)
  | AList (l : list nat).

(** [ToNumber x] ([None] is NaN): [Number([]) = 0], [Number([k]) = k]. *)
Definition arg_number (x : arg) : option nat :=
  match x with
  | AUndef => None
  | AIdx i => Some i
  | AList [] => Some 0
  | AList [k] => Some k
  | AList _ => None
  end.

(** The array index denoted by the property key [String(x)]. *)
Definition arg_key (x : arg) : option nat :=
  match x with
  | AIdx i => Some i
  | AList [k] => Some k
  | _ => None
  end.

(** ** Short-circuit operators and array iteration *)

(** [a || b] and [a && b] return one of their operands. *)
Definition js_or (a b : result val) : result val :=
  v ← a; if truthy v then Ok v else b.
Definition js_and (a b : result val) : result val :=
  v ← a; if truthy v then b else Ok v.

Declare Scope js_scope.
Delimit Scope js_scope with js.
Notation "a .|| b" := (js_or a b) (at level 50, left associativity) : js_scope.
Notation "a .&& b" := (js_and a b) (at level 40, left associativity) : js_scope.

(** [Array.prototype.every] and [some] with a callback that may throw: they
    stop at the first falsy (resp. truthy) result, so a later throw is never
    reached. *)
Fixpoint every_r {A} (f : A → result bool) (l : list A) : result bool :=
  match l with
  | [] => Ok true
  | x :: l' => b ← f x; if (b : bool) then every_r f l' else Ok false
  end.

Fixpoint some_r {A} (f : A → result bool) (l : list A) : result bool :=
  match l with
  | [] => Ok false
  | x :: l' => b ← f x; if (b : bool) then Ok true else some_r f l'
  end.

(** ** Shared lemmas *)

Create HintDb zendo.

Section iteration.
Context {A : Type}.
Implicit Types (f : A → result bool) (p : A → bool) (l : list A).

Lemma every_r_pure f p l :
  (∀ x, x ∈ l → f x = Ok (p x)) → every_r f l = Ok (forallb p l).
Proof.
  induction l as [|x l IH]; intros Hf; [done|]; simpl.
  rewrite (Hf x) by set_solver. simpl.
  destruct (p x); [apply IH; set_solver|done].
Qed.

Lemma some_r_pure f p l :
  (∀ x, x ∈ l → f x = Ok (p x)) → some_r f l = Ok (existsb p l).
Proof.
  induction l as [|x l IH]; intros Hf; [done|]; simpl.
  rewrite (Hf x) by set_solver. simpl.
  destruct (p x); [done|apply IH; set_solver].
Qed.

(** Whenever every callback returns, the whole iteration returns. *)
Lemma every_r_total f l :
  (∀ x, x ∈ l → ∃ b, f x = Ok b) → ∃ b, every_r f l = Ok b.
Proof.
  induction l as [|x l IH]; intros Hf; [by eexists|]; simpl.
  destruct (Hf x) as [[] ->]; [set_solver| |by eexists]; simpl.
  apply IH; set_solver.
Qed.

Lemma some_r_total f l :
  (∀ x, x ∈ l → ∃ b, f x = Ok b) → ∃ b, some_r f l = Ok b.
Proof.
  induction l as [|x l IH]; intros Hf; [by eexists|]; simpl.
  destruct (Hf x) as [[] ->]; [set_solver|by eexists|]; simpl.
  apply IH; set_solver.
Qed.

Lemma every_r_true f l :
  every_r f l = Ok true ↔ ∀ x, x ∈ l → f x = Ok true.
Proof.
  induction l as [|x l IH]; simpl; [set_solver|].
  destruct (f x) as [[]|] eqn:E; simpl; rewrite ?IH.
  - split; [intros H y [->|Hy]%elem_of_cons; auto|intros H y Hy; apply H; set_solver].
  - split; [done|]. intros H. rewrite H in E; [done|set_solver].
  - split; [done|]. intros H. rewrite H in E; [done|set_solver].
Qed.

Lemma some_r_false f l :
  some_r f l = Ok false ↔ ∀ x, x ∈ l → f x = Ok false.
Proof.
  induction l as [|x l IH]; simpl; [set_solver|].
  destruct (f x) as [[]|] eqn:E; simpl; rewrite ?IH.
  - split; [done|]. intros H. rewrite H in E; [done|set_solver].
  - split; [intros H y [->|Hy]%elem_of_cons; auto|intros H y Hy; apply H; set_solver].
  - split; [done|]. intros H. rewrite H in E; [done|set_solver].
Qed.
End iteration.

Lemma bind_Ok {A B} (m : result A) (f : A → result B) (b : B) :
  (x ← m; f x) = Ok b ↔ ∃ a, m = Ok a ∧ f a = Ok b.
Proof. destruct m; simpl; split; [eauto|by intros (?&[= ->]&?)|done|by intros (?&?&?)]. Qed.

#[export] Hint Resolve every_r_total some_r_total : zendo.

(** Case analysis on a [result] bind in a hypothesis or in the goal. *)
Ltac result_inv :=
  repeat match goal with
  | H : Ok _ = Ok _ |- _ => injection H as H
  | H : (_ ← _; _) = Ok _ |- _ => apply bind_Ok in H as (? & ? & ?)
  | H : Err _ = Ok _ |- _ => discriminate H
  | H : Ok _ = Err _ |- _ => discriminate H
  end; subst.

(** Every element of a list mapped by a successful [mapM] has its image
    among the results. *)
Lemma mapM_elem {A B} (f : A → option B) (l : list A) (ls : list B) (x : A) :
  mapM f l = Some ls → x ∈ l → ∃ y, f x = Some y ∧ y ∈ ls.
Proof.
  intros Hm Hx. apply mapM_Some_1 in Hm.
  apply list_elem_of_lookup_1 in Hx as [i Hi].
  destruct (Forall2_lookup_l _ _ _ _ _ Hm Hi) as (y & Hy & Hf).
  exists y. split; [done|by eapply list_elem_of_lookup_2].
Qed.
