(* ===== verification/Grid.v ===== *)
(** * Symbols and grids

    The data every other component consumes (src/js/zendo-prototype.js):
    a grid is a JS array whose cells are [null] or an object
    [{color, shape}]; reading past its end gives [undefined].  This file
    models cell access with that distinction, the helpers [indices] and
    [arrayCount], and the debug rendering [gridToString], with a decoder
    that proves the rendering identifies the grid. *)

From Stdlib Require Import Ascii.
From S2P Require Import Prelude.

Record symbol := mkSymbol { color : nat; shape : nat }.

#[export] Instance symbol_eq_dec : EqDecision symbol.
Proof. solve_decision. Defined.

(** A cell is [null] ([None]) or a symbol. *)
Abbreviation cell := (option symbol).
Abbreviation grid := (list cell).

(** [Array(9).fill(null)] *)
Definition empty_grid : grid := replicate 9 None.

(** Every symbol has one of the three colours and one of the three shapes. *)
Definition grid_ok (g : grid) : Prop :=
  ∀ j s, g !! j = Some (Some s) → color s < 3 ∧ shape s < 3.

(** [g[i] != null]: false for [null] and for [undefined] alike. *)
Definition occupied (g : grid) (i : nat) : bool :=
  match g !! i with Some (Some _) => true | _ => false end.

(** [g[i] !== null]: strict, so true for [undefined] past the end. *)
Definition not_null_strict (g : grid) (i : nat) : bool :=
  match g !! i with Some None => false | _ => true end.

(** [g[i].color] and [g[i].shape]: a TypeError on [null] or [undefined]. *)
Definition cell_color (g : grid) (i : nat) : result nat :=
  match g !! i with Some (Some s) => Ok (color s) | _ => Err TypeError end.
Definition cell_shape (g : grid) (i : nat) : result nat :=
  match g !! i with Some (Some s) => Ok (shape s) | _ => Err TypeError end.

(** [indices(a) = a.map((_,i) => i)] *)
Definition indices {A} (a : list A) : list nat := seq 0 (length a).

(** [arrayCount(a, condition)]: the loop over [i] with its counter. *)
Fixpoint arrayCount_loop {A} (condition : A → nat → result bool)
    (a : list A) (i count : nat) : result nat :=
  match a with
  | [] => Ok count
  | x :: a' =>
      b ← condition x i;
      arrayCount_loop condition a' (S i) (if (b : bool) then S count else count)
  end.

Definition arrayCount {A} (a : list A) (condition : A → nat → result bool) : result nat :=
  arrayCount_loop condition a 0 0.

(** ** The debug rendering [gridToString] *)

Definition newline : string := String (Ascii.ascii_of_nat 10) EmptyString.

(** [s[i]] on a string, converted back to a string by [+]: one character,
    or the text "undefined" past the end. *)
Definition char_at (s : string) (i : nat) : string :=
  match String.get i s with
  | Some c => String c EmptyString
  | None => "undefined"
  end.

(** [e == null ? "  " : ("ryb"[e.color] + "CTS"[e.shape])] *)
Definition cell_text (e : cell) : string :=
  match e with
  | None => "  "
  | Some s => char_at "ryb" (color s) +:+ char_at "CTS" (shape s)
  end.

(** [(i == 8) ? e : (e + (i%3 == 2 ? "\n--+--+--\n" : "|"))] *)
Definition cell_with_separator (e : string) (i : nat) : string :=
  if decide (i = 8) then e
  else e +:+ (if decide (i mod 3 = 2) then newline +:+ "--+--+--" +:+ newline else "|").

Definition gridToString (g : grid) : string :=
  String.concat "" (imap (λ i e, cell_with_separator e i) (map cell_text g)).

(** ** Properties *)

Lemma arrayCount_loop_pure {A} (condition : A → nat → result bool) p a i count :
  (∀ x j, condition x j = Ok (p x)) →
  arrayCount_loop condition a i count = Ok (count + length (filter p a)).
Proof.
  intros Hc. revert i count.
  induction a as [|x a IH]; intros i count; simpl; [by rewrite Nat.add_0_r|].
  rewrite Hc. simpl. rewrite IH, filter_cons.
  destruct (p x); simpl; f_equal; lia.
Qed.

(** [arrayCount] with a condition that cannot throw counts the elements
    that satisfy it. *)
Lemma arrayCount_pure {A} (condition : A → nat → result bool) p (a : list A) :
  (∀ x j, condition x j = Ok (p x)) →
  arrayCount a condition = Ok (length (filter p a)).
Proof. intros Hc. unfold arrayCount. by rewrite (arrayCount_loop_pure _ p). Qed.

Lemma indices_spec {A} (a : list A) i : i ∈ indices a ↔ i < length a.
Proof. unfold indices. rewrite elem_of_seq. lia. Qed.

Lemma occupied_cell_color g i :
  occupied g i = true → ∃ s, g !! i = Some (Some s) ∧ cell_color g i = Ok (color s).
Proof. unfold occupied, cell_color. destruct (g !! i) as [[s|]|]; naive_solver. Qed.

#[export] Hint Resolve occupied_cell_color : zendo.

(** [arrayCount] returns whenever its condition returns on every element. *)
Lemma arrayCount_total {A} (condition : A → nat → result bool) (a : list A) :
  (∀ x j, x ∈ a → ∃ b, condition x j = Ok b) → ∃ n, arrayCount a condition = Ok n.
Proof.
  intros Hc. unfold arrayCount.
  cut (∀ i count, ∃ n, arrayCount_loop condition a i count = Ok n); [done|].
  induction a as [|x a IH]; intros i count; simpl; [by eexists|].
  destruct (Hc x i) as [b ->]; [set_solver|]. simpl.
  apply IH. intros y j Hy. apply Hc. set_solver.
Qed.

(** [g[i] !== null] inside the grid means the cell holds a symbol. *)
Lemma not_null_strict_occupied g i :
  i < length g → not_null_strict g i = true → occupied g i = true.
Proof.
  unfold not_null_strict, occupied. intros Hi.
  destruct (lookup_lt_is_Some_2 g i Hi) as [c ->]. by destruct c.
Qed.

#[export] Hint Resolve arrayCount_total not_null_strict_occupied : zendo.

(** ** Reading the rendering back *)

(** The characters of a string. *)
Abbreviation chars := String.list_ascii_of_string.

(** The separator characters: [|], [-], [+] and the newline. *)
Definition is_separator (c : Ascii.ascii) : bool :=
  bool_decide (c ∈ chars ("|-+" +:+ newline)).

(** A character that is not a separator. *)
Definition keep (c : Ascii.ascii) : Prop := is_separator c = false.

(** The position of a character in a table such as ["ryb"]. *)
Fixpoint index_in (table : list Ascii.ascii) (c : Ascii.ascii) : option nat :=
  match table with
  | [] => None
  | d :: table' => if decide (c = d) then Some 0 else S <$> index_in table' c
  end.

(** Two characters of the rendering: two blanks, or a colour letter and a
    shape letter. *)
Definition decode_cell (a b : Ascii.ascii) : option cell :=
  if decide (a = " "%char ∧ b = " "%char) then Some None
  else c ← index_in (chars "ryb") a; s ← index_in (chars "CTS") b; Some (Some (mkSymbol c s)).

Fixpoint decode_cells (l : list Ascii.ascii) : option grid :=
  match l with
  | [] => Some []
  | a :: b :: rest => c ← decode_cell a b; cs ← decode_cells rest; Some (c :: cs)
  | [_] => None
  end.

(** The decoder of the debug rendering: drop the separators, then read the
    cells two characters at a time. *)
Definition parseGrid (s : string) : option grid :=
  decode_cells (filter keep (chars s)).

Lemma chars_app s t : chars (s +:+ t) = chars s ++ chars t.
Proof. induction s as [|c s IH]; simpl; [done|by rewrite IH]. Qed.

Lemma chars_concat (l : list string) : chars (String.concat "" l) = concat (map chars l).
Proof.
  induction l as [|s l IH]; [done|].
  destruct l as [|t l']; [simpl; by rewrite app_nil_r|].
  change (String.concat "" (s :: t :: l')) with (s +:+ String.concat "" (t :: l')).
  by rewrite chars_app, IH.
Qed.

Lemma filter_concat (l : list (list Ascii.ascii)) :
  filter keep (concat l) = concat (map (filter keep) l).
Proof. induction l as [|x l IH]; simpl; [done|by rewrite filter_app, IH]. Qed.

(** The two characters of a valid cell are not separators and decode to
    the cell. *)
Lemma cell_text_chars (c : cell) :
  (∀ s, c = Some s → color s < 3 ∧ shape s < 3) →
  ∃ a b, chars (cell_text c) = [a; b] ∧ keep a ∧ keep b ∧ decode_cell a b = Some c.
Proof.
  intros Hc. destruct c as [[col sh]|]; [|by do 2 eexists].
  destruct (Hc _ eq_refl) as [Hcol Hsh]; simpl in Hcol, Hsh.
  destruct col as [|[|[|col]]]; [..|lia]; destruct sh as [|[|[|sh]]]; try lia; by do 2 eexists.
Qed.

(** What is left of a cell's text and separator once separators are
    dropped. *)
Lemma filter_cell_with_separator e i : filter keep (chars (cell_with_separator e i)) = filter keep (chars e).
Proof.
  unfold cell_with_separator. case_decide; [done|].
  rewrite chars_app, filter_app. case_decide; by rewrite app_nil_r.
Qed.

Lemma filter_cells (h : nat → string → string) (g : grid) :
  grid_ok g → (∀ i e, filter keep (chars (h i e)) = filter keep (chars e)) →
  filter keep (concat (map chars (imap h (map cell_text g)))) =
  concat (map (λ c, chars (cell_text c)) g).
Proof.
  revert h. induction g as [|c g IH]; intros h Hok Hh; [done|].
  rewrite fmap_cons, imap_cons. cbn [map concat]. rewrite filter_app, Hh, IH; last first.
  - intros i e. apply Hh.
  - intros j s Hj. by apply (Hok (S j)).
  - destruct (cell_text_chars c) as (a & b & -> & Ha & Hb & _).
    { intros s ->. by apply (Hok 0). }
    rewrite filter_cons_True, filter_cons_True by done. done.
Qed.

Lemma decode_cells_text (g : grid) :
  grid_ok g → decode_cells (concat (map (λ c, chars (cell_text c)) g)) = Some g.
Proof.
  induction g as [|c g IH]; intros Hok; [done|]. cbn [map concat].
  destruct (cell_text_chars c) as (a & b & -> & _ & _ & Hd).
  { intros s ->. by apply (Hok 0). }
  simpl. rewrite Hd, IH; [done|]. intros j s Hj. by apply (Hok (S j)).
Qed.

(** C27: the debug rendering identifies the grid (spec section 6): for a
    grid whose symbols have valid colours and shapes, dropping the
    separators of [gridToString(g)] and reading its cells two characters
    at a time gives back [g]. *)
Theorem gridToString_roundtrip g : grid_ok g → parseGrid (gridToString g) = Some g.
Proof.
  intros Hok. unfold parseGrid, gridToString. rewrite chars_concat.
  rewrite (filter_cells (λ i e, cell_with_separator e i)); [by apply decode_cells_text|done|].
  intros i e. apply filter_cell_with_separator.
Qed.

(** A blue triangle in the top left corner. *)
Definition corner_grid : grid := [Some (mkSymbol 2 1); None; None; None; None; None; None; None; None].

Lemma gridToString_roundtrip_witness :
  grid_ok corner_grid ∧ parseGrid (gridToString corner_grid) = Some corner_grid.
Proof.
  assert (Hok : grid_ok corner_grid).
  { intros [|j] s Hj; [injection Hj as <-; simpl; lia|].
    destruct j as [|[|[|[|[|[|[|[|j]]]]]]]]; discriminate. }
  split; [exact Hok|exact (gridToString_roundtrip corner_grid Hok)].
Defined.
