(* ===== verification/Grammar.v ===== *)
(** * The grammar table [ruleDict]

    The hand-written catalogue of rule fragments (src/js/zendo-prototype.js
    lines 495-787), transcribed entry by entry.  A JS template object becomes
    a [template] record whose optional fields are [option]s (an absent key is
    [undefined]); its [match] closure becomes a constructor of [matcher],
    interpreted in Eval.v.  The generator (Generator.v) and the instantiator
    (Instantiate.v) read the table only through [ruleDict]. *)

From S2P Require Import Prelude.

(** The keys of [ruleDict], i.e. the strings used as [fragType] and in
    [childTypes]. *)
Inductive fragType := FRule | FNoun | FNounPred | FGroup | FGroupPred.

#[export] Instance fragType_eq_dec : EqDecision fragType.
Proof. solve_decision. Defined.

Definition fragType_name (t : fragType) : string :=
  match t with
  | FRule => "rule"
  | FNoun => "noun"
  | FNounPred => "nounPred"
  | FGroup => "group"
  | FGroupPred => "groupPred"
  end.

(** The exclusion tags, the strings of the templates' [tags] arrays. *)
Inductive tag := TColor | TShape | TPosition.

#[export] Instance tag_eq_dec : EqDecision tag.
Proof. solve_decision. Defined.

Definition tag_to_nat (t : tag) : nat :=
  match t with TColor => 0 | TShape => 1 | TPosition => 2 end.
Definition tag_of_nat (n : nat) : tag :=
  match n with 0 => TColor | 1 => TShape | _ => TPosition end.

#[export] Instance tag_countable : Countable tag.
Proof. apply (inj_countable' tag_to_nat tag_of_nat). by intros []. Defined.

(** One constructor per [match] closure of the table, by category. *)
Inductive rule_match :=
  | RuleEvery | RuleSome | RuleNo | RuleGroups | RuleRowFilled | RuleColumnFilled.
Inductive noun_match :=
  | NounColor | NounShape | NounRow | NounColumn | NounBlank.
Inductive nounPred_match :=
  | PredColor | PredShape | PredRow | PredColumn | PredAdjacent.
Inductive group_match :=
  | GroupAll | GroupRows | GroupColumns | GroupColors | GroupShapes
  | GroupIdentical | GroupAdjacent.
Inductive groupPred_match :=
  | SameColor | DifferentColors | SameShape | DifferentShapes
  | SameColorOrShape | Identical | Connected.

Inductive matcher :=
  | MRule (m : rule_match)
  | MNoun (m : noun_match)
  | MNounPred (m : nounPred_match)
  | MGroup (m : group_match)
  | MGroupPred (m : groupPred_match).

(** The [RuleTemplate] typedef (lines 496-507); [separateTags] is [false]
    where the key is absent ([undefined] is falsy). *)
Record template := mkTemplate {
  childTypes : option (list fragType);
  attribute : option (list string);
  descSingular : option string;
  descPlural : option string;
  tags : option (list tag);
  separateTags : bool;
  weight : option nat;
  tmatch : option matcher;
}.

(** ** [ruleDict.rule] (lines 513-565; the commented-out "more X than Y"
    entry is not part of the array) *)
Definition ruleDict_rule : list template := [
  (* "All X are Y" *)
  {| childTypes := Some [FNoun; FNounPred]; attribute := None;
     descSingular := Some "Every %1 is %2"; descPlural := None;
     tags := None; separateTags := false; weight := Some 7;
     tmatch := Some (MRule RuleEvery) |};
  (* "Some X is Y" *)
  {| childTypes := Some [FNoun; FNounPred]; attribute := None;
     descSingular := Some "There is a %1 that is %2"; descPlural := None;
     tags := None; separateTags := false; weight := Some 7;
     tmatch := Some (MRule RuleSome) |};
  (* "No X is Y" *)
  {| childTypes := Some [FNoun; FNounPred]; attribute := None;
     descSingular := Some "No %1 is %2"; descPlural := None;
     tags := None; separateTags := false; weight := Some 7;
     tmatch := Some (MRule RuleNo) |};
  (* "For every group X, Y applies to the group" *)
  {| childTypes := Some [FGroup; FGroupPred]; attribute := None;
     descSingular := Some "%1 %2"; descPlural := None;
     tags := None; separateTags := false; weight := Some 20;
     tmatch := Some (MRule RuleGroups) |};
  (* "There is some row whose members are all Y" *)
  {| childTypes := Some [FNoun]; attribute := None;
     descSingular := Some "There is a row filled with $1"; descPlural := None;
     tags := Some [TPosition]; separateTags := false; weight := Some 7;
     tmatch := Some (MRule RuleRowFilled) |};
  (* "There is some column whose members are all Y" *)
  {| childTypes := Some [FNoun]; attribute := None;
     descSingular := Some "There is a column filled with $1"; descPlural := None;
     tags := Some [TPosition]; separateTags := false; weight := Some 7;
     tmatch := Some (MRule RuleColumnFilled) |}
].

(** ** [ruleDict.noun] (lines 566-613) *)
Definition ruleDict_noun : list template := [
  (* a specific color *)
  {| childTypes := None; attribute := Some ["red"; "yellow"; "blue"];
     descSingular := Some "@ symbol"; descPlural := Some "@ symbols";
     tags := Some [TColor]; separateTags := false; weight := Some 20;
     tmatch := Some (MNoun NounColor) |};
  (* a specific shape *)
  {| childTypes := None; attribute := Some ["circle"; "triangle"; "square"];
     descSingular := Some "@"; descPlural := Some "@s";
     tags := Some [TShape]; separateTags := false; weight := Some 20;
     tmatch := Some (MNoun NounShape) |};
  (* a specific row *)
  {| childTypes := None; attribute := Some ["top"; "middle"; "bottom"];
     descSingular := Some "symbol in the @ row";
     descPlural := Some "symbols in the @ row";
     tags := Some [TPosition]; separateTags := false; weight := Some 20;
     tmatch := Some (MNoun NounRow) |};
  (* a specific column *)
  {| childTypes := None; attribute := Some ["left"; "middle"; "right"];
     descSingular := Some "symbol in the @ column";
     descPlural := Some "symbols in the @ column";
     tags := Some [TPosition]; separateTags := false; weight := Some 20;
     tmatch := Some (MNoun NounColumn) |};
  (* empty cells *)
  {| childTypes := None; attribute := None;
     descSingular := Some "blank cell"; descPlural := Some "blank cells";
     tags := Some [TShape; TColor]; separateTags := false; weight := Some 10;
     tmatch := Some (MNoun NounBlank) |}
].

(** ** [ruleDict.nounPred] (lines 614-674) *)
Definition ruleDict_nounPred : list template := [
  (* a specific color *)
  {| childTypes := None; attribute := Some ["red"; "yellow"; "blue"];
     descSingular := Some "@"; descPlural := None;
     tags := Some [TColor]; separateTags := false; weight := Some 10;
     tmatch := Some (MNounPred PredColor) |};
  (* a specific shape *)
  {| childTypes := None; attribute := Some ["circle"; "triangle"; "square"];
     descSingular := Some "a @"; descPlural := Some "@s";
     tags := Some [TShape]; separateTags := false; weight := Some 10;
     tmatch := Some (MNounPred PredShape) |};
  (* a specific row *)
  {| childTypes := None; attribute := Some ["top"; "middle"; "bottom"];
     descSingular := Some "in the @ row"; descPlural := None;
     tags := Some [TPosition]; separateTags := false; weight := Some 10;
     tmatch := Some (MNounPred PredRow) |};
  (* a specific column *)
  {| childTypes := None; attribute := Some ["left"; "middle"; "right"];
     descSingular := Some "in the @ column"; descPlural := None;
     tags := Some [TPosition]; separateTags := false; weight := Some 10;
     tmatch := Some (MNounPred PredColumn) |};
  (* adjacency to a noun *)
  {| childTypes := Some [FNoun]; attribute := None;
     descSingular := Some "adjacent to a %1"; descPlural := None;
     tags := Some [TPosition]; separateTags := true; weight := Some 15;
     tmatch := Some (MNounPred PredAdjacent) |}
].

(** ** [ruleDict.group] (lines 675-729) *)
Definition ruleDict_group : list template := [
  {| childTypes := None; attribute := None;
     descSingular := Some "All symbols"; descPlural := None;
     tags := None; separateTags := false; weight := Some 20;
     tmatch := Some (MGroup GroupAll) |};
  {| childTypes := None; attribute := None;
     descSingular := Some "Symbols in the same row"; descPlural := None;
     tags := Some [TPosition]; separateTags := false; weight := Some 10;
     tmatch := Some (MGroup GroupRows) |};
  {| childTypes := None; attribute := None;
     descSingular := Some "Symbols in the same column"; descPlural := None;
     tags := Some [TPosition]; separateTags := false; weight := Some 10;
     tmatch := Some (MGroup GroupColumns) |};
  {| childTypes := None; attribute := None;
     descSingular := Some "Symbols with the same color"; descPlural := None;
     tags := Some [TColor]; separateTags := false; weight := Some 10;
     tmatch := Some (MGroup GroupColors) |};
  {| childTypes := None; attribute := None;
     descSingular := Some "Symbols with the same shape"; descPlural := None;
     tags := Some [TShape]; separateTags := false; weight := Some 10;
     tmatch := Some (MGroup GroupShapes) |};
  {| childTypes := None; attribute := None;
     descSingular := Some "Identical symbols"; descPlural := None;
     tags := Some [TShape; TColor]; separateTags := false; weight := Some 10;
     tmatch := Some (MGroup GroupIdentical) |};
  {| childTypes := None; attribute := None;
     descSingular := Some "Adjacent symbols"; descPlural := None;
     tags := Some [TPosition]; separateTags := false; weight := Some 20;
     tmatch := Some (MGroup GroupAdjacent) |}
].

(** ** [ruleDict.groupPred] (lines 730-786) *)
Definition ruleDict_groupPred : list template := [
  {| childTypes := None; attribute := None;
     descSingular := Some "are the same color"; descPlural := None;
     tags := Some [TColor]; separateTags := false; weight := Some 20;
     tmatch := Some (MGroupPred SameColor) |};
  {| childTypes := None; attribute := None;
     descSingular := Some "are different colors"; descPlural := None;
     tags := Some [TColor]; separateTags := false; weight := Some 10;
     tmatch := Some (MGroupPred DifferentColors) |};
  {| childTypes := None; attribute := None;
     descSingular := Some "are the same shape"; descPlural := None;
     tags := Some [TShape]; separateTags := false; weight := Some 20;
     tmatch := Some (MGroupPred SameShape) |};
  {| childTypes := None; attribute := None;
     descSingular := Some "are different shapes"; descPlural := None;
     tags := Some [TShape]; separateTags := false; weight := Some 10;
     tmatch := Some (MGroupPred DifferentShapes) |};
  {| childTypes := None; attribute := None;
     descSingular := Some "are the same color or shape"; descPlural := None;
     tags := Some [TColor; TShape]; separateTags := false; weight := Some 20;
     tmatch := Some (MGroupPred SameColorOrShape) |};
  {| childTypes := None; attribute := None;
     descSingular := Some "are identical"; descPlural := None;
     tags := Some [TColor; TShape]; separateTags := false; weight := Some 0;
     tmatch := Some (MGroupPred Identical) |};
  {| childTypes := None; attribute := None;
     descSingular := Some "form a connected cluster"; descPlural := None;
     tags := Some [TPosition]; separateTags := false; weight := Some 20;
     tmatch := Some (MGroupPred Connected) |}
].

(** [ruleDict[fragType]] *)
Definition ruleDict (t : fragType) : list template :=
  match t with
  | FRule => ruleDict_rule
  | FNoun => ruleDict_noun
  | FNounPred => ruleDict_nounPred
  | FGroup => ruleDict_group
  | FGroupPred => ruleDict_groupPred
  end.

(** [e.weight ?? 0], [e.tags] as a possibly empty list, [e.childTypes]. *)
Definition weight_of (e : template) : nat := default 0 (weight e).
Definition tags_of (e : template) : list tag := default [] (tags e).
Definition children_of (e : template) : list fragType := default [] (childTypes e).

(** ** Facts about the table *)

(** Case analysis on a template [e ∈ ruleDict t] of a known category: one
    goal per entry, in table order. *)
Ltac enum_table H :=
  cbv [ruleDict ruleDict_rule ruleDict_noun ruleDict_nounPred ruleDict_group
       ruleDict_groupPred] in H;
  repeat match goal with
  | H' : _ ∈ _ :: _ |- _ => apply elem_of_cons in H' as [->|H']
  | H' : _ ∈ [] |- _ => by apply elem_of_nil in H'
  end.

(** Every attribute list has the three texts of a colour, shape or
    position. *)
Lemma ruleDict_attribute_length t e l :
  e ∈ ruleDict t → attribute e = Some l → length l = 3.
Proof. intros He. destruct t; enum_table He; intros Ha; inv Ha; done. Qed.

(** The rank of a category exceeds the ranks of the categories its
    templates hold: the grammar is acyclic. *)
Definition rank (t : fragType) : nat :=
  match t with FRule => 3 | FNounPred => 2 | _ => 1 end.

Lemma ruleDict_children_rank t e c :
  e ∈ ruleDict t → c ∈ children_of e → rank c < rank t.
Proof.
  intros He. destruct t; enum_table He; cbv [children_of childTypes default];
    intros Hc; set_unfold in Hc; naive_solver.
Qed.
