(* ===== verification/Connectivity.v ===== *)
(** * The connectivity helper [checkConnected]

    src/js/zendo-prototype.js lines 809-832.  The JS builds a [Set] of the
    cells and runs a recursive flood fill from [cells[0]] that deletes every
    cell it visits; the group is connected when the set ends empty.  The set
    is shared by the nested recursive calls, so [floodFill] threads it
    explicitly, in the order of the four [if] statements.

    [floodFill] recurses on a depth bound [fuel]; a call that does any work
    deletes a cell first, so the depth never exceeds the size of the set and
    [checkConnected] passes that size.  [floodFill_correct] shows that with
    such a bound the flood fill removes exactly the cells reachable from the
    start cell through the set, and [checkConnected_correct] that the helper
    decides reachability of every cell from [cells[0]]. *)

From S2P Require Import Prelude.

(** [_floodFill(i)] on the current [targets]. *)
Fixpoint floodFill (fuel : nat) (targets : gset nat) (i : nat) : gset nat :=
  match fuel with
  | 0 => targets
  | S fuel' =>
      if decide (i ∈ targets) then
        let t0 := targets ∖ {[i]} in
        let t1 := if decide (2 < i) then floodFill fuel' t0 (i - 3) else t0 in
        let t2 := if decide (i < 6) then floodFill fuel' t1 (i + 3) else t1 in
        let t3 := if decide (0 < i mod 3) then floodFill fuel' t2 (i - 1) else t2 in
        if decide (i mod 3 < 2) then floodFill fuel' t3 (i + 1) else t3
      else targets
  end.

(** [checkConnected(cells)] *)
Definition checkConnected (cells : list nat) : bool :=
  match cells with
  | [] => true
  | c0 :: _ =>
      let targets : gset nat := list_to_set cells in
      bool_decide (size (floodFill (size targets) targets c0) = 0)
  end.

(** ** Reachability *)

(** The moves of the flood fill from [i], in the order the code makes them. *)
Definition neighbours (i : nat) : list nat :=
  (if decide (2 < i) then [i - 3] else []) ++
  (if decide (i < 6) then [i + 3] else []) ++
  (if decide (0 < i mod 3) then [i - 1] else []) ++
  (if decide (i mod 3 < 2) then [i + 1] else []).

(** [reach S i x]: a path of moves from [i] to [x] through cells of [S]. *)
Inductive reach (S : gset nat) : nat → nat → Prop :=
  | reach_refl i : i ∈ S → reach S i i
  | reach_step i j k : i ∈ S → j ∈ neighbours i → reach S j k → reach S i k.

#[export] Hint Constructors reach : zendo.

(** What the flood fill from [i] leaves of [t]: the cells not reachable. *)
Definition flood_spec (t : gset nat) (i : nat) (r : gset nat) : Prop :=
  ∀ x, (x ∈ r ↔ x ∈ t ∧ ¬ reach t i x) ∧ (x ∈ t → x ∉ r → reach t i x).

Section reach_lemmas.
Implicit Types (S T : gset nat).

Lemma reach_in_l S i x : reach S i x → i ∈ S.
Proof. by inversion 1. Qed.

Lemma reach_trans S i j k : reach S i j → reach S j k → reach S i k.
Proof. induction 1; eauto with zendo. Qed.

Lemma reach_mono S T i x : S ⊆ T → reach S i x → reach T i x.
Proof. induction 2; eauto with zendo. Qed.

Lemma elem_of_neighbours i j :
  j ∈ neighbours i ↔
  (2 < i ∧ j = i - 3) ∨ (i < 6 ∧ j = i + 3) ∨
  (0 < i mod 3 ∧ j = i - 1) ∨ (i mod 3 < 2 ∧ j = i + 1).
Proof.
  unfold neighbours. rewrite !elem_of_app.
  repeat case_decide; rewrite ?list_elem_of_singleton, ?elem_of_nil; lia.
Qed.

Lemma neighbour_ne i j : j ∈ neighbours i → j ≠ i.
Proof. rewrite elem_of_neighbours. lia. Qed.

(** Removing the cells reachable from [a] keeps the paths that avoid them. *)
Lemma reach_remove S S' a b x :
  (∀ y, y ∈ S' ↔ y ∈ S ∧ ¬ reach S a y) →
  reach S b x → ¬ reach S a x → reach S' b x.
Proof.
  intros HS'. induction 1 as [b Hb|b c x Hb Hc Hcx IH]; intros Hax.
  - constructor. by apply HS'.
  - apply reach_step with c; [|done|by apply IH].
    apply HS'. split; [done|]. intros Hab.
    apply Hax, reach_trans with b; [done|eauto with zendo].
Qed.

(** A path from [i] that does not end in [i] leaves [i] through one of its
    moves and never needs to come back. *)
Lemma reach_unfold S i x :
  reach S i x → x ≠ i → ∃ n, n ∈ neighbours i ∧ reach (S ∖ {[i]}) n x.
Proof.
  intros Hr Hx.
  cut (∀ y, reach S y x →
         (y = i → ∃ n, n ∈ neighbours i ∧ reach (S ∖ {[i]}) n x) ∧
         (y ≠ i → reach (S ∖ {[i]}) y x ∨
                  ∃ n, n ∈ neighbours i ∧ reach (S ∖ {[i]}) n x)).
  { intros H. by apply (H i Hr). }
  clear Hr. induction 1 as [y Hy|y c z Hy Hc Hcz IH]; split; intros Hyi.
  - congruence.
  - left. constructor. set_solver.
  - subst y. pose proof (neighbour_ne i c Hc).
    destruct (IH Hx) as [_ [Hr|Hr]]; eauto.
  - destruct (decide (c = i)) as [->|Hci].
    + right. by apply (IH Hx).
    + destruct (IH Hx) as [_ [Hr|Hr]]; [done| |by right].
      left. apply reach_step with c; [set_solver|done|done].
Qed.
End reach_lemmas.

(** ** The flood fill *)

Lemma floodFill_S fuel t i :
  floodFill (S fuel) t i =
  if decide (i ∈ t) then foldl (floodFill fuel) (t ∖ {[i]}) (neighbours i) else t.
Proof. simpl. unfold neighbours. by repeat case_decide. Qed.

Lemma foldl_subseteq (F : gset nat → nat → gset nat) ns t0 :
  (∀ t n, F t n ⊆ t) → foldl F t0 ns ⊆ t0.
Proof.
  intros HF. revert t0. induction ns as [|n ns IH]; intros t0; simpl.
  - done.
  - etrans; [apply IH|apply HF].
Qed.

Lemma floodFill_subseteq fuel t i : floodFill fuel t i ⊆ t.
Proof.
  revert t i. induction fuel as [|f IH]; intros t i; [done|].
  rewrite floodFill_S. case_decide; [|done].
  etrans; [apply foldl_subseteq, IH|set_solver].
Qed.

(** What the four sequential calls leave of [t0]: the cells reachable from
    none of the moves. *)
Definition fold_spec (t0 : gset nat) (ns : list nat) (r : gset nat) : Prop :=
  ∀ x, (x ∈ r ↔ x ∈ t0 ∧ ∀ n, n ∈ ns → ¬ reach t0 n x) ∧
       (x ∈ t0 → x ∉ r → ∃ n, n ∈ ns ∧ reach t0 n x).

Lemma flood_spec_subseteq t i r : flood_spec t i r → r ⊆ t.
Proof. intros H x Hx. by apply H. Qed.

Lemma foldl_flood_spec (F : gset nat → nat → gset nat) T ns t0 :
  (∀ t n, t ⊆ T → flood_spec t n (F t n)) → t0 ⊆ T →
  fold_spec t0 ns (foldl F t0 ns).
Proof.
  intros HF. revert t0. induction ns as [|n ns IH]; intros t0 Ht0 x; simpl.
  - split; [set_solver|done].
  - pose proof (HF t0 n Ht0) as Hn.
    pose proof (flood_spec_subseteq _ _ _ Hn) as Hsub.
    destruct (IH (F t0 n) ltac:(set_solver) x) as [IH1 IH2]. split.
    + rewrite IH1, (proj1 (Hn x)). split.
      * intros [[Hx0 Hnx] Hns]. split; [done|].
        intros m [->|Hm]%elem_of_cons; [done|]. intros Hr.
        apply (Hns m Hm). eapply reach_remove; [|done|done]. intros y. apply Hn.
      * intros [Hx0 Hall]. split; [split; [done|apply Hall; set_solver]|].
        intros m Hm Hr. apply (Hall m); [set_solver|]. by eapply reach_mono.
    + intros Hx0 Hxr. destruct (decide (x ∈ F t0 n)) as [Hx1|Hx1].
      * destruct (IH2 Hx1 Hxr) as (m & Hm & Hr).
        exists m. split; [set_solver|]. by eapply reach_mono.
      * exists n. split; [set_solver|]. by apply Hn.
Qed.

(** The flood fill from [i] with a depth bound at least the size of the set
    deletes exactly the cells reachable from [i]. *)
Theorem floodFill_correct fuel t i :
  size t ≤ fuel → flood_spec t i (floodFill fuel t i).
Proof.
  revert t i. induction fuel as [|f IH]; intros t i Hsize.
  - assert (size t = 0) as Ht by lia.
    apply size_empty_inv, leibniz_equiv in Ht as ->. by intros x; set_solver.
  - rewrite floodFill_S. case_decide as Hi; last first.
    { intros x. split; [|done]. split; [|tauto]. intros Hx. split; [done|].
      intros Hr. by apply Hi, reach_in_l with x. }
    assert (size (t ∖ {[i]}) ≤ f).
    { assert (size (t ∖ {[i]}) < size t); [apply subset_size; set_solver|lia]. }
    assert (Hf : fold_spec (t ∖ {[i]}) (neighbours i)
                   (foldl (floodFill f) (t ∖ {[i]}) (neighbours i))).
    { apply (foldl_flood_spec _ (t ∖ {[i]})); [|done].
      intros t' n Ht'. apply IH. by etrans; [apply subseteq_size|]. }
    intros x. destruct (Hf x) as [H1 H2]. split.
    + rewrite H1. split.
      * intros [Hx Hall]. split; [set_solver|]. intros Hr.
        destruct (reach_unfold t i x Hr) as (m & Hm & Hr'); [set_solver|].
        by apply (Hall m).
      * intros [Hx Hnr]. split; [|intros m Hm Hr; apply Hnr].
        -- assert (x ≠ i); [intros ->; by apply Hnr; constructor|set_solver].
        -- apply reach_step with m; [done|done|]. eapply reach_mono; [|done]; set_solver.
    + intros Hx Hxr. destruct (decide (x = i)) as [->|Hne]; [by constructor|].
      destruct (H2 ltac:(set_solver) Hxr) as (m & Hm & Hr).
      apply reach_step with m; [done|done|]. eapply reach_mono; [|done]; set_solver.
Qed.

(** [checkConnected] answers whether every cell of the group is reachable
    from the first one through cells of the group. *)
Theorem checkConnected_correct c0 rest :
  checkConnected (c0 :: rest) = true ↔
  ∀ x, x ∈ c0 :: rest → reach (list_to_set (c0 :: rest)) c0 x.
Proof.
  unfold checkConnected. set (t := list_to_set (c0 :: rest) : gset nat).
  pose proof (floodFill_correct (size t) t c0 (le_n _)) as Hs.
  rewrite bool_decide_eq_true, size_empty_iff. split.
  - intros Hempty x Hx. apply (Hs x); [subst t; set_solver|set_solver].
  - intros Hall. cut (∀ y, y ∉ floodFill (size t) t c0); [set_solver|].
    intros y Hy. apply Hs in Hy as [Hyt Hr]. apply Hr, Hall.
    subst t. set_solver.
Qed.

(** On cells of the 3x3 grid the moves are symmetric. *)
Lemma neighbours_sym i j : i < 9 → j < 9 → j ∈ neighbours i → i ∈ neighbours j.
Proof. rewrite !elem_of_neighbours. lia. Qed.

Lemma reach_sym (S : gset nat) i x :
  (∀ y, y ∈ S → y < 9) → reach S i x → reach S x i.
Proof.
  intros HS. induction 1 as [|i j k Hi Hj Hjk IH]; [by constructor|].
  apply reach_trans with j; [done|].
  apply reach_step with i; [by eapply reach_in_l| |by constructor].
  apply neighbours_sym; [by apply HS|apply HS; by eapply reach_in_l|done].
Qed.

(** C26: for groups of grid cells the answer of [checkConnected] does not
    depend on the order of the cells, in particular not on which one starts
    the flood fill. *)
Theorem checkConnected_order (l1 l2 : list nat) :
  (∀ x, x ∈ l1 → x < 9) → (∀ x, x ∈ l1 ↔ x ∈ l2) →
  checkConnected l1 = checkConnected l2.
Proof.
  intros Hin Heq.
  destruct l1 as [|c1 r1], l2 as [|c2 r2]; [done| | |].
  1,2: exfalso; specialize (Heq c2) || specialize (Heq c1); set_solver.
  assert (Ht : list_to_set (c1 :: r1) = (list_to_set (c2 :: r2) : gset nat))
    by set_solver.
  apply Bool.eq_true_iff_eq. rewrite !checkConnected_correct, <- Ht.
  assert (Hb : ∀ y, y ∈ (list_to_set (c1 :: r1) : gset nat) → y < 9)
    by (intros y; rewrite elem_of_list_to_set; auto).
  split; intros Hall x Hx.
  - apply reach_trans with c1; [apply reach_sym; [done|]|]; apply Hall; set_solver.
  - apply reach_trans with c2; [apply reach_sym; [done|]|]; apply Hall; set_solver.
Qed.

Lemma checkConnected_order_witness :
  checkConnected [0; 1; 3] = checkConnected [3; 0; 1].
Proof.
  apply checkConnected_order.
  - intros x Hx. repeat (apply elem_of_cons in Hx as [->|Hx]; [lia|]). by apply elem_of_nil in Hx.
  - intros x. set_solver.
Defined.
