(* ===== verification/Eval.v ===== *)
(** * The [match] closures of the grammar table

    Each closure [(g, x, child, attr) => ...] of [ruleDict]
    (src/js/zendo-prototype.js lines 519-784) is the interpretation of one
    constructor of [matcher].  [child] is the array of the children's bound
    [match] functions, so calling a missing child is a TypeError; [x] is the
    JS argument with its coercions ([arg_key] for [g[x]], [arg_number] for
    arithmetic); property reads on [null]/[undefined] are TypeErrors.  The
    short-circuit operators [||] and [&&] return an operand, as in JS. *)

From S2P Require Import Prelude Grid Grammar Connectivity.

Local Open Scope js_scope.

(** [child[k](x)] *)
Definition call_child (child : list (arg → result val)) (k : nat) (x : arg) : result val :=
  match child !! k with Some f => f x | None => Err TypeError end.

(** [child[k](x)] used where JS applies [ToBoolean] ([every], [some], [!]). *)
Definition child_bool (child : list (arg → result val)) (k : nat) (x : arg) : result bool :=
  truthy <$> call_child child k x.

(** [g[x]] *)
Definition cell_at (g : grid) (x : arg) : option cell :=
  match arg_key x with Some i => g !! i | None => None end.

(** [g[x] != null && <test on the symbol>] *)
Definition symbol_test (g : grid) (x : arg) (test : symbol → bool) : bool :=
  match cell_at g x with Some (Some s) => test s | _ => false end.

(** [Math.floor(x/3) == attr] and [x%3 == attr]; NaN compares false. *)
Definition row_is (x : arg) (attr : nat) : bool :=
  match arg_number x with Some n => bool_decide (n / 3 = attr) | None => false end.
Definition column_is (x : arg) (attr : nat) : bool :=
  match arg_number x with Some n => bool_decide (n mod 3 = attr) | None => false end.

(** ** [ruleDict.rule] closures (lines 519-556) *)
Definition match_rule (m : rule_match) (g : grid) (child : list (arg → result val)) : result val :=
  VBool <$>
  match m with
  | RuleEvery =>
      (* indices(g).every(i => !child[0](i) || child[1](i)) *)
      every_r (λ i, a ← child_bool child 0 (AIdx i);
                    if negb a then Ok true else child_bool child 1 (AIdx i)) (indices g)
  | RuleSome =>
      (* indices(g).some(i => child[0](i) && child[1](i)) *)
      some_r (λ i, a ← child_bool child 0 (AIdx i);
                   if (a : bool) then child_bool child 1 (AIdx i) else Ok false) (indices g)
  | RuleNo =>
      (* indices(g).every(i => !child[0](i) || !child[1](i)) *)
      every_r (λ i, a ← child_bool child 0 (AIdx i);
                    if negb a then Ok true else negb <$> child_bool child 1 (AIdx i)) (indices g)
  | RuleGroups =>
      (* child[0]().every(a => a.length == 0 || child[1](a)) *)
      v ← call_child child 0 AUndef;
      match v with
      | VGroups gs =>
          every_r (λ a, match a with
                        | [] => Ok true
                        | _ => child_bool child 1 (AList a)
                        end) gs
      | VBool _ => Err TypeError
      end
  | RuleRowFilled =>
      (* [0,3,6].some(r => [r+0,r+1,r+2].every(i => child[0](i))) *)
      some_r (λ r, every_r (λ i, child_bool child 0 (AIdx i)) [r + 0; r + 1; r + 2]) [0; 3; 6]
  | RuleColumnFilled =>
      (* [0,1,2].some(c => [c+0,c+3,c+6].every(i => child[0](i))) *)
      some_r (λ c, every_r (λ i, child_bool child 0 (AIdx i)) [c + 0; c + 3; c + 6]) [0; 1; 2]
  end.

(** ** [ruleDict.noun] closures (lines 574-611) *)
Definition match_noun (m : noun_match) (g : grid) (x : arg) (attr : nat) : val :=
  VBool
  match m with
  | NounColor => symbol_test g x (λ s, bool_decide (color s = attr))
  | NounShape => symbol_test g x (λ s, bool_decide (shape s = attr))
  | NounRow => symbol_test g x (λ _, true) && row_is x attr
  | NounColumn => symbol_test g x (λ _, true) && column_is x attr
  | NounBlank => (* g[i] == null *)
      match cell_at g x with Some (Some _) => false | _ => true end
  end.

(** ** [ruleDict.nounPred] closures (lines 621-662) *)
Definition match_nounPred (m : nounPred_match) (g : grid) (x : arg)
    (child : list (arg → result val)) (attr : nat) : result val :=
  match m with
  | PredColor => Ok (VBool (symbol_test g x (λ s, bool_decide (color s = attr))))
  | PredShape => Ok (VBool (symbol_test g x (λ s, bool_decide (shape s = attr))))
  | PredRow => Ok (VBool (row_is x attr))
  | PredColumn => Ok (VBool (column_is x attr))
  | PredAdjacent =>
      match arg_number x with
      | None => Ok (VBool false)
      | Some i =>
          (Ok (VBool (bool_decide (2 < i))) .&& call_child child 0 (AIdx (i - 3)))
          .|| (Ok (VBool (bool_decide (i < 6))) .&& call_child child 0 (AIdx (i + 3)))
          .|| (Ok (VBool (bool_decide (0 < i mod 3))) .&& call_child child 0 (AIdx (i - 1)))
          .|| (Ok (VBool (bool_decide (i mod 3 < 2))) .&& call_child child 0 (AIdx (i + 1)))
      end
  end.

(** ** [ruleDict.group] closures (lines 680-727) *)

(** The twelve pairs of structurally adjacent cells (line 725). *)
Definition adjacent_pairs : list (list nat) :=
  [[0;1]; [1;2]; [3;4]; [4;5]; [6;7]; [7;8]; [0;3]; [3;6]; [1;4]; [4;7]; [2;5]; [5;8]].

(** [p => g[p[0]] != null && g[p[1]] != null] *)
Definition pair_occupied (g : grid) (p : list nat) : bool :=
  match p with
  | [a; b] => occupied g a && occupied g b
  | _ => false
  end.

Definition match_group (m : group_match) (g : grid) : val :=
  VGroups
  match m with
  | GroupAll => [filter (λ i, occupied g i = true) (indices g)]
  | GroupRows =>
      map (λ r, filter (λ i, not_null_strict g i = true) [r + 0; r + 1; r + 2]) [0; 3; 6]
  | GroupColumns =>
      map (λ r, filter (λ i, not_null_strict g i = true) [r + 0; r + 3; r + 6]) [0; 1; 2]
  | GroupColors =>
      map (λ c, filter (λ i, symbol_test g (AIdx i) (λ s, bool_decide (color s = c)) = true)
                  (indices g)) [0; 1; 2]
  | GroupShapes =>
      map (λ c, filter (λ i, symbol_test g (AIdx i) (λ s, bool_decide (shape s = c)) = true)
                  (indices g)) [0; 1; 2]
  | GroupIdentical =>
      map (λ v, filter (λ i, symbol_test g (AIdx i)
                               (λ s, bool_decide (shape s = v / 3) && bool_decide (color s = v mod 3))
                             = true) (indices g))
        [0; 1; 2; 3; 4; 5; 6; 7; 8]
  | GroupAdjacent => filter (λ p, pair_occupied g p = true) adjacent_pairs
  end.

(** ** [ruleDict.groupPred] closures (lines 736-784) *)

(** [a.every(...)] and [checkConnected(a)] need [a] to be an array. *)
Definition as_array (x : arg) : result (list nat) :=
  match x with AList l => Ok l | _ => Err TypeError end.

(** [[0,1,2].some(c => a.every(i => g[i].color == c))], for a projection. *)
Definition all_same (proj : grid → nat → result nat) (g : grid) (a : list nat) : result bool :=
  some_r (λ c, every_r (λ i, (λ v, bool_decide (v = c)) <$> proj g i) a) [0; 1; 2].

(** [[0,1,2].every(c => arrayCount(a, i => g[i].color == c) <= 1)] *)
Definition all_different (proj : grid → nat → result nat) (g : grid) (a : list nat) : result bool :=
  every_r (λ c, (λ n, bool_decide (n ≤ 1)) <$>
                arrayCount a (λ i _, (λ v, bool_decide (v = c)) <$> proj g i)) [0; 1; 2].

Definition match_groupPred (m : groupPred_match) (g : grid) (x : arg) : result val :=
  a ← as_array x;
  VBool <$>
  match m with
  | SameColor => all_same cell_color g a
  | DifferentColors => all_different cell_color g a
  | SameShape => all_same cell_shape g a
  | DifferentShapes => all_different cell_shape g a
  | SameColorOrShape =>
      b ← all_same cell_color g a; if (b : bool) then Ok true else all_same cell_shape g a
  | Identical =>
      b ← all_same cell_color g a; if (b : bool) then all_same cell_shape g a else Ok false
  | Connected => Ok (checkConnected a)
  end.

(** The raw [match] of a template: [template.match ?? (_ => true)]
    (line 455). *)
Definition rawMatch (m : option matcher) (g : grid) (x : arg)
    (child : list (arg → result val)) (attr : nat) : result val :=
  match m with
  | None => Ok (VBool true)
  | Some (MRule r) => match_rule r g child
  | Some (MNoun n) => Ok (match_noun n g x attr)
  | Some (MNounPred p) => match_nounPred p g x child attr
  | Some (MGroup gr) => Ok (match_group gr g)
  | Some (MGroupPred q) => match_groupPred q g x
  end.
