(* ===== verification/Instantiate.v ===== *)
(** * The rule instantiator [instantiateRule]

    src/js/zendo-prototype.js lines 447-488.  A skeleton produced by the
    generator ([frag], the object [{type, index, children, attribute}]) is
    turned into an instantiated rule ([inst]): its descriptions are the
    template's, with [%k] and [$k] replaced by the k-th child's singular and
    plural descriptions and [@] by the attribute text, using JS
    [String.prototype.replace] with a string pattern (first occurrence only,
    and [$$], [$&], [$`], [$'] expanded in the replacement); its [match] is
    the template's closure applied to the children's [match] bound to the
    same grid.  [inst_match] is that [match]. *)

From Stdlib Require Import Ascii.
From stdpp Require Import pretty.
From S2P Require Import Prelude Grid Grammar Eval.

(** ** [String.prototype.replace(pattern, replacement)] *)

(** Position of the first occurrence of [pat] in [s], counted from [pos]. *)
Fixpoint find_from (pat s : string) (pos : nat) : option nat :=
  if String.prefix pat s then Some pos
  else match s with
       | EmptyString => None
       | String _ s' => find_from pat s' (S pos)
       end.

Definition dollar : Ascii.ascii := "$"%char.

(** GetSubstitution with no capture groups: [$$], [$&], [$`], [$'] are
    expanded, any other [$] is kept literally. *)
Fixpoint expand_replacement (matched before after rep : string) : string :=
  match rep with
  | EmptyString => EmptyString
  | String c rest =>
      if Ascii.eqb c dollar then
        match rest with
        | String d rest' =>
            if Ascii.eqb d dollar then String dollar (expand_replacement matched before after rest')
            else if Ascii.eqb d "&"%char then matched +:+ expand_replacement matched before after rest'
            else if Ascii.eqb d "`"%char then before +:+ expand_replacement matched before after rest'
            else if Ascii.eqb d "'"%char then after +:+ expand_replacement matched before after rest'
            else String c (expand_replacement matched before after rest)
        | EmptyString => String c EmptyString
        end
      else String c (expand_replacement matched before after rest)
  end.

Definition js_replace (s pat rep : string) : string :=
  match find_from pat s 0 with
  | None => s
  | Some p =>
      let before := String.substring 0 p s in
      let after := String.substring (p + String.length pat) (String.length s - (p + String.length pat)) s in
      before +:+ expand_replacement pat before after rep +:+ after
  end.

(** [String(n)] for the placeholder numbers. *)
Definition nat_text (n : nat) : string := pretty (N.of_nat n).

(** ** Skeletons and instantiated rules *)

(** The skeleton object [{type, index, children, attribute}] built by
    [randomRuleFragmentOfType] (lines 413-418). *)
Inductive frag := Frag (ftype : fragType) (findex : nat) (fchildren : list frag) (fattribute : nat).

(** The instantiated rule object [{descSingular, descPlural, rawMatch,
    children, attribute, match}] (lines 452-459); [match] is [inst_match]. *)
Inductive inst :=
  | Inst (i_descSingular i_descPlural : string) (i_rawMatch : option matcher)
         (i_children : list inst) (i_attribute : nat).

Definition inst_descSingular (r : inst) : string := let 'Inst s _ _ _ _ := r in s.
Definition inst_descPlural (r : inst) : string := let 'Inst _ p _ _ _ := r in p.
Definition inst_children (r : inst) : list inst := let 'Inst _ _ _ cs _ := r in cs.

(** [result.match = function(g, x) { return this.rawMatch(g, x,
    this.children.map(e => e.match.bind(e, g)), this.attribute) }] *)
Fixpoint inst_match (r : inst) (g : grid) (x : arg) : result val :=
  match r with
  | Inst _ _ m cs attr => rawMatch m g x (map (λ c, inst_match c g) cs) attr
  end.

(** The four replacements of the loop body (lines 467-471) for child [i]. *)
Definition substitute_child (i : nat) (child : inst) (s p : string) : string * string :=
  let pc := "%" +:+ nat_text (i + 1) in
  let pd := "$" +:+ nat_text (i + 1) in
  let s := js_replace s pc (inst_descSingular child) in
  let p := js_replace p pc (inst_descSingular child) in
  let s := js_replace s pd (inst_descPlural child) in
  let p := js_replace p pd (inst_descPlural child) in
  (s, p).

(** [template.attribute[result.attribute]] as a replacement string:
    [undefined] becomes the text "undefined". *)
Definition attribute_text (l : list string) (a : nat) : string :=
  default "undefined" (l !! a).

(** The loop over [data.children] (lines 462-475), for the instantiation
    function [inst_f] of the children. *)
Fixpoint instantiate_children (inst_f : frag → result inst) (cs : list frag)
    (i : nat) (acc : list inst) (s p : string) : result (list inst * string * string) :=
  match cs with
  | [] => Ok (acc, s, p)
  | c :: cs' =>
      newChild ← inst_f c;
      let '(s, p) := substitute_child i newChild s p in
      instantiate_children inst_f cs' (S i) (acc ++ [newChild]) s p
  end.

Fixpoint instantiateRule (data : frag) : result inst :=
  match data with
  | Frag t idx cs attr =>
      match ruleDict t !! idx with
      | None => Err (Error "Rule template not found")
      | Some template =>
          let s0 := default "" (descSingular template) in
          let p0 := default s0 (descPlural template) in
          '(kids, s1, p1) ←
            (match childTypes template with
             | Some _ => instantiate_children instantiateRule cs 0 [] s0 p0
             | None => Ok ([], s0, p0)
             end);
          let '(s2, p2) :=
            match attribute template with
            | Some texts =>
                (js_replace s1 "@" (attribute_text texts attr),
                 js_replace p1 "@" (attribute_text texts attr))
            | None => (s1, p1)
            end in
          Ok (Inst s2 p2 (tmatch template) kids attr)
      end
  end.

(** ** Well-formed skeletons *)

(** Induction on skeletons with a hypothesis for every child. *)
Section frag_ind.
Context (P : frag → Prop).
Hypothesis HP : ∀ t idx cs attr, Forall P cs → P (Frag t idx cs attr).

Fixpoint frag_ind' (f : frag) : P f :=
  match f with
  | Frag t idx cs attr =>
      HP t idx cs attr
        ((fix go (cs : list frag) : Forall P cs :=
            match cs with
            | [] => Forall_nil_2 _
            | c :: cs' => Forall_cons_2 _ c cs' (frag_ind' c) (go cs')
            end) cs)
  end.
End frag_ind.

(** The children match the template's [childTypes] one by one. *)
Fixpoint wf_children (wf : fragType → frag → bool) (ts : list fragType) (cs : list frag)
    {struct cs} : bool :=
  match ts, cs with
  | [], [] => true
  | t :: ts', c :: cs' => wf t c && wf_children wf ts' cs'
  | _, _ => false
  end.

(** The attribute index is one the generator can draw: below the number of
    attribute texts, and 0 when the template has none. *)
Definition attr_ok (e : template) (attr : nat) : bool :=
  match attribute e with
  | Some l => bool_decide (attr < length l)
  | None => bool_decide (attr = 0)
  end.

(** A skeleton of category [t] that names existing templates with a [match],
    children of the categories the template lists, and attribute indices
    in range. *)
Fixpoint wf_frag (t : fragType) (f : frag) : bool :=
  match f with
  | Frag t' idx cs attr =>
      bool_decide (t' = t) &&
      match ruleDict t !! idx with
      | None => false
      | Some e =>
          bool_decide (is_Some (tmatch e)) && wf_children wf_frag (children_of e) cs &&
          attr_ok e attr
      end
  end.

Lemma wf_children_Forall2 (wf : fragType → frag → bool) ts cs :
  wf_children wf ts cs = true ↔ Forall2 (λ t c, wf t c = true) ts cs.
Proof.
  revert ts. induction cs as [|c cs IH]; intros [|t ts]; simpl;
    rewrite ?andb_true_iff, ?IH; split; intros H; inv H; eauto; done.
Qed.

Lemma instantiate_children_ok (inst_f : frag → result inst) cs i acc s p :
  Forall (λ c, ∃ r, inst_f c = Ok r) cs →
  ∃ kids s' p', instantiate_children inst_f cs i acc s p = Ok (acc ++ kids, s', p') ∧
                Forall2 (λ c r, inst_f c = Ok r) cs kids.
Proof.
  intros Hcs. revert i acc s p.
  induction Hcs as [|c cs [r Hr] Hcs IH]; intros i acc s p; simpl.
  - exists [], s, p. by rewrite app_nil_r.
  - rewrite Hr. simpl. edestruct IH as (kids & s' & p' & -> & Hk).
    exists (r :: kids), s', p'. rewrite <- app_assoc. auto.
Qed.
