(* ===== verification/Typing.v ===== *)
(** * Evaluation is total on well-formed rules

    The JS [match] closures are untyped: a closure that receives a child of
    the wrong kind, or a group containing an empty cell, throws a TypeError
    ([g[i].color] on [null]) or computes with a coerced value.  This file
    gives each fragment category the type of its [match] ([fn_type]) and
    proves that every well-formed skeleton instantiates without error to a
    rule whose [match] has the type of its category on every 9-cell grid
    ([instantiate_wf_typed]).  For the [rule] category this is the spec's
    invariant that [rule.match(grid)] is a boolean (spec section 3) and that
    grid evaluation never fails (section 7). *)

From S2P Require Import Prelude Grid Grammar Connectivity Eval Instantiate.

(** The type of a bound [match] of each category, on a grid [g]: rules and
    nouns give booleans, groups give groups of occupied cells, and group
    predicates give booleans on groups of occupied cells. *)
Definition fn_type (t : fragType) (g : grid) (f : arg → result val) : Prop :=
  match t with
  | FRule => ∃ b, f AUndef = Ok (VBool b)
  | FNoun | FNounPred => ∀ i, ∃ b, f (AIdx i) = Ok (VBool b)
  | FGroup =>
      ∃ gs, f AUndef = Ok (VGroups gs) ∧ ∀ a, a ∈ gs → ∀ i, i ∈ a → occupied g i = true
  | FGroupPred =>
      ∀ a, (∀ i, i ∈ a → occupied g i = true) → ∃ b, f (AList a) = Ok (VBool b)
  end.

Definition has_type (t : fragType) (r : inst) : Prop :=
  ∀ g : grid, length g = 9 → fn_type t g (inst_match r g).

(** ** Lemmas on the closures' building blocks *)

Lemma fmap_VBool_total (m : result bool) :
  (∃ b, m = Ok b) → ∃ b, VBool <$> m = Ok (VBool b).
Proof. intros [b ->]. by exists b. Qed.

Lemma js_and_bool a b : js_and (Ok (VBool a)) (Ok (VBool b)) = Ok (VBool (a && b)).
Proof. by destruct a. Qed.

Lemma js_or_bool a b : js_or (Ok (VBool a)) (Ok (VBool b)) = Ok (VBool (a || b)).
Proof. by destruct a. Qed.

Lemma symbol_test_occupied g i P : symbol_test g (AIdx i) P = true → occupied g i = true.
Proof. unfold symbol_test, cell_at, occupied. simpl. by destruct (g !! i) as [[]|]. Qed.

Lemma pair_occupied_elem g p i : pair_occupied g p = true → i ∈ p → occupied g i = true.
Proof.
  destruct p as [|a [|b [|]]]; simpl; try done.
  rewrite andb_true_iff. set_solver.
Qed.

Lemma cell_color_total g i : occupied g i = true → ∃ c, cell_color g i = Ok c.
Proof. intros H. destruct (occupied_cell_color g i H) as (s & _ & ->). eauto. Qed.

Lemma cell_shape_total g i : occupied g i = true → ∃ c, cell_shape g i = Ok c.
Proof. unfold occupied, cell_shape. destruct (g !! i) as [[]|]; naive_solver. Qed.

Lemma all_same_total proj g a :
  (∀ i, i ∈ a → ∃ c, proj g i = Ok c) → ∃ b, all_same proj g a = Ok b.
Proof.
  intros Hp. apply some_r_total. intros c _. apply every_r_total.
  intros i Hi. destruct (Hp i Hi) as [v ->]. by eexists.
Qed.

Lemma all_different_total proj g a :
  (∀ i, i ∈ a → ∃ c, proj g i = Ok c) → ∃ b, all_different proj g a = Ok b.
Proof.
  intros Hp. apply every_r_total. intros c _.
  destruct (arrayCount_total (λ i _, (λ v, bool_decide (v = c)) <$> proj g i) a) as [n ->].
  - intros i j Hi. destruct (Hp i Hi) as [v ->]. by eexists.
  - by eexists.
Qed.

#[export] Hint Resolve cell_color_total cell_shape_total : zendo.

(** Destructs the typing hypotheses of children applied in the goal. *)
Ltac use_child_types :=
  repeat match goal with
  | H : ∀ i, ∃ b, ?f (AIdx i) = Ok (VBool b) |- context [?f (AIdx ?j)] =>
      let b := fresh "b" in destruct (H j) as [b ->]
  end.

(** ** Each closure of the table has the type of its category *)

Lemma match_rule_noun_typed m g f0 f1 :
  m = RuleEvery ∨ m = RuleSome ∨ m = RuleNo →
  fn_type FNoun g f0 → fn_type FNounPred g f1 →
  ∃ b, match_rule m g [f0; f1] = Ok (VBool b).
Proof.
  simpl. intros Hm H0 H1. apply fmap_VBool_total.
  destruct Hm as [-> | [-> | ->]]; simpl;
    [apply every_r_total|apply some_r_total|apply every_r_total]; intros i _;
    unfold child_bool, call_child; simpl; use_child_types; simpl;
    repeat case_match; by eexists.
Qed.

Lemma match_rule_groups_typed g f0 f1 :
  fn_type FGroup g f0 → fn_type FGroupPred g f1 →
  ∃ b, match_rule RuleGroups g [f0; f1] = Ok (VBool b).
Proof.
  intros (gs & H0 & Hocc) H1. apply fmap_VBool_total. simpl.
  unfold call_child. simpl. rewrite H0. simpl.
  apply every_r_total. intros [|i a] Ha; [by eexists|].
  unfold child_bool, call_child. simpl.
  destruct (H1 (i :: a) (Hocc _ Ha)) as [b ->]. by eexists.
Qed.

Lemma match_rule_line_typed m g f0 :
  m = RuleRowFilled ∨ m = RuleColumnFilled → fn_type FNoun g f0 →
  ∃ b, match_rule m g [f0] = Ok (VBool b).
Proof.
  simpl. intros Hm H0. apply fmap_VBool_total.
  destruct Hm as [-> | ->]; simpl; unfold child_bool, call_child; simpl;
    use_child_types; simpl; repeat case_match; by eexists.
Qed.

Lemma match_nounPred_adjacent_typed g f0 attr :
  fn_type FNoun g f0 → fn_type FNounPred g (λ x, match_nounPred PredAdjacent g x [f0] attr).
Proof.
  simpl. intros H0 i. unfold call_child. simpl. use_child_types.
  repeat case_match; rewrite ?js_or_bool; by eexists.
Qed.

Lemma match_group_typed m g :
  length g = 9 → fn_type FGroup g (λ _, Ok (match_group m g)).
Proof.
  intros Hg. eexists. split; [reflexivity|].
  intros a Ha i Hi. destruct m; simpl in Ha;
    repeat match goal with
    | H : _ ∈ filter _ _ |- _ => apply list_elem_of_filter in H as [? H]
    | H : _ ∈ _ :: _ |- _ => apply elem_of_cons in H as [->|H]
    | H : _ ∈ [] |- _ => by apply elem_of_nil in H
    end;
    eauto using symbol_test_occupied, pair_occupied_elem, not_null_strict_occupied with lia.
Qed.

Lemma match_groupPred_typed m g :
  fn_type FGroupPred g (λ x, match_groupPred m g x).
Proof.
  simpl. intros a Ha. unfold match_groupPred. simpl. apply fmap_VBool_total.
  assert (Hc : ∀ i, i ∈ a → ∃ c, cell_color g i = Ok c) by eauto with zendo.
  assert (Hs : ∀ i, i ∈ a → ∃ c, cell_shape g i = Ok c) by eauto with zendo.
  destruct m; try by eauto using all_same_total, all_different_total.
  - destruct (all_same_total _ _ _ Hc) as [[] ->]; simpl; eauto using all_same_total.
  - destruct (all_same_total _ _ _ Hc) as [[] ->]; simpl; eauto using all_same_total.
Qed.

(** Every template of the table has the type of its category when its
    children have the types its [childTypes] lists. *)
Lemma rawMatch_typed t e g child attr :
  e ∈ ruleDict t → length g = 9 →
  Forall2 (λ ct f, fn_type ct g f) (children_of e) child →
  fn_type t g (λ x, rawMatch (tmatch e) g x child attr).
Proof.
  intros He Hg Hc.
  destruct t; enum_table He; simpl in Hc;
    repeat match goal with H : Forall2 _ _ _ |- _ => inv H end;
    cbn [tmatch rawMatch].
  (* the goals are the templates in table order; each selector consumes its goals *)
  1-3: apply match_rule_noun_typed; auto.
  1: by apply match_rule_groups_typed.
  1-2: apply match_rule_line_typed; auto.
  1-9: intros i; by eexists.
  1: by apply match_nounPred_adjacent_typed.
  1-7: by apply match_group_typed.
  all: apply match_groupPred_typed.
Qed.

(** ** Induction over well-formed skeletons *)

Lemma Forall3_of_results {P : fragType → frag → inst → Prop} ts cs kids :
  Forall2 (λ ct c, ∃ r, instantiateRule c = Ok r ∧ P ct c r) ts cs →
  Forall2 (λ c r, instantiateRule c = Ok r) cs kids → Forall3 P ts cs kids.
Proof.
  intros Hall. revert kids. induction Hall as [|t0 c0 ts0 cs0 (r & Hr & Hp) _ IH];
    intros kids Hk; inv Hk; constructor; [|by apply IH].
  match goal with H : instantiateRule c0 = Ok _ |- _ => rewrite Hr in H; by injection H as <- end.
Qed.

(** A property [Φ t f r] of a skeleton [f] of category [t] and of the rule
    [r] it instantiates to holds for every well-formed skeleton when it
    passes from the children to the node: the node's rule carries the
    template's [match], the children's rules and the attribute index. *)
Lemma instantiate_wf_ind (Φ : fragType → frag → inst → Prop) :
  (∀ t idx cs attr e kids s p,
     ruleDict t !! idx = Some e → is_Some (tmatch e) →
     Forall3 Φ (children_of e) cs kids →
     Φ t (Frag t idx cs attr) (Inst s p (tmatch e) kids attr)) →
  ∀ t f, wf_frag t f = true → ∃ r, instantiateRule f = Ok r ∧ Φ t f r.
Proof.
  intros Hstep t f. revert t. induction f as [t' idx cs attr IH] using frag_ind'. intros t Hwf.
  simpl in Hwf. apply andb_true_iff in Hwf as [Ht Hwf].
  apply bool_decide_eq_true in Ht as ->.
  destruct (ruleDict t !! idx) as [e|] eqn:He; [|done].
  apply andb_true_iff in Hwf as [Hwf Hattr]. apply andb_true_iff in Hwf as [Hm Hcs].
  apply bool_decide_eq_true in Hm. apply wf_children_Forall2 in Hcs.
  assert (Hall : Forall2 (λ ct c, ∃ r, instantiateRule c = Ok r ∧ Φ ct c r) (children_of e) cs).
  { clear He Hm Hattr. revert Hcs. generalize (children_of e).
    induction IH as [|c cs' Hc _ IHcs]; intros ts Hts; inv Hts; constructor; auto. }
  (* the children instantiate to the rules [kids] *)
  assert (Hkids : ∃ kids,
    match childTypes e with
    | Some _ => ∃ s' p', instantiate_children instantiateRule cs 0 []
                           (default "" (descSingular e))
                           (default (default "" (descSingular e)) (descPlural e))
                         = Ok (kids, s', p')
    | None => kids = []
    end ∧ Forall3 Φ (children_of e) cs kids).
  { unfold children_of in *. destruct (childTypes e) as [ts|]; last first.
    { exists []. inv Hall. split; [done|constructor]. }
    destruct (instantiate_children_ok instantiateRule cs 0 []
                (default "" (descSingular e))
                (default (default "" (descSingular e)) (descPlural e)))
      as (kids & s' & p' & Hok & Hk).
    { clear -Hall. induction Hall as [|t0 c0 ts0 cs0 (r & Hr & _) _ IHa]; constructor; eauto. }
    exists kids. split; [eauto|]. by eapply Forall3_of_results. }
  destruct Hkids as (kids & Hrun & Hkids).
  assert (∃ s2 p2, instantiateRule (Frag t idx cs attr) = Ok (Inst s2 p2 (tmatch e) kids attr))
    as (s2 & p2 & ->).
  { simpl. rewrite He. simpl.
    destruct (childTypes e); [destruct Hrun as (s' & p' & ->)|subst kids]; simpl;
      destruct (attribute e); eauto. }
  eexists. split; [done|]. by apply Hstep.
Qed.

(** Every well-formed skeleton of category [t] instantiates without error,
    and the [match] of the result has the type of [t] on every 9-cell grid:
    rules, nouns and predicates give booleans, groups give groups of
    occupied cells.  No TypeError is ever thrown. *)
Theorem instantiate_wf_typed t f :
  wf_frag t f = true → ∃ r, instantiateRule f = Ok r ∧ has_type t r.
Proof.
  apply (instantiate_wf_ind (λ t _ r, has_type t r)).
  intros t0 idx cs attr e kids s p He _ Hkids g Hg. simpl.
  apply rawMatch_typed; [by eapply list_elem_of_lookup_2|done|].
  clear -Hkids Hg. induction Hkids; simpl; constructor; auto.
Qed.

(** C2: the spec's invariant on rules (section 3).  Every well-formed rule
    skeleton instantiates without error, and the resulting rule has the
    type of its category: its [match], called as [rule.match(g)], returns a
    boolean on every 9-cell grid, with no TypeError and no non-boolean
    value. *)
Theorem instantiate_rule_boolean f :
  wf_frag FRule f = true → ∃ r, instantiateRule f = Ok r ∧ has_type FRule r.
Proof. apply instantiate_wf_typed. Qed.

(** "Every red symbol is a circle": rule 0 with the noun "red" and the
    predicate "a circle". *)
Definition every_red_is_circle : frag :=
  Frag FRule 0 [Frag FNoun 0 [] 0; Frag FNounPred 1 [] 0] 0.

Lemma instantiate_rule_boolean_witness :
  wf_frag FRule every_red_is_circle = true ∧
  ∃ r, instantiateRule every_red_is_circle = Ok r ∧ has_type FRule r.
Proof.
  assert (H : wf_frag FRule every_red_is_circle = true) by reflexivity.
  split; [exact H|exact (instantiate_rule_boolean every_red_is_circle H)].
Defined.
