(* ===== verification/Semantics.v ===== *)
(** * What a rule means, and that the closures compute it

    Spec section 4.1 gives each category of the grammar table its meaning
    in words: "every noun satisfying child-1 also satisfies predicate
    child-2", "adjacent (4-neighbor) to some cell satisfying a nested
    noun", "cells form one 4-connected cluster", and so on.  This file
    writes those meanings down as a denotation [sem g f] of a skeleton [f]
    on a grid [g], with propositions and plain lists: geometric adjacency
    instead of the code's index arithmetic, quantifiers over the cells
    instead of [every]/[some], distinctness of colours instead of counting.

    The refinement theorem [instantiate_refines] shows that for every
    well-formed skeleton the closure tree built by [instantiateRule]
    (Instantiate.v, Eval.v), with its JS coercions, short-circuits and
    child calls, computes exactly that meaning on every 9-cell grid whose
    symbols have valid colours and shapes.  Groups are compared up to the
    order of the groups, which the spec leaves open and the rule that
    consumes them ignores. *)

From S2P Require Import Prelude Grid Grammar Connectivity Eval Instantiate Typing.

(** ** The spec's vocabulary *)

Definition color_at (g : grid) (i : nat) : option nat :=
  match g !! i with Some (Some s) => Some (color s) | _ => None end.

Definition shape_at (g : grid) (i : nat) : option nat :=
  match g !! i with Some (Some s) => Some (shape s) | _ => None end.

(** Two cells of the 3x3 board that share a side. *)
Definition adjacent (i j : nat) : Prop :=
  i < 9 ∧ j < 9 ∧
  ((i / 3 = j / 3 ∧ (i mod 3 + 1 = j mod 3 ∨ j mod 3 + 1 = i mod 3)) ∨
   (i mod 3 = j mod 3 ∧ (i / 3 + 1 = j / 3 ∨ j / 3 + 1 = i / 3))).

(** A path of adjacent cells inside the group [a]. *)
Inductive linked (a : list nat) : nat → nat → Prop :=
  | linked_refl x : x ∈ a → linked a x x
  | linked_step x y z : x ∈ a → adjacent x y → linked a y z → linked a x z.

(** The structurally adjacent pairs, smaller cell first. *)
Definition adjacent_pairs_spec : list (list nat) :=
  flat_map (λ i, map (λ j, [i; j]) (filter (λ j, bool_decide (i < j ∧ adjacent i j)) (seq 0 9)))
    (seq 0 9).

(** ** The meaning of each alternative (spec section 4.1) *)

Definition noun_sem (m : noun_match) (g : grid) (attr i : nat) : Prop :=
  match m with
  | NounColor => color_at g i = Some attr
  | NounShape => shape_at g i = Some attr
  | NounRow => occupied g i = true ∧ i / 3 = attr
  | NounColumn => occupied g i = true ∧ i mod 3 = attr
  | NounBlank => occupied g i = false
  end.

Definition nounPred_sem (m : nounPred_match) (g : grid) (attr : nat) (N : nat → Prop)
    (i : nat) : Prop :=
  match m with
  | PredColor => color_at g i = Some attr
  | PredShape => shape_at g i = Some attr
  | PredRow => i / 3 = attr
  | PredColumn => i mod 3 = attr
  | PredAdjacent => ∃ j, adjacent i j ∧ N j
  end.

Definition group_sem (m : group_match) (g : grid) : list (list nat) :=
  let occ i := occupied g i = true in
  match m with
  | GroupAll => [filter occ (seq 0 9)]
  | GroupRows => map (λ r, filter occ [3 * r; 3 * r + 1; 3 * r + 2]) [0; 1; 2]
  | GroupColumns => map (λ c, filter occ [c; c + 3; c + 6]) [0; 1; 2]
  | GroupColors => map (λ c, filter (λ i, color_at g i = Some c) (seq 0 9)) [0; 1; 2]
  | GroupShapes => map (λ c, filter (λ i, shape_at g i = Some c) (seq 0 9)) [0; 1; 2]
  | GroupIdentical =>
      flat_map (λ s, map (λ c, filter (λ i, shape_at g i = Some s ∧ color_at g i = Some c)
                                  (seq 0 9)) [0; 1; 2]) [0; 1; 2]
  | GroupAdjacent => filter (λ p, Forall occ p) adjacent_pairs_spec
  end.

Definition all_equal (f : nat → option nat) (a : list nat) : Prop :=
  ∀ i j, i ∈ a → j ∈ a → f i = f j.

Definition groupPred_sem (m : groupPred_match) (g : grid) (a : list nat) : Prop :=
  match m with
  | SameColor => all_equal (color_at g) a
  | DifferentColors => NoDup (color_at g <$> a)
  | SameShape => all_equal (shape_at g) a
  | DifferentShapes => NoDup (shape_at g <$> a)
  | SameColorOrShape => all_equal (color_at g) a ∨ all_equal (shape_at g) a
  | Identical => all_equal (color_at g) a ∧ all_equal (shape_at g) a
  | Connected => ∀ x y, x ∈ a → y ∈ a → linked a x y
  end.

(** The meaning of a fragment of each category: a truth value for a rule,
    a property of cells for nouns and noun predicates, a list of groups,
    a property of groups. *)
Inductive den :=
  | DRule (P : Prop)
  | DCell (P : nat → Prop)
  | DGroups (gs : list (list nat))
  | DGroupPred (P : list nat → Prop).

Definition den_rule (d : den) : Prop := match d with DRule P => P | _ => False end.
Definition den_cell (d : den) : nat → Prop := match d with DCell P => P | _ => λ _, False end.
Definition den_groups (d : den) : list (list nat) := match d with DGroups gs => gs | _ => [] end.
Definition den_groupPred (d : den) : list nat → Prop :=
  match d with DGroupPred P => P | _ => λ _, False end.

Definition rule_sem (m : rule_match) (g : grid) (d0 d1 : den) : Prop :=
  let N := den_cell d0 in
  match m with
  | RuleEvery => ∀ i, i < 9 → N i → den_cell d1 i
  | RuleSome => ∃ i, i < 9 ∧ N i ∧ den_cell d1 i
  | RuleNo => ∀ i, i < 9 → ¬ (N i ∧ den_cell d1 i)
  | RuleGroups => ∀ a, a ∈ den_groups d0 → a ≠ [] → den_groupPred d1 a
  | RuleRowFilled => ∃ r, r < 3 ∧ ∀ c, c < 3 → N (3 * r + c)
  | RuleColumnFilled => ∃ c, c < 3 ∧ ∀ r, r < 3 → N (3 * r + c)
  end.

Definition matcher_sem (m : matcher) (g : grid) (attr : nat) (ds : list den) : den :=
  let d k := default (DRule False) (ds !! k) in
  match m with
  | MRule r => DRule (rule_sem r g (d 0) (d 1))
  | MNoun n => DCell (noun_sem n g attr)
  | MNounPred p => DCell (nounPred_sem p g attr (den_cell (d 0)))
  | MGroup gr => DGroups (group_sem gr g)
  | MGroupPred q => DGroupPred (groupPred_sem q g)
  end.

(** The meaning of a skeleton on the grid [g]. *)
Fixpoint sem (g : grid) (f : frag) : den :=
  match f with
  | Frag t idx cs attr =>
      match ruleDict t !! idx ≫= tmatch with
      | Some m => matcher_sem m g attr (map (sem g) cs)
      | None => DRule False
      end
  end.

(** ** Refinement *)

(** The closure [f] computes the meaning [d] of category [t] on [g]: the
    value it returns is a boolean that holds exactly when the meaning does,
    or, for groups, the groups of the meaning in some order, all of
    occupied cells. *)
Definition refines (t : fragType) (g : grid) (f : arg → result val) (d : den) : Prop :=
  match t with
  | FRule => ∃ b, f AUndef = Ok (VBool b) ∧ (b = true ↔ den_rule d)
  | FNoun | FNounPred =>
      ∀ i, i < 9 → ∃ b, f (AIdx i) = Ok (VBool b) ∧ (b = true ↔ den_cell d i)
  | FGroup =>
      ∃ gs, f AUndef = Ok (VGroups gs) ∧ gs ≡ₚ den_groups d ∧
            ∀ a, a ∈ gs → ∀ i, i ∈ a → occupied g i = true
  | FGroupPred =>
      ∀ a, (∀ i, i ∈ a → occupied g i = true) →
      ∃ b, f (AList a) = Ok (VBool b) ∧ (b = true ↔ den_groupPred d a)
  end.

(** ** Adjacency and clusters *)

(** The code's moves [i-3], [i+3], [i-1], [i+1] with their guards are the
    side-sharing cells. *)
Lemma adjacent_neighbours i j : i < 9 → adjacent i j ↔ j ∈ neighbours i.
Proof. intros Hi. rewrite elem_of_neighbours. unfold adjacent. lia. Qed.

Lemma adjacent_sym i j : adjacent i j → adjacent j i.
Proof. unfold adjacent. lia. Qed.

Lemma linked_in_l a x y : linked a x y → x ∈ a.
Proof. by destruct 1. Qed.

Lemma linked_in_r a x y : linked a x y → y ∈ a.
Proof. induction 1; done. Qed.

Lemma linked_trans a x y z : linked a x y → linked a y z → linked a x z.
Proof. induction 1; eauto using linked. Qed.

Lemma linked_sym a x y : linked a x y → linked a y x.
Proof.
  induction 1 as [|x y z Hx Hxy Hyz IH]; [by constructor|].
  eapply linked_trans; [apply IH|].
  apply linked_step with x; [by eapply linked_in_l|by apply adjacent_sym|by constructor].
Qed.

(** The flood fill's reachability through the set of a group's cells is a
    path of adjacent cells of the group. *)
Lemma reach_linked a x y :
  (∀ i, i ∈ a → i < 9) → reach (list_to_set a) x y ↔ linked a x y.
Proof.
  intros Ha. split.
  - induction 1 as [i Hi|i j k Hi Hj _ IH]; apply elem_of_list_to_set in Hi;
      [by constructor|].
    apply linked_step with j; [done| |done]. by apply adjacent_neighbours; [apply Ha|].
  - induction 1 as [x Hx|x y z Hx Hxy _ IH].
    + constructor. by apply elem_of_list_to_set.
    + apply reach_step with y; [by apply elem_of_list_to_set| |done].
      by apply adjacent_neighbours; [apply Ha|].
Qed.

(** ** Cells *)

Lemma color_at_cell g i s : g !! i = Some (Some s) → color_at g i = Some (color s).
Proof. unfold color_at. by intros ->. Qed.

Lemma symbol_test_at g i (test : symbol → bool) :
  symbol_test g (AIdx i) test = true ↔ ∃ s, g !! i = Some (Some s) ∧ test s = true.
Proof. unfold symbol_test, cell_at. simpl. destruct (g !! i) as [[s|]|]; naive_solver. Qed.

Lemma symbol_test_color g i c :
  symbol_test g (AIdx i) (λ s, bool_decide (color s = c)) = true ↔ color_at g i = Some c.
Proof.
  rewrite symbol_test_at. unfold color_at.
  destruct (g !! i) as [[s|]|]; split; try naive_solver.
  - intros (? & [= <-] & H). by apply bool_decide_eq_true in H as ->.
  - intros [= <-]. eexists. split; [done|]. by apply bool_decide_eq_true.
Qed.

Lemma symbol_test_shape g i c :
  symbol_test g (AIdx i) (λ s, bool_decide (shape s = c)) = true ↔ shape_at g i = Some c.
Proof.
  rewrite symbol_test_at. unfold shape_at.
  destruct (g !! i) as [[s|]|]; split; try naive_solver.
  - intros (? & [= <-] & H). by apply bool_decide_eq_true in H as ->.
  - intros [= <-]. eexists. split; [done|]. by apply bool_decide_eq_true.
Qed.

Lemma symbol_test_any g i : symbol_test g (AIdx i) (λ _, true) = occupied g i.
Proof. unfold symbol_test, cell_at, occupied. simpl. by destruct (g !! i) as [[]|]. Qed.

(** The closure of every noun computes its meaning. *)
Lemma match_noun_refines m g attr :
  refines FNoun g (λ x, Ok (match_noun m g x attr)) (DCell (noun_sem m g attr)).
Proof.
  intros i _. eexists. split; [reflexivity|]. destruct m; cbn [noun_sem den_cell].
  - apply symbol_test_color.
  - apply symbol_test_shape.
  - rewrite andb_true_iff, symbol_test_any. unfold row_is. simpl. by rewrite bool_decide_eq_true.
  - rewrite andb_true_iff, symbol_test_any. unfold column_is. simpl. by rewrite bool_decide_eq_true.
  - unfold occupied, cell_at. simpl. destruct (g !! i) as [[]|]; naive_solver.
Qed.

(** A closure that refines a property of cells is a boolean function of
    the cell. *)
Lemma refines_cell_fn g f d :
  refines FNoun g f d →
  ∃ p : nat → bool, (∀ i, i < 9 → f (AIdx i) = Ok (VBool (p i))) ∧
                    (∀ i, i < 9 → p i = true ↔ den_cell d i).
Proof.
  intros Hf. exists (λ i, match f (AIdx i) with Ok (VBool b) => b | _ => false end).
  split; intros i Hi; destruct (Hf i Hi) as (b & -> & Hb); done.
Qed.

(** [c && child(...)] where the child is called only when [c] holds. *)
Lemma js_and_guard (c b : bool) (r : result val) :
  (c = true → r = Ok (VBool b)) → js_and (Ok (VBool c)) r = Ok (VBool (c && b)).
Proof. destruct c; simpl; [intros ->; auto|done]. Qed.

Lemma match_nounPred_plain_refines m g attr child N :
  m ≠ PredAdjacent →
  refines FNounPred g (λ x, match_nounPred m g x child attr) (DCell (nounPred_sem m g attr N)).
Proof.
  intros Hm i _. destruct m; [..|done]; eexists; (split; [reflexivity|]); cbn [nounPred_sem den_cell].
  - apply symbol_test_color.
  - apply symbol_test_shape.
  - unfold row_is. simpl. by rewrite bool_decide_eq_true.
  - unfold column_is. simpl. by rewrite bool_decide_eq_true.
Qed.

(** "adjacent to a %1": the four guarded calls of the child are the four
    side-sharing cells. *)
Lemma match_adjacent_refines g attr f0 d0 :
  refines FNoun g f0 d0 →
  refines FNounPred g (λ x, match_nounPred PredAdjacent g x [f0] attr)
    (DCell (nounPred_sem PredAdjacent g attr (den_cell d0))).
Proof.
  intros H0. destruct (refines_cell_fn g f0 d0 H0) as (p & Hp & Hiff).
  intros i Hi. cbn [match_nounPred arg_number call_child lookup list_lookup].
  rewrite (js_and_guard _ (p (i - 3))), (js_and_guard _ (p (i + 3))),
    (js_and_guard _ (p (i - 1))), (js_and_guard _ (p (i + 1))), !js_or_bool;
    try (intros ?%bool_decide_eq_true; apply Hp; lia).
  eexists. split; [reflexivity|]. cbn [den_cell nounPred_sem].
  rewrite !orb_true_iff, !andb_true_iff, !bool_decide_eq_true. split.
  - intros [[[[G Hb]|[G Hb]]|[G Hb]]|[G Hb]];
      [exists (i - 3)|exists (i + 3)|exists (i - 1)|exists (i + 1)];
      (split; [apply adjacent_neighbours, elem_of_neighbours; [done|]; lia
              |apply Hiff; [lia|exact Hb]]).
  - intros (j & Hadj & HN). pose proof Hadj as (_ & Hj & _).
    apply Hiff in HN; [|done]. apply adjacent_neighbours, elem_of_neighbours in Hadj; [|done].
    destruct Hadj as [[? ->]|[[? ->]|[[? ->]|[? ->]]]]; tauto.
Qed.

(** ** Rules *)

Lemma forallb_seq9 (p : nat → bool) : forallb p (seq 0 9) = true ↔ ∀ i, i < 9 → p i = true.
Proof.
  rewrite forallb_forall. split; intros H i Hi.
  - apply H, list_elem_of_In, elem_of_seq. lia.
  - apply list_elem_of_In, elem_of_seq in Hi. apply H. lia.
Qed.

Lemma existsb_seq9 (p : nat → bool) : existsb p (seq 0 9) = true ↔ ∃ i, i < 9 ∧ p i = true.
Proof.
  rewrite existsb_exists. split; intros (i & Hi & H); exists i.
  - apply list_elem_of_In, elem_of_seq in Hi. split; [lia|done].
  - split; [apply list_elem_of_In, elem_of_seq; lia|done].
Qed.

(** [child[k](i)] on a cell, under [ToBoolean]. *)
Lemma child_bool_cell (child : list (arg → result val)) k f p i :
  child !! k = Some f → f (AIdx i) = Ok (VBool p) → child_bool child k (AIdx i) = Ok p.
Proof. unfold child_bool, call_child. by intros -> ->. Qed.

(** "Every %1 is %2", "There is a %1 that is %2", "No %1 is %2". *)
Lemma match_rule_noun_refines m g f0 f1 d0 d1 :
  m = RuleEvery ∨ m = RuleSome ∨ m = RuleNo → length g = 9 →
  refines FNoun g f0 d0 → refines FNounPred g f1 d1 →
  refines FRule g (λ _, match_rule m g [f0; f1]) (DRule (rule_sem m g d0 d1)).
Proof.
  intros Hm Hg H0 H1.
  destruct (refines_cell_fn g f0 d0 H0) as (p0 & Hc0 & Hi0).
  destruct (refines_cell_fn g f1 d1 H1) as (p1 & Hc1 & Hi1).
  assert (Hcall : ∀ k f p i, i ∈ seq 0 9 → [f0; f1] !! k = Some f →
            (∀ i, i < 9 → f (AIdx i) = Ok (VBool (p i))) →
            child_bool [f0; f1] k (AIdx i) = Ok (p i)).
  { intros k f p i Hi%elem_of_seq Hk Hf. apply (child_bool_cell _ k f); [done|]. apply Hf. lia. }
  destruct Hm as [-> | [-> | ->]]; cbn [refines rule_sem den_rule]; unfold match_rule, indices; rewrite Hg;
    [rewrite (every_r_pure _ (λ i, negb (p0 i) || p1 i))
    |rewrite (some_r_pure _ (λ i, p0 i && p1 i))
    |rewrite (every_r_pure _ (λ i, negb (p0 i) || negb (p1 i)))];
    try (intros i Hi; rewrite (Hcall 0 f0 p0) by done; destruct (p0 i); simpl;
         [rewrite (Hcall 1 f1 p1) by done|]; done);
    eexists; (split; [reflexivity|]);
    rewrite ?forallb_seq9, ?existsb_seq9;
    split; [intros H i Hi|intros H i Hi|intros (i & Hi & H)|intros (i & Hi & H)
           |intros H i Hi|intros H i Hi];
    try (specialize (H i Hi)); try (exists i; split; [done|]);
    pose proof (Hi0 i Hi); pose proof (Hi1 i Hi); destruct (p0 i), (p1 i); naive_solver.
Qed.

Lemma elem_of_perm {A} (l1 l2 : list A) x : l1 ≡ₚ l2 → x ∈ l1 → x ∈ l2.
Proof. intros Hp Hx. apply list_elem_of_In. by eapply Permutation_in; [|apply list_elem_of_In]. Qed.

(** "%1 %2": [child[0]().every(a => a.length == 0 || child[1](a))]. *)
Lemma match_rule_groups_refines g f0 f1 d0 d1 :
  refines FGroup g f0 d0 → refines FGroupPred g f1 d1 →
  refines FRule g (λ _, match_rule RuleGroups g [f0; f1]) (DRule (rule_sem RuleGroups g d0 d1)).
Proof.
  intros (gs & Hgs & Hperm & Hocc) H1. cbn [refines rule_sem den_rule]. unfold match_rule.
  unfold call_child at 1. cbn [lookup list_lookup]. rewrite Hgs. cbn [mbind result_bind].
  set (q := λ a : list nat,
         match a with [] => true | _ => match f1 (AList a) with Ok (VBool b) => b | _ => false end end).
  rewrite (every_r_pure _ q); last first.
  { intros [|i a] Ha; [done|]. unfold child_bool, call_child. cbn [lookup list_lookup].
    destruct (H1 (i :: a) (Hocc _ Ha)) as (b & Hb & _). unfold q. by rewrite Hb. }
  eexists. split; [reflexivity|]. rewrite forallb_forall. split.
  - intros H a Ha Hne. apply (elem_of_perm _ gs) in Ha; [|done].
    destruct (H1 a (Hocc a Ha)) as (b & Hb & Hiff).
    specialize (H a (proj1 (list_elem_of_In _ _) Ha)). unfold q in H.
    destruct a; [done|]. rewrite Hb in H. by apply Hiff.
  - intros H a Ha%list_elem_of_In. unfold q. destruct a as [|i a]; [done|].
    destruct (H1 (i :: a) (Hocc _ Ha)) as (b & Hb & Hiff). rewrite Hb.
    apply Hiff, H; [|done]. by apply (elem_of_perm gs).
Qed.

Lemma elem_of_bound (l : list nat) n x : Forall (λ y, y < n) l → x ∈ l → x < n.
Proof. rewrite Forall_forall. auto. Qed.

(** A bound on the three members of a list by [lia]. *)
Local Ltac forall3 := rewrite !Forall_cons, Forall_nil; lia.

(** Some line of three cells all satisfy [p]: lines given by their cells. *)
Lemma existsb_lines (p : nat → bool) (F : nat → nat → nat) :
  existsb (λ k, p (F k 0) && (p (F k 1) && (p (F k 2) && true))) [0; 1; 2] = true ↔
  ∃ k, k < 3 ∧ ∀ c, c < 3 → p (F k c) = true.
Proof.
  cbn [existsb]. rewrite !orb_true_iff, !andb_true_iff. split.
  - intros [(?&?&?&_)|[(?&?&?&_)|[(?&?&?&_)|?]]]; [exists 0|exists 1|exists 2|done];
      (split; [lia|]); intros [|[|[|c]]] Hc; done || lia.
  - intros (k & Hk & H). pose proof (H 0 ltac:(lia)). pose proof (H 1 ltac:(lia)).
    pose proof (H 2 ltac:(lia)). destruct k as [|[|[|k]]]; [..|lia]; tauto.
Qed.

(** "There is a row filled with $1" and "There is a column filled with $1". *)
Lemma match_rule_line_refines m g f0 d0 d1 :
  m = RuleRowFilled ∨ m = RuleColumnFilled → refines FNoun g f0 d0 →
  refines FRule g (λ _, match_rule m g [f0]) (DRule (rule_sem m g d0 d1)).
Proof.
  intros Hm H0. destruct (refines_cell_fn g f0 d0 H0) as (p0 & Hc0 & Hi0).
  assert (Hline : ∀ (F : nat → nat → nat), (∀ k c, k < 3 → c < 3 → F k c < 9) →
    (∃ k, k < 3 ∧ ∀ c, c < 3 → p0 (F k c) = true) ↔ (∃ k, k < 3 ∧ ∀ c, c < 3 → den_cell d0 (F k c))).
  { intros F HF. split; intros (k & Hk & H); exists k; (split; [done|]);
      intros c Hc; apply Hi0; auto. }
  assert (Hside : ∀ (off : nat → nat) (rs : list nat), Forall (λ r, r + off 2 < 9) rs →
    off 0 ≤ off 2 → off 1 ≤ off 2 →
    ∀ r, r ∈ rs → every_r (λ i, child_bool [f0] 0 (AIdx i)) [r + off 0; r + off 1; r + off 2] =
                  Ok (p0 (r + off 0) && (p0 (r + off 1) && (p0 (r + off 2) && true)))).
  { intros off rs Hrs Hoff0 Hoff1 r Hr. rewrite Forall_forall in Hrs. specialize (Hrs r Hr).
    rewrite (every_r_pure _ p0); [reflexivity|].
    intros i Hi. apply (elem_of_bound _ 9) in Hi; [|forall3].
    apply (child_bool_cell _ 0 f0); [done|]. apply Hc0. lia. }
  cbn [refines rule_sem den_rule]. unfold match_rule.
  destruct Hm as [-> | ->].
  - rewrite (some_r_pure _ (λ r, p0 (r + 0) && (p0 (r + 1) && (p0 (r + 2) && true)))); last first.
    { apply (Hside (λ k, k)); [forall3|lia|lia]. }
    eexists. split; [reflexivity|].
    transitivity (∃ k, k < 3 ∧ ∀ c, c < 3 → p0 (3 * k + c) = true);
      [exact (existsb_lines p0 (λ k c, 3 * k + c))|apply (Hline (λ k c, 3 * k + c)); lia].
  - rewrite (some_r_pure _ (λ r, p0 (r + 0) && (p0 (r + 3) && (p0 (r + 6) && true)))); last first.
    { apply (Hside (λ k, 3 * k)); [forall3|lia|lia]. }
    eexists. split; [reflexivity|].
    transitivity (∃ k, k < 3 ∧ ∀ c, c < 3 → p0 (3 * c + k) = true);
      [exact (existsb_lines p0 (λ k c, 3 * c + k))|apply (Hline (λ k c, 3 * c + k)); lia].
Qed.

(** ** Groups *)

Lemma filter_ext_in {A} (P Q : A → Prop) `{∀ x, Decision (P x)} `{∀ x, Decision (Q x)} (l : list A) :
  (∀ x, x ∈ l → P x ↔ Q x) → filter P l = filter Q l.
Proof.
  induction l as [|x l IH]; intros HPQ; [done|]. rewrite !filter_cons.
  rewrite IH by set_solver. pose proof (HPQ x ltac:(set_solver)).
  by repeat case_decide; naive_solver.
Qed.

Lemma not_null_strict_occupied_eq g i :
  i < length g → not_null_strict g i = occupied g i.
Proof.
  intros Hi. unfold not_null_strict, occupied.
  destruct (lookup_lt_is_Some_2 g i Hi) as [[] ->]; done.
Qed.

Lemma symbol_test_both g i a b :
  symbol_test g (AIdx i) (λ s, bool_decide (shape s = a) && bool_decide (color s = b)) = true ↔
  shape_at g i = Some a ∧ color_at g i = Some b.
Proof.
  rewrite symbol_test_at. unfold shape_at, color_at.
  destruct (g !! i) as [[s|]|]; [|naive_solver..].
  setoid_rewrite andb_true_iff. setoid_rewrite bool_decide_eq_true. naive_solver.
Qed.

(** The code's twelve pairs are the spec's adjacent pairs. *)
Lemma adjacent_pairs_perm : adjacent_pairs ≡ₚ adjacent_pairs_spec.
Proof. vm_compute. by apply (bool_decide_eq_true_1 _). Qed.

Lemma pair_occupied_Forall g p :
  p ∈ adjacent_pairs → pair_occupied g p = true ↔ Forall (λ i, occupied g i = true) p.
Proof.
  intros Hp. unfold adjacent_pairs in Hp.
  repeat (apply elem_of_cons in Hp as [->|Hp]); [..|by apply elem_of_nil in Hp];
    cbn [pair_occupied]; rewrite andb_true_iff, !Forall_cons, Forall_nil; tauto.
Qed.

(** Each group closure returns the spec's groups, in some order, and every
    group holds occupied cells only. *)
Lemma match_group_refines m g :
  length g = 9 → refines FGroup g (λ _, Ok (match_group m g)) (DGroups (group_sem m g)).
Proof.
  intros Hg. destruct (match_group_typed m g Hg) as (gs & Hgs & Hocc).
  exists gs. split; [done|]. split; [|done]. cbn [den_groups].
  cbn in Hgs. simplify_eq. unfold indices. rewrite Hg.
  assert (Hnns : ∀ l, Forall (λ i, i < 9) l →
    filter (λ i, not_null_strict g i = true) l = filter (λ i, occupied g i = true) l).
  { intros l Hl. apply filter_ext_in. intros x Hx. rewrite Forall_forall in Hl.
    rewrite not_null_strict_occupied_eq; [done|]. rewrite Hg. by apply Hl. }
  destruct m; cbn [group_sem].
  1: done.
  1-2: cbn [map]; rewrite !Hnns by (rewrite !Forall_cons, Forall_nil; lia); reflexivity.
  1-3: apply Permutation_refl'; cbn [map flat_map app]; repeat apply (f_equal2 cons); try reflexivity;
    apply filter_ext_in; intros i _;
    first [apply symbol_test_color|apply symbol_test_shape|apply symbol_test_both].
  rewrite (filter_ext_in _ (λ p, Forall (λ i, occupied g i = true) p))
    by (intros p Hp; by apply pair_occupied_Forall).
  by rewrite adjacent_pairs_perm.
Qed.

(** ** Group predicates *)

(** [arrayCount] whose condition returns on the members of the array. *)
Lemma arrayCount_pure_in {A} (condition : A → nat → result bool) p (a : list A) :
  (∀ x j, x ∈ a → condition x j = Ok (p x)) →
  arrayCount a condition = Ok (length (filter p a)).
Proof.
  intros Hc. unfold arrayCount.
  cut (∀ i count, arrayCount_loop condition a i count = Ok (count + length (filter p a)));
    [done|].
  induction a as [|x a IH]; intros i count; simpl; [by rewrite Nat.add_0_r|].
  rewrite Hc by set_solver. simpl. rewrite IH by (intros y j Hy; apply Hc; set_solver).
  rewrite filter_cons. destruct (p x); simpl; f_equal; lia.
Qed.

(** Distinct values, counted: no value occurs twice. *)
Lemma NoDup_fmap_count (v : nat → nat) (a : list nat) :
  NoDup (v <$> a) ↔ ∀ c, length (filter (λ i, v i = c) a) ≤ 1.
Proof.
  induction a as [|x a IH]; simpl.
  - split; [lia|constructor].
  - rewrite NoDup_cons, IH. split.
    + intros [Hnot Hnd] c. rewrite filter_cons. case_decide as Hx; [|done]. simpl.
      assert (filter (λ i, v i = c) a = []) as ->; [|simpl; lia].
      destruct (filter (λ i, v i = c) a) as [|j l] eqn:E; [done|exfalso].
      assert (Hj : j ∈ filter (λ i, v i = c) a) by (rewrite E; set_solver).
      apply list_elem_of_filter in Hj as [Hj Hja]. apply Hnot, list_elem_of_fmap.
      exists j. split; [congruence|done].
    + intros H. split.
      * intros (j & Hj & Hja)%list_elem_of_fmap. specialize (H (v x)).
        rewrite filter_cons_True in H by done. simpl in H.
        assert (j ∈ filter (λ i, v i = v x) a) by (apply list_elem_of_filter; split; [done|done]).
        destruct (filter (λ i, v i = v x) a); [set_solver|simpl in H; lia].
      * intros c. specialize (H c). rewrite filter_cons in H. case_decide; simpl in H; lia.
Qed.

Lemma filter_none {A} (P : A → Prop) `{∀ x, Decision (P x)} (l : list A) :
  (∀ x, x ∈ l → ¬ P x) → filter P l = [].
Proof.
  induction l as [|x l IH]; intros Hl; [done|].
  rewrite filter_cons_False by (apply Hl; set_solver). apply IH. set_solver.
Qed.

Section group_values.
Context (g : grid) (proj : grid → nat → result nat) (at_ : nat → option nat) (a : list nat).
(** On every cell of the group, the code's [g[i].color] returns the
    colour the spec reads, one of the three. *)
Hypothesis Hp : ∀ i, i ∈ a → ∃ c, c < 3 ∧ proj g i = Ok c ∧ at_ i = Some c.

Let v (i : nat) : nat := match proj g i with Ok c => c | Err _ => 0 end.

Lemma group_value i : i ∈ a → proj g i = Ok (v i) ∧ at_ i = Some (v i) ∧ v i < 3.
Proof. intros Hi. destruct (Hp i Hi) as (c & ? & Hc & ?). unfold v. by rewrite Hc. Qed.

(** [[0,1,2].some(c => a.every(i => g[i].color == c))] is "all the same". *)
Lemma all_same_sem : ∃ b, all_same proj g a = Ok b ∧ (b = true ↔ all_equal at_ a).
Proof.
  unfold all_same. rewrite (some_r_pure _ (λ c, forallb (λ i, bool_decide (v i = c)) a)); last first.
  { intros c _. apply (every_r_pure _ (λ i, bool_decide (v i = c))).
    intros i Hi. by rewrite (proj1 (group_value i Hi)). }
  eexists. split; [reflexivity|]. rewrite existsb_exists. split.
  - intros (c & _ & Hc) i j Hi Hj. rewrite forallb_forall in Hc.
    pose proof (Hc i (proj1 (list_elem_of_In _ _) Hi)) as Ei.
    pose proof (Hc j (proj1 (list_elem_of_In _ _) Hj)) as Ej.
    apply bool_decide_eq_true in Ei, Ej.
    rewrite (proj1 (proj2 (group_value i Hi))), (proj1 (proj2 (group_value j Hj))). congruence.
  - intros Heq. destruct (decide (a = [])) as [Ha|Ha].
    + exists 0. rewrite Ha. split; [by left|done].
    + assert (∃ i0, i0 ∈ a) as [i0 Hin] by (destruct a as [|x l]; [done|exists x; left]).
      exists (v i0). pose proof (group_value i0 Hin) as (_ & Hi0 & Hlt).
      split; [apply list_elem_of_In; destruct (v i0) as [|[|[|]]]; set_solver + || lia|].
      apply forallb_forall. intros i Hi%list_elem_of_In. apply bool_decide_eq_true.
      pose proof (group_value i Hi) as (_ & Hi' & _).
      specialize (Heq i i0 Hi Hin). congruence.
Qed.

(** [[0,1,2].every(c => arrayCount(a, i => g[i].color == c) <= 1)] is
    "all different". *)
Lemma all_different_sem : ∃ b, all_different proj g a = Ok b ∧ (b = true ↔ NoDup (at_ <$> a)).
Proof.
  assert (Hcount : ∀ c, arrayCount a (λ i _, (λ x, bool_decide (x = c)) <$> proj g i) =
                        Ok (length (filter (λ i, bool_decide (v i = c)) a))).
  { intros c. apply arrayCount_pure_in. intros i j Hi. by rewrite (proj1 (group_value i Hi)). }
  unfold all_different.
  rewrite (every_r_pure _ (λ c, bool_decide (length (filter (λ i, bool_decide (v i = c)) a) ≤ 1)));
    last first.
  { intros c _. by rewrite Hcount. }
  eexists. split; [reflexivity|].
  assert (Hmap : at_ <$> a = Some <$> (v <$> a)).
  { rewrite <- list_fmap_compose. apply list_fmap_ext. intros k i Hi.
    apply group_value. by eapply list_elem_of_lookup_2. }
  rewrite Hmap, NoDup_fmap, NoDup_fmap_count, forallb_forall. split.
  - intros H c. destruct (decide (c < 3)) as [Hc|Hc].
    + specialize (H c ltac:(apply list_elem_of_In; destruct c as [|[|[|]]]; set_solver + || lia)).
      apply bool_decide_eq_true in H. erewrite filter_ext_in; [exact H|]. intros i _.
      cbn beta; case_bool_decide; naive_solver.
    + rewrite filter_none; [simpl; lia|].
      intros i Hi. pose proof (group_value i Hi). lia.
  - intros H c _. apply bool_decide_eq_true. erewrite filter_ext_in; [apply (H c)|].
    intros i _. cbn beta; case_bool_decide; naive_solver.
  - intros x y [= ->]. done.
Qed.
End group_values.

(** [checkConnected(a)] decides "the cells form one 4-connected cluster". *)
Lemma checkConnected_sem a :
  (∀ i, i ∈ a → i < 9) →
  checkConnected a = true ↔ ∀ x y, x ∈ a → y ∈ a → linked a x y.
Proof.
  intros Ha. destruct a as [|c0 rest].
  - split; [intros _ x y Hx; by apply elem_of_nil in Hx|done].
  - rewrite checkConnected_correct. split.
    + intros H x y Hx Hy. apply linked_trans with c0.
      * apply linked_sym, reach_linked, H; done.
      * apply reach_linked, H; done.
    + intros H x Hx. apply reach_linked; [done|]. apply H; [set_solver|done].
Qed.

Lemma occupied_lt g i : occupied g i = true → i < length g.
Proof. unfold occupied. destruct (g !! i) eqn:E; [|done]. intros _. by eapply lookup_lt_Some. Qed.

(** Each group predicate closure decides the spec's property of a group of
    occupied cells. *)
Lemma match_groupPred_refines m g :
  length g = 9 → grid_ok g →
  refines FGroupPred g (λ x, match_groupPred m g x) (DGroupPred (groupPred_sem m g)).
Proof.
  intros Hg Hok a Hocc. unfold match_groupPred. cbn [as_array mbind result_bind].
  assert (Hc : ∀ i, i ∈ a → ∃ c, c < 3 ∧ cell_color g i = Ok c ∧ color_at g i = Some c).
  { intros i Hi. destruct (occupied_cell_color g i (Hocc i Hi)) as (s & Hs & Hcol).
    exists (color s). split; [apply (Hok i s Hs)|]. unfold color_at. by rewrite Hs. }
  assert (Hs : ∀ i, i ∈ a → ∃ c, c < 3 ∧ cell_shape g i = Ok c ∧ shape_at g i = Some c).
  { intros i Hi. destruct (occupied_cell_color g i (Hocc i Hi)) as (s & Hs & _).
    exists (shape s). split; [apply (Hok i s Hs)|]. unfold cell_shape, shape_at. by rewrite Hs. }
  destruct (all_same_sem g cell_color (color_at g) a Hc) as (bc & Ebc & Hbc).
  destruct (all_same_sem g cell_shape (shape_at g) a Hs) as (bs & Ebs & Hbs).
  destruct m; cbn [groupPred_sem den_groupPred].
  - rewrite Ebc. by exists bc.
  - destruct (all_different_sem g cell_color (color_at g) a Hc) as (b & -> & Hb). by exists b.
  - rewrite Ebs. by exists bs.
  - destruct (all_different_sem g cell_shape (shape_at g) a Hs) as (b & -> & Hb). by exists b.
  - rewrite Ebc. cbn [fmap result_fmap mbind result_bind]. destruct bc.
    + exists true. split; [done|]. split; [intros _; left; by apply Hbc|done].
    + rewrite Ebs. exists bs. split; [done|]. rewrite Hbs. split; [by right|].
      intros [H|H]; [by apply Hbc in H|done].
  - rewrite Ebc. cbn [fmap result_fmap mbind result_bind]. destruct bc.
    + rewrite Ebs. exists bs. split; [done|]. rewrite Hbs. split; [|by intros []].
      intros H. split; [by apply Hbc|done].
    + exists false. split; [done|]. split; [done|]. intros [H _]. by apply Hbc in H.
  - exists (checkConnected a). split; [done|]. apply checkConnected_sem.
    intros i Hi. rewrite <- Hg. by apply occupied_lt, Hocc.
Qed.

(** ** Every template, and every well-formed skeleton *)

(** Every template of the table computes the meaning of its alternative
    when its children compute theirs. *)
Lemma rawMatch_refines t e m g child ds attr :
  e ∈ ruleDict t → tmatch e = Some m → length g = 9 → grid_ok g →
  Forall3 (λ ct f d, refines ct g f d) (children_of e) child ds →
  refines t g (λ x, rawMatch (Some m) g x child attr) (matcher_sem m g attr ds).
Proof.
  intros He Hm Hg Hok Hc.
  destruct t; enum_table He; cbn [tmatch] in Hm; simplify_eq; cbn [children_of childTypes default] in Hc;
    repeat match goal with H : Forall3 _ _ _ _ |- _ => inv H end;
    cbn [rawMatch matcher_sem lookup list_lookup default].
  1-3: apply match_rule_noun_refines; auto.
  1: by apply match_rule_groups_refines.
  1-2: apply match_rule_line_refines; auto.
  1-5: apply match_noun_refines.
  1-4: by apply match_nounPred_plain_refines.
  1: by apply match_adjacent_refines.
  1-7: by apply match_group_refines.
  all: by apply match_groupPred_refines.
Qed.

(** Every well-formed skeleton of category [t] instantiates without error
    to a rule whose [match], on every 9-cell grid of valid symbols,
    computes the spec's meaning of the skeleton. *)
Theorem instantiate_refines t f :
  wf_frag t f = true →
  ∃ r, instantiateRule f = Ok r ∧
       ∀ g, length g = 9 → grid_ok g → refines t g (inst_match r g) (sem g f).
Proof.
  apply (instantiate_wf_ind (λ t f r, ∀ g, length g = 9 → grid_ok g →
                                     refines t g (inst_match r g) (sem g f))).
  intros t0 idx cs attr e kids s p He [m Hm] Hkids g Hg Hok.
  cbn [inst_match sem]. rewrite He. cbn [mbind option_bind]. rewrite Hm.
  apply (rawMatch_refines t0 e); [by eapply list_elem_of_lookup_2|done|done|done|].
  clear -Hkids Hg Hok. induction Hkids; cbn [map]; constructor; auto.
Qed.

(** C3: the closure tree computes what the rule says (spec section 4.1).
    Every well-formed rule skeleton instantiates without error, and on
    every 9-cell grid whose symbols have valid colours and shapes its
    [match] returns a boolean that is true exactly when the spec's reading
    of the rule holds: "every noun satisfying child-1 satisfies child-2",
    "some row's three cells all satisfy the noun", "every non-empty group
    satisfies the group predicate", with adjacency, grouping, colour
    comparison and connectivity read as the spec states them. *)
Theorem rule_match_meaning f :
  wf_frag FRule f = true →
  ∃ r, instantiateRule f = Ok r ∧
       ∀ g, length g = 9 → grid_ok g →
       ∃ b, inst_match r g AUndef = Ok (VBool b) ∧ (b = true ↔ den_rule (sem g f)).
Proof.
  intros Hwf. destruct (instantiate_refines FRule f Hwf) as (r & Hr & Hm).
  exists r. split; [done|]. intros g Hg Hok. exact (Hm g Hg Hok).
Qed.

(** The spec's round-trip example (section 8): a red square alone, and a
    yellow circle alone. *)
Definition red_square_grid : grid := Some (mkSymbol 0 2) :: replicate 8 None.
Definition yellow_circle_grid : grid := Some (mkSymbol 1 0) :: replicate 8 None.

Lemma single_symbol_ok s : color s < 3 → shape s < 3 → grid_ok (Some s :: replicate 8 None).
Proof.
  intros Hc Hs [|j] s' Hj; [by injection Hj as <-|].
  by apply lookup_replicate in Hj as [[=] _].
Qed.

(** "Every red symbol is a circle" is false on a red square alone and true
    on a grid with no red symbol, by the meaning of the rule. *)
Lemma rule_match_meaning_witness :
  ∃ r, instantiateRule every_red_is_circle = Ok r ∧
       inst_match r red_square_grid AUndef = Ok (VBool false) ∧
       inst_match r yellow_circle_grid AUndef = Ok (VBool true).
Proof.
  destruct (rule_match_meaning every_red_is_circle ltac:(reflexivity)) as (r & Hr & H).
  exists r. split; [done|].
  destruct (H red_square_grid ltac:(reflexivity) ltac:(apply single_symbol_ok; simpl; lia))
    as (b1 & Hb1 & Hiff1).
  destruct (H yellow_circle_grid ltac:(reflexivity) ltac:(apply single_symbol_ok; simpl; lia))
    as (b2 & Hb2 & Hiff2).
  rewrite Hb1, Hb2. split.
  - destruct b1; [|done]. exfalso. destruct Hiff1 as [Hsem _]. specialize (Hsem eq_refl).
    vm_compute in Hsem. specialize (Hsem 0 ltac:(lia) eq_refl). discriminate.
  - destruct b2; [done|]. exfalso. destruct Hiff2 as [_ Hsem]. apply diff_false_true, Hsem.
    vm_compute. intros i Hi Hred. exfalso.
    destruct i as [|[|[|[|[|[|[|[|[|i]]]]]]]]]; discriminate || lia.
Defined.
