(* ===== verification/Random.v ===== *)
(** * The random source [Math.random()]

    Every draw of the engine (src/js/zendo-prototype.js lines 265-269, 389,
    441, 799) appears in one of three expressions, which are the operations
    of the interface [RandomMonad]:
    - [Math.random() * w' > w]            ([random_gt w w'], line 389),
    - [Math.random() < p]                 ([random_lt p], line 268),
    - [Math.floor(Math.random() * n)]     ([random_index n], lines 265, 269,
      441, 799),
    together with [throw].  The generator and the samplers are written once
    against this interface, and the interface has two implementations:

    - [Sampler]: the draws are an explicit stream [rs : nat → Q] of values
      of [Math.random()], consumed in the order the code calls it; the
      structural theorems quantify over every stream of values in [0,1)
      (or in (0,1)).
    - [Dist]: a finite distribution of outcomes with rational weights, where
      each operation has the law of its expression when [Math.random()] is
      uniform on [0,1): [P(r·w' > w) = 1 - w/w'] for [0 ≤ w ≤ w'], [w' > 0];
      [P(r < p) = p] for [p ∈ [0,1]]; [floor(r·n)] uniform on [0..n-1].
      The fairness theorem of the weighted choice is stated there. *)

From Stdlib Require Import QArith Qround Lqa.
From S2P Require Import Prelude.
Close Scope Q_scope.

(** [x < y] on rationals, as a boolean. *)
Definition Qltb (x y : Q) : bool := negb (Qle_bool y x).

Lemma Qltb_iff x y : Qltb x y = true ↔ (x < y)%Q.
Proof.
  unfold Qltb. rewrite negb_true_iff. split.
  - intros H. apply Qnot_le_lt. intros Hle. apply Qle_bool_iff in Hle. congruence.
  - intros H. destruct (Qle_bool y x) eqn:E; [|done].
    apply Qle_bool_iff in E. exfalso. by apply (Qlt_not_le x y).
Qed.

Class RandomMonad (M : Type → Type) := {
  rand_ret {A} : A → M A;
  rand_bind {A B} : M A → (A → M B) → M B;
  rand_throw {A} : js_error → M A;
  random_gt : Q → Q → M bool;
  random_lt : Q → M bool;
  random_index : nat → M nat;
}.

#[export] Instance RandomMonad_ret `{RandomMonad M} : MRet M := λ A a, rand_ret a.
#[export] Instance RandomMonad_bind `{RandomMonad M} : MBind M := λ A B f m, rand_bind m f.

(** ** The stream semantics *)

(** A computation reads the stream of draws and the position of the next
    one, and returns its value and the new position, or an error. *)
Definition Sampler (A : Type) : Type := (nat → Q) → nat → result (A * nat).

(** [Math.floor(r * n)] for [r ≥ 0]. *)
Definition floor_index (r : Q) (n : nat) : nat := Z.to_nat (Qfloor (r * inject_Z (Z.of_nat n))).

#[export] Instance Sampler_random : RandomMonad Sampler := {|
  rand_ret A a := λ rs n, Ok (a, n);
  rand_bind A B m f := λ rs n,
    match m rs n with Ok (a, n') => f a rs n' | Err e => Err e end;
  rand_throw A e := λ _ _, Err e;
  random_gt w w' := λ rs n, Ok (Qltb w (rs n * w')%Q, S n);
  random_lt p := λ rs n, Ok (Qltb (rs n) p, S n);
  random_index k := λ rs n, Ok (floor_index (rs n) k, S n);
|}.

(** ** The distribution semantics *)

Definition Dist (A : Type) : Type := list (result A * Q).

Definition clamp01 (p : Q) : Q :=
  if Qltb p 0 then 0 else if Qltb 1 p then 1 else p.

(** The probability that [r * w' > w] for [r] uniform on [0,1). *)
Definition prob_gt (w w' : Q) : Q :=
  if Qltb 0 w' then clamp01 (1 - w / w')
  else if Qltb w' 0 then clamp01 (w / w')
  else if Qltb w 0 then 1 else 0.

Definition uniform_index (k : nat) : Dist nat :=
  match k with
  | 0 => [(Ok 0, 1%Q)]
  | _ => map (λ j, (Ok j, (1 / inject_Z (Z.of_nat k))%Q)) (seq 0 k)
  end.

#[export] Instance Dist_random : RandomMonad Dist := {|
  rand_ret A a := [(Ok a, 1%Q)];
  rand_bind A B d f :=
    flat_map (λ '(r, p),
      match r with
      | Ok a => map (λ '(r', p'), (r', (p * p')%Q)) (f a)
      | Err e => [(Err e, p)]
      end) d;
  rand_throw A e := [(Err e, 1%Q)];
  random_gt w w' := [(Ok true, prob_gt w w'); (Ok false, (1 - prob_gt w w')%Q)];
  random_lt p := [(Ok true, clamp01 p); (Ok false, (1 - clamp01 p)%Q)];
  random_index k := uniform_index k;
|}.

(** The probability of the outcomes satisfying [P]. *)
Definition mass {A} (P : result A → bool) (d : Dist A) : Q :=
  foldr (λ '(r, p) acc, ((if P r then p else 0) + acc)%Q) 0%Q d.

(** ** Lemmas on the stream semantics *)

Lemma sampler_bind_Ok {A B} (m : Sampler A) (f : A → Sampler B) rs n b n' :
  (x ← m; f x) rs n = Ok (b, n') ↔ ∃ a n1, m rs n = Ok (a, n1) ∧ f a rs n1 = Ok (b, n').
Proof.
  unfold mbind, RandomMonad_bind. simpl.
  destruct (m rs n) as [[a n1]|e]; split; naive_solver.
Qed.

Lemma sampler_bind_Err {A B} (m : Sampler A) (f : A → Sampler B) rs n e :
  m rs n = Err e → (x ← m; f x) rs n = Err e.
Proof. unfold mbind, RandomMonad_bind. simpl. by intros ->. Qed.

Lemma sampler_ret {A} (a : A) rs n : (mret a : Sampler A) rs n = Ok (a, n).
Proof. done. Qed.

(** [Math.floor(r * k)] is an index below [k] when [0 ≤ r < 1] and [k > 0]. *)
Lemma floor_index_lt r k : (0 <= r)%Q → (r < 1)%Q → 0 < k → floor_index r k < k.
Proof.
  intros H0 H1 Hk. unfold floor_index.
  assert (Hlt : (r * inject_Z (Z.of_nat k) < inject_Z (Z.of_nat k))%Q).
  { assert (0 < inject_Z (Z.of_nat k))%Q by (change 0%Q with (inject_Z 0); rewrite <- Zlt_Qlt; lia).
    nra. }
  pose proof (Qfloor_le (r * inject_Z (Z.of_nat k))) as Hf.
  assert (Hz : (Qfloor (r * inject_Z (Z.of_nat k)) < Z.of_nat k)%Z).
  { rewrite Zlt_Qlt. eapply Qle_lt_trans; [apply Hf|done]. }
  lia.
Qed.


Lemma sampler_bind_Err_inv {A B} (m : Sampler A) (f : A → Sampler B) rs n e :
  (x ← m; f x) rs n = Err e →
  m rs n = Err e ∨ ∃ a n1, m rs n = Ok (a, n1) ∧ f a rs n1 = Err e.
Proof.
  unfold mbind, RandomMonad_bind. simpl.
  destruct (m rs n) as [[a n1]|e']; [eauto|intros [= ->]; auto].
Qed.

(** A bind whose first computation has run. *)
Lemma sampler_bind_run {A B} (m : Sampler A) (f : A → Sampler B) rs n a n1 :
  m rs n = Ok (a, n1) → (x ← m; f x) rs n = f a rs n1.
Proof. unfold mbind, RandomMonad_bind. simpl. by intros ->. Qed.

(** The threshold [k/d] of [Math.random() < k/d] at its two ends. *)
Lemma Qltb_ratio_zero r d : (0 <= r)%Q → Qltb r (inject_Z 0 / d) = false.
Proof.
  intros Hr. destruct (Qltb _ _) eqn:E; [|done].
  apply Qltb_iff in E. unfold Qdiv in E. change (inject_Z 0) with 0%Q in E.
  rewrite Qmult_0_l in E. exfalso. lra.
Qed.

Lemma Qltb_ratio_one r k : (r < 1)%Q → (0 < k)%Z → Qltb r (inject_Z k / inject_Z k) = true.
Proof.
  intros Hr Hk. apply Qltb_iff. unfold Qdiv. rewrite Qmult_inv_r; [done|].
  intros Heq. change 0%Q with (inject_Z 0) in Heq. rewrite inject_Z_injective in Heq. lia.
Qed.

(** [Math.floor(r * n) = k] exactly when [k ≤ r·n < k+1]. *)
Lemma floor_index_eq r n k :
  (inject_Z (Z.of_nat k) <= r * inject_Z (Z.of_nat n) < inject_Z (Z.of_nat k) + 1)%Q →
  floor_index r n = k.
Proof.
  intros [Hlo Hhi]. unfold floor_index.
  pose proof (Qfloor_le (r * inject_Z (Z.of_nat n))) as Hf.
  pose proof (Qlt_floor (r * inject_Z (Z.of_nat n))) as Hf'.
  assert (Qfloor (r * inject_Z (Z.of_nat n)) < Z.of_nat k + 1)%Z.
  { rewrite Zlt_Qlt, inject_Z_plus. change (inject_Z 1) with 1%Q. lra. }
  assert (Z.of_nat k < Qfloor (r * inject_Z (Z.of_nat n)) + 1)%Z.
  { rewrite Zlt_Qlt, inject_Z_plus. rewrite ?inject_Z_plus in Hf'. change (inject_Z 1) with 1%Q in *. lra. }
  lia.
Qed.

(** The stream on which every draw is 1/2, for the witnesses. *)
Definition half_stream : nat → Q := λ _, Qmake 1 2.

Lemma half_stream_bounded k : (0 <= half_stream k)%Q ∧ (half_stream k < 1)%Q.
Proof. unfold half_stream. split; vm_compute; [intros H; discriminate H|reflexivity]. Qed.

(** A value of [result] in the monad: [Err e] is a throw. *)
Definition of_result `{RandomMonad M} {A} (r : result A) : M A :=
  match r with Ok a => mret a | Err e => rand_throw e end.

(** ** Lemmas on the distribution semantics *)

Lemma Qltb_false_le x y : (y <= x)%Q → Qltb x y = false.
Proof. intros H. destruct (Qltb x y) eqn:E; [apply Qltb_iff in E; lra|done]. Qed.

Lemma mass_app {A} (P : result A → bool) d1 d2 : (mass P (d1 ++ d2) == mass P d1 + mass P d2)%Q.
Proof.
  induction d1 as [|[r p] d1 IH]; simpl; [ring|]. rewrite IH. ring.
Qed.

Lemma mass_scale {A} (P : result A → bool) p (d : Dist A) :
  (mass P (map (λ '(r', p'), (r', (p * p')%Q)) d) == p * mass P d)%Q.
Proof.
  induction d as [|[r q] d IH]; simpl; [ring|]. rewrite IH. destruct (P r); ring.
Qed.

(** The probability of [P] after a bind: each outcome [Ok a] of the first
    computation, weighted by its probability, continues with [f a]. *)
Lemma mass_bind {A B} (P : result B → bool) (d : Dist A) (f : A → Dist B) :
  (mass P (x ← d; f x) ==
   foldr (λ '(r, p) acc,
            (p * match r with Ok a => mass P (f a) | Err e => if P (Err e) then 1 else 0 end
             + acc)%Q) 0%Q d)%Q.
Proof.
  induction d as [|[[a|e] p] d IH]; [done| |];
    cbn [mbind RandomMonad_bind rand_bind Dist_random flat_map foldr];
    rewrite mass_app, IH; [rewrite mass_scale; ring|].
  cbn [mass foldr]. destruct (P (Err e)); ring.
Qed.
