(* ===== verification/Generator.v ===== *)
(** * The weighted fragment generator [randomRuleFragmentOfType]

    src/js/zendo-prototype.js lines 361-445 and 490-493, written once
    against the [RandomMonad] interface (Random.v).

    - [select_loop] is the pass over the options (lines 368-397): options
      whose tags meet the active set, or without a [match], are skipped;
      every other option draws [Math.random() * newWeight > weight] and
      becomes the tentative choice when the test holds.
    - [gen_children] is the loop over [childTypes] (lines 420-438).  The JS
      [Set] of active tags is one object shared by the caller and all the
      callees that receive it, so its mutations are threaded explicitly: a
      call returns the set it leaves.  With [separateTags] the child gets a
      fresh set, holding [position] when the parent's set does at that point
      (after the parent's own tags were added), and its changes are lost.
    - [randomRuleFragmentOfType] recurses on [fuel], the remaining depth of
      the grammar; [rank] (Grammar.v) gives the depth each category needs (a rule holds
      a noun predicate, which may hold a noun), and Generator theorems show
      that with that depth the bound is never reached.

    The second half of the file proves the generator's properties in the
    [Sampler] semantics, for every stream [rs] of values of [Math.random()]
    in [0,1): what the options pass can choose, that the generated
    skeletons are well-formed, that the tag discipline holds at every node,
    that the recursion bound [rank] is never reached, that generation
    succeeds when every draw is in (0,1) but fails on a stream of zeros. *)

From Stdlib Require Import QArith Lqa.
From S2P Require Import Prelude Grid Grammar Eval Instantiate Typing Random.
Close Scope Q_scope.

Section generator.
Context `{RandomMonad M}.

(** [e.tags] meets the active set (lines 374-383). *)
Definition conflicts (tags : gset tag) (e : template) : bool :=
  existsb (λ t, bool_decide (t ∈ tags)) (tags_of e).

(** [e.match] is defined (line 386). *)
Definition has_match (e : template) : bool := bool_decide (is_Some (tmatch e)).

(** The options pass; [choice] and [weight] are the loop's variables. *)
Fixpoint select_loop (tags : gset tag) (opts : list (nat * template))
    (choice : option (nat * template)) (weight : Q) : M (option (nat * template)) :=
  match opts with
  | [] => mret choice
  | (i, e) :: rest =>
      if conflicts tags e then select_loop tags rest choice weight
      else if negb (has_match e) then select_loop tags rest choice weight
      else
        let newWeight := (weight + inject_Z (Z.of_nat (weight_of e)))%Q in
        b ← random_gt weight newWeight;
        select_loop tags rest (if (b : bool) then Some (i, e) else choice) newWeight
  end.

(** The options of a category with their indices. *)
Definition numbered {A} (l : list A) : list (nat * A) := imap pair l.

(** The fresh set of a [separateTags] child (lines 426-429): [position]
    is global. *)
Definition subtags (tags : gset tag) : gset tag :=
  if bool_decide (TPosition ∈ tags) then {[TPosition]} else ∅.

(** The loop over the chosen template's [childTypes]; [rec] generates one
    child. *)
Fixpoint gen_children (rec : fragType → gset tag → M (frag * gset tag))
    (separate : bool) (cts : list fragType) (tags : gset tag)
    : M (list frag * gset tag) :=
  match cts with
  | [] => mret ([], tags)
  | c :: cts' =>
      '(newChild, tags) ←
        (if separate then
             '(child, _) ← rec c (subtags tags); mret (child, tags)
         else rec c tags);
      '(rest, tags) ← gen_children rec separate cts' tags;
      mret (newChild :: rest, tags)
  end.

Fixpoint randomRuleFragmentOfType (fuel : nat) (fragType : fragType) (tags : gset tag)
    : M (frag * gset tag) :=
  match fuel with
  | 0 => rand_throw OutOfFuel
  | S fuel' =>
      choice ← select_loop tags (numbered (ruleDict fragType)) None 0%Q;
      match choice with
      | None => rand_throw (Error ("No valid choices for " +:+ fragType_name fragType))
      | Some (choiceIndex, e) =>
          let tags := tags ∪ list_to_set (tags_of e) in
          '(children, tags) ←
            gen_children (randomRuleFragmentOfType fuel') (separateTags e) (children_of e) tags;
          attr ← (match attribute e with
                  | Some l => random_index (length l)
                  | None => mret 0
                  end);
          mret (Frag fragType choiceIndex children attr, tags)
      end
  end.

(** [randomRule()]: generation from an empty tag set, then instantiation. *)
Definition randomRule : M inst :=
  '(data, _) ← randomRuleFragmentOfType (rank FRule) FRule ∅;
  match instantiateRule data with
  | Ok r => mret r
  | Err e => rand_throw e
  end.
End generator.

(** * Properties in the stream semantics *)

(** ** The tag discipline *)

(** The tags a fragment adds to the set it shares with its parent: its own
    template's tags and, unless its children have separate sets, theirs. *)
Fixpoint shared_tags (f : frag) : gset tag :=
  match f with
  | Frag t idx cs _ =>
      match ruleDict t !! idx with
      | Some e =>
          list_to_set (tags_of e) ∪
          (if separateTags e then ∅ else ⋃ (map shared_tags cs))
      | None => ∅
      end
  end.

(** [tag_ok T f]: [f] was chosen when the active set was [T], so no tag of
    its template is in [T]; its children were chosen with the set grown by
    the tags of the template and of the earlier siblings, or with the fresh
    [subtags] set when the template has [separateTags]. *)
Inductive tag_ok : gset tag → frag → Prop :=
  | tag_ok_node T t idx cs attr e :
      ruleDict t !! idx = Some e →
      (∀ tg, tg ∈ tags_of e → tg ∉ T) →
      children_tag_ok (separateTags e) (T ∪ list_to_set (tags_of e)) cs →
      tag_ok T (Frag t idx cs attr)
with children_tag_ok : bool → gset tag → list frag → Prop :=
  | ctag_nil sep T : children_tag_ok sep T []
  | ctag_shared T c cs :
      tag_ok T c → children_tag_ok false (T ∪ shared_tags c) cs →
      children_tag_ok false T (c :: cs)
  | ctag_separate T c cs :
      tag_ok (subtags T) c → children_tag_ok true T cs →
      children_tag_ok true T (c :: cs).

Lemma numbered_lookup {A} (l : list A) i x : (i, x) ∈ numbered l → l !! i = Some x.
Proof. unfold numbered. intros (j & y & [= -> ->] & Hl)%elem_of_lookup_imap. done. Qed.

Lemma conflicts_false tags e : conflicts tags e = false → ∀ tg, tg ∈ tags_of e → tg ∉ tags.
Proof.
  unfold conflicts. intros H tg Htg Hin.
  assert (existsb (λ t, bool_decide (t ∈ tags)) (tags_of e) = true) as Hc; [|congruence].
  apply existsb_exists. exists tg. split; [by apply list_elem_of_In|by apply bool_decide_eq_true].
Qed.

(** ** Which tag sets generation can end with *)

(** An option the pass can choose when the draws are below 1: eligible,
    with a [match] and a positive weight. *)
Definition candidate (tags : gset tag) (e : template) : Prop :=
  conflicts tags e = false ∧ has_match e = true ∧ 0 < weight_of e.

Definition candidateb (tags : gset tag) (e : template) : bool :=
  negb (conflicts tags e) && has_match e && bool_decide (0 < weight_of e).

(** The tag sets the children loop can leave, given those of one child
    ([ro]); [None] when some child may find no candidate. *)
Fixpoint children_outcomes (ro : fragType → gset tag → option (list (gset tag)))
    (sep : bool) (cts : list fragType) (T : gset tag) : option (list (gset tag)) :=
  match cts with
  | [] => Some [T]
  | c :: cts' =>
      if sep then _ ← ro c (subtags T); children_outcomes ro sep cts' T
      else
        ls ← ro c T;
        lss ← mapM (children_outcomes ro sep cts') ls;
        Some (mjoin lss)
  end.

(** An abstract run of [randomRuleFragmentOfType]: [Some l] when, whatever
    candidate each pass picks, a candidate exists at every node, and [l]
    lists the sets the run can leave. *)
Fixpoint outcomes (fuel : nat) (t : fragType) (T : gset tag) : option (list (gset tag)) :=
  match fuel with
  | 0 => None
  | S fuel' =>
      match filter (λ e, candidateb T e = true) (ruleDict t) with
      | [] => None
      | cands =>
          lss ← mapM (λ e, children_outcomes (outcomes fuel') (separateTags e) (children_of e)
                             (T ∪ list_to_set (tags_of e))) cands;
          Some (mjoin lss)
      end
  end.

Lemma candidateb_spec tags e : candidateb tags e = true ↔ candidate tags e.
Proof.
  unfold candidateb, candidate. rewrite !andb_true_iff, negb_true_iff, bool_decide_eq_true.
  naive_solver.
Qed.

Section sampler.
Context (rs : nat → Q).

Local Abbreviation select := (select_loop (M:=Sampler)).

(** One step of the pass: a skipped option draws nothing, an eligible one
    draws once. *)
Lemma select_loop_cons tags i e rest choice W n :
  select tags ((i, e) :: rest) choice W rs n =
  if conflicts tags e || negb (has_match e) then select tags rest choice W rs n
  else
    let W' := (W + inject_Z (Z.of_nat (weight_of e)))%Q in
    select tags rest (if Qltb W (rs n * W')%Q then Some (i, e) else choice) W' rs (S n).
Proof. simpl. by destruct (conflicts tags e), (has_match e). Qed.

Lemma select_loop_Ok tags opts choice W n :
  ∃ c n', select tags opts choice W rs n = Ok (c, n').
Proof.
  revert choice W n. induction opts as [|[i e] opts IH]; intros choice W n; [simpl; eauto|].
  rewrite select_loop_cons. by case_match.
Qed.

Section bounded.
Hypothesis Hrs : ∀ k, (0 <= rs k)%Q ∧ (rs k < 1)%Q.

(** The pass keeps the choice it starts with or picks a candidate. *)
Lemma select_loop_result tags opts choice W n c n' :
  (0 <= W)%Q → select tags opts choice W rs n = Ok (c, n') →
  c = choice ∨ ∃ i e, c = Some (i, e) ∧ (i, e) ∈ opts ∧ candidate tags e.
Proof.
  revert choice W n. induction opts as [|[i e] opts IH]; intros choice W n HW Hs.
  - injection Hs as <- _. by left.
  - rewrite select_loop_cons in Hs.
    destruct (conflicts tags e) eqn:Hc;
      [destruct (IH _ _ _ HW Hs) as [|(j&e'&->&?&?)]; eauto 10 with set_solver|].
    destruct (has_match e) eqn:Hm; simpl in Hs;
      [|destruct (IH _ _ _ HW Hs) as [|(j&e'&->&?&?)]; eauto 10 with set_solver].
    set (w := inject_Z (Z.of_nat (weight_of e))) in Hs.
    assert (Hw : (0 <= w)%Q) by (subst w; change 0%Q with (inject_Z 0); rewrite <- Zle_Qle; lia).
    assert (HW' : (0 <= W + w)%Q) by lra.
    destruct (IH _ _ _ HW' Hs) as [->|(j&e'&->&?&?)]; [|eauto 10 with set_solver].
    destruct (Qltb W (rs n * (W + w))) eqn:Hb; [|by left].
    right. exists i, e. split_and!; [done|set_solver|]. unfold candidate. split_and!; [done|done|].
    apply Qltb_iff in Hb. destruct (Hrs n).
    destruct (weight_of e) as [|k] eqn:Hk; [|lia].
    exfalso. subst w.
    change (inject_Z (Z.of_nat 0)) with 0%Q in Hb. nra.
Qed.
(** The children loop builds children of the listed categories, each
    chosen under the set the JS passes it. *)
Lemma gen_children_sound rec sep cts T n cs T' n' :
  (∀ c T n f T' n', c ∈ cts → rec c T rs n = Ok ((f, T'), n') →
     wf_frag c f = true ∧ tag_ok T f ∧ T' = T ∪ shared_tags f) →
  gen_children (M:=Sampler) rec sep cts T rs n = Ok ((cs, T'), n') →
  wf_children wf_frag cts cs = true ∧ children_tag_ok sep T cs ∧
  T' = T ∪ (if sep then ∅ else ⋃ (map shared_tags cs)).
Proof.
  revert T n cs T' n'. induction cts as [|c cts IH]; intros T n cs T' n' Hrec Hg.
  - injection Hg as <- <- _. split_and!; [done|constructor|destruct sep; set_solver].
  - apply sampler_bind_Ok in Hg as ([c' T1] & n1 & Hc & Hg).
    apply sampler_bind_Ok in Hg as ([cs' T2] & n2 & Hcs & Hg).
    injection Hg as <- <- _.
    assert (IH' := IH T1 n1 cs' T2 n2). clear IH.
    destruct sep.
    + apply sampler_bind_Ok in Hc as ([f Tf] & n3 & Hf & Hc). injection Hc as <- <- <-.
      destruct (Hrec c _ _ _ _ _ ltac:(set_solver) Hf) as (Hwf & Hok & _).
      destruct IH' as (Hwfs & Hoks & ->); [intros; eapply Hrec; [set_solver|done]|done|].
      simpl. rewrite Hwf, Hwfs. split_and!; [done|by constructor|set_solver].
    + destruct (Hrec c _ _ _ _ _ ltac:(set_solver) Hc) as (Hwf & Hok & ->).
      destruct IH' as (Hwfs & Hoks & ->); [intros; eapply Hrec; [set_solver|done]|done|].
      simpl. rewrite Hwf, Hwfs. split_and!; [done|by constructor|set_solver].
Qed.

(** Every skeleton the generator returns is well-formed, respects the
    tag discipline at every node, and the set it leaves is the set it
    was given grown by the fragment's shared tags. *)
Theorem gen_sound fuel t T n f T' n' :
  randomRuleFragmentOfType (M:=Sampler) fuel t T rs n = Ok ((f, T'), n') →
  wf_frag t f = true ∧ tag_ok T f ∧ T' = T ∪ shared_tags f.
Proof.
  revert t T n f T' n'. induction fuel as [|fuel IH]; intros t T n f T' n' Hg; [done|].
  apply sampler_bind_Ok in Hg as (c & n1 & Hs & Hg).
  destruct (select_loop_result _ _ _ _ _ _ _ (Qle_refl 0) Hs)
    as [-> | (i & e & -> & Hin & Hc & Hm & Hw)]; [done|].
  apply numbered_lookup in Hin.
  apply sampler_bind_Ok in Hg as ([cs T2] & n2 & Hcs & Hg).
  apply sampler_bind_Ok in Hg as (attr & n3 & Ha & Hg). injection Hg as <- <- _.
  destruct (gen_children_sound _ _ _ _ _ _ _ _ (λ c T n f T' n' _ H, IH c T n f T' n' H) Hcs)
    as (Hwfc & Hokc & ->).
  split_and!.
  - simpl. rewrite bool_decide_eq_true_2, Hin, Hwfc by done. simpl.
    unfold has_match in Hm. rewrite Hm. simpl. unfold attr_ok.
    destruct (attribute e) as [l|] eqn:Hattr; simpl in Ha.
    + injection Ha as <- _. apply bool_decide_eq_true.
      pose proof (ruleDict_attribute_length t e l ltac:(by eapply list_elem_of_lookup_2) Hattr).
      destruct (Hrs n2). apply floor_index_lt; [done|done|lia].
    + injection Ha as <- _. by apply bool_decide_eq_true.
  - econstructor; [done| |done]. by apply conflicts_false.
  - simpl. rewrite Hin. set_solver.
Qed.
Lemma gen_children_no_fuel_err rec sep cts T n :
  (∀ c T n, c ∈ cts → rec c T rs n ≠ Err OutOfFuel) →
  gen_children (M:=Sampler) rec sep cts T rs n ≠ Err OutOfFuel.
Proof.
  revert T n. induction cts as [|c cts IH]; intros T n Hrec H; [done|].
  apply sampler_bind_Err_inv in H as [H|([c' T1] & n1 & _ & H)].
  - destruct sep.
    + apply sampler_bind_Err_inv in H as [H|([f Tf] & n3 & _ & H)]; [|done].
      by apply (Hrec c (subtags T) n); [set_solver|].
    + by apply (Hrec c T n); [set_solver|].
  - apply sampler_bind_Err_inv in H as [H|([cs' T2] & n2 & _ & H)]; [|done].
    revert H. apply IH. intros c0 T0 n0 Hc0. apply Hrec. set_solver.
Qed.

(** C21: termination.  The recursion of the generator never goes deeper
    than [rank t] (the grammar is acyclic): with that bound, from any
    category and any active set, it never reports [OutOfFuel]. *)
Theorem gen_terminates fuel t T n :
  rank t ≤ fuel → randomRuleFragmentOfType (M:=Sampler) fuel t T rs n ≠ Err OutOfFuel.
Proof.
  revert t T n. induction fuel as [|fuel IH]; intros t T n Hr H; [destruct t; simpl in Hr; lia|].
  apply sampler_bind_Err_inv in H as [H|(c & n1 & Hs & H)].
  { destruct (select_loop_Ok T (numbered (ruleDict t)) None 0%Q n) as (c & n' & Hs).
    congruence. }
  destruct (select_loop_result _ _ _ _ _ _ _ (Qle_refl 0) Hs)
    as [-> | (i & e & -> & Hin & _)]; [done|].
  apply numbered_lookup, list_elem_of_lookup_2 in Hin.
  apply sampler_bind_Err_inv in H as [H|([cs T2] & n2 & _ & H)].
  - revert H. apply gen_children_no_fuel_err. intros c T0 n0 Hc. apply IH.
    pose proof (ruleDict_children_rank t e c Hin Hc). lia.
  - apply sampler_bind_Err_inv in H as [H|(attr & n3 & _ & H)]; [|done].
    by destruct (attribute e).
Qed.
End bounded.

Section positive.
Hypothesis Hrs : ∀ k, (0 < rs k)%Q ∧ (rs k < 1)%Q.

Lemma weight_Q_nonneg e : (0 <= inject_Z (Z.of_nat (weight_of e)))%Q.
Proof. change 0%Q with (inject_Z 0). rewrite <- Zle_Qle. lia. Qed.

(** With every draw in (0,1), the first candidate of the pass is always
    accepted, so the pass ends with a choice as soon as there is one. *)
Lemma select_loop_some tags opts choice W n :
  (0 <= W)%Q → (choice = None → W == 0)%Q →
  is_Some choice ∨ (∃ i e, (i, e) ∈ opts ∧ candidate tags e) →
  ∃ c n', select tags opts choice W rs n = Ok (Some c, n').
Proof.
  revert choice W n. induction opts as [|[i e] opts IH]; intros choice W n HW H0 Hc.
  - destruct Hc as [[c ->]|(? & ? & Hin & _)]; [simpl; eauto|set_solver].
  - rewrite select_loop_cons.
    destruct (conflicts tags e || negb (has_match e)) eqn:Hskip.
    { apply IH; [done|done|]. destruct Hc as [|(j & e' & [[= -> ->]|Hin]%elem_of_cons & Hce)];
        [by left| |eauto].
      destruct Hce as (Hc1 & Hc2 & _). rewrite Hc1, Hc2 in Hskip. done. }
    pose proof (weight_Q_nonneg e) as Hw. destruct (Hrs n) as [Hr0 Hr1].
    simpl. apply IH; [lra| |].
    + destruct (Qltb W _) eqn:Hb; [done|]. intros Hch. specialize (H0 Hch).
      assert (Hle : ¬ (W < rs n * (W + inject_Z (Z.of_nat (weight_of e))))%Q)
        by (rewrite <- Qltb_iff; by rewrite Hb).
      nra.
    + destruct (Qltb W _) eqn:Hb; [left; by eexists|].
      destruct Hc as [|(j & e' & [[= -> ->]|Hin]%elem_of_cons & Hce)]; [by left| |eauto].
      destruct choice; [left; by eexists|]. exfalso.
      specialize (H0 eq_refl). destruct Hce as (_ & _ & Hpos).
      assert (Hle : ¬ (W < rs n * (W + inject_Z (Z.of_nat (weight_of e))))%Q)
        by (rewrite <- Qltb_iff; by rewrite Hb).
      assert (Hwp : (0 < inject_Z (Z.of_nat (weight_of e)))%Q)
        by (change 0%Q with (inject_Z 0); rewrite <- Zlt_Qlt; lia).
      nra.
Qed.

Lemma pos_bounded k : (0 <= rs k)%Q ∧ (rs k < 1)%Q.
Proof. destruct (Hrs k). split; [lra|done]. Qed.

Lemma children_outcomes_sound rec ro sep cts T l n :
  (∀ c T l n, c ∈ cts → ro c T = Some l →
     ∃ f T' n', rec c T rs n = Ok ((f, T'), n') ∧ T' ∈ l) →
  children_outcomes ro sep cts T = Some l →
  ∃ cs T' n', gen_children (M:=Sampler) rec sep cts T rs n = Ok ((cs, T'), n') ∧ T' ∈ l.
Proof.
  revert T l n. induction cts as [|c cts IH]; intros T l n Hrec Ho; simpl in Ho.
  - injection Ho as <-. exists [], T, n. split; [done|set_solver].
  - assert (IH' : ∀ T l n, children_outcomes ro sep cts T = Some l →
      ∃ cs T' n', gen_children (M:=Sampler) rec sep cts T rs n = Ok ((cs, T'), n') ∧ T' ∈ l)
      by (intros; apply IH; [intros; apply Hrec; [set_solver|]|]; done).
    destruct sep.
    + destruct (ro c (subtags T)) as [lc|] eqn:Hc; simpl in Ho; [|done].
      destruct (Hrec c _ _ n ltac:(set_solver) Hc) as (f & Tf & n1 & Hf & _).
      destruct (IH' T l n1 Ho) as (cs & T' & n2 & Hcs & HT').
      exists (f :: cs), T', n2. split; [|done]. cbn [gen_children].
      apply sampler_bind_Ok. exists (f, T), n1. split.
      { apply sampler_bind_Ok. by exists (f, Tf), n1. }
      apply sampler_bind_Ok. by exists (cs, T'), n2.
    + destruct (ro c T) as [lc|] eqn:Hc; simpl in Ho; [|done].
      destruct (mapM _ lc) as [lss|] eqn:Hm; simpl in Ho; [|done]. injection Ho as <-.
      destruct (Hrec c _ _ n ltac:(set_solver) Hc) as (f & T1 & n1 & Hf & HT1).
      destruct (mapM_elem _ _ _ _ Hm HT1) as (l1 & Hl1 & Hin).
      destruct (IH' T1 l1 n1 Hl1) as (cs & T' & n2 & Hcs & HT').
      exists (f :: cs), T', n2. split; [|apply list_elem_of_join; eauto].
      cbn [gen_children]. apply sampler_bind_Ok. exists (f, T1), n1. split; [done|].
      apply sampler_bind_Ok. by exists (cs, T'), n2.
Qed.

(** Soundness of the abstract run: when it succeeds, the generator run
    on the stream succeeds, and leaves one of the sets it lists. *)
Lemma outcomes_sound fuel t T l n :
  outcomes fuel t T = Some l →
  ∃ f T' n', randomRuleFragmentOfType (M:=Sampler) fuel t T rs n = Ok ((f, T'), n') ∧ T' ∈ l.
Proof.
  revert t T l n. induction fuel as [|fuel IH]; intros t T l n Ho; [done|].
  cbn [outcomes] in Ho.
  destruct (filter _ (ruleDict t)) as [|e0 cands] eqn:Hf; [done|].
  destruct (mapM _ _) as [lss|] eqn:Hm; simpl in Ho; [|done]. injection Ho as <-.
  rewrite <- Hf in Hm.
  assert (He0 : e0 ∈ filter (λ e, candidateb T e = true) (ruleDict t))
    by (rewrite Hf; set_solver).
  apply list_elem_of_filter in He0 as [Hc0 He0].
  apply list_elem_of_lookup_1 in He0 as [i0 Hi0].
  destruct (select_loop_some T (numbered (ruleDict t)) None 0%Q n (Qle_refl 0) (λ _, Qeq_refl 0))
    as ([i e] & n1 & Hs).
  { right. exists i0, e0. split; [|by apply candidateb_spec].
    apply elem_of_lookup_imap. eauto. }
  destruct (select_loop_result pos_bounded _ _ _ _ _ _ _ (Qle_refl 0) Hs)
    as [[=]|(j & e' & [= <- <-] & Hin & Hc)].
  apply numbered_lookup in Hin.
  destruct (mapM_elem _ _ _ e Hm) as (le & Hle & Hlss).
  { apply list_elem_of_filter. split; [by apply candidateb_spec|by eapply list_elem_of_lookup_2]. }
  destruct (children_outcomes_sound _ _ _ _ _ _ n1 (λ c T l n _ H, IH c T l n H) Hle)
    as (cs & T' & n2 & Hcs & HT').
  destruct (attribute e) as [ats|] eqn:Ha;
    [exists (Frag t i cs (floor_index (rs n2) (length ats))), T', (S n2)
    |exists (Frag t i cs 0), T', n2];
    (split; [|apply list_elem_of_join; eauto]);
    cbn [randomRuleFragmentOfType]; apply sampler_bind_Ok; exists (Some (i, e)), n1;
    (split; [done|]); apply sampler_bind_Ok; exists (cs, T'), n2; (split; [done|]);
    apply sampler_bind_Ok; rewrite Ha; eauto.
Qed.
End positive.
End sampler.

(** The pass reads only the draws of its eligible options, which are among
    the next [length opts] values of the stream. *)
Lemma select_loop_ext rs rs' tags opts choice W n :
  (∀ k, n ≤ k < n + length opts → rs k = rs' k) →
  select_loop (M:=Sampler) tags opts choice W rs n = select_loop (M:=Sampler) tags opts choice W rs' n.
Proof.
  revert choice W n. induction opts as [|[i e] opts IH]; intros choice W n H; [done|].
  rewrite !select_loop_cons. simpl in H. case_match.
  - apply IH. intros k Hk. apply H. lia.
  - rewrite H by lia. apply IH. intros k Hk. apply H. lia.
Qed.

(** The abstract run of a whole rule succeeds: whatever the passes pick,
    every node of the rule has a candidate. *)
Lemma outcomes_rule : is_Some (outcomes (rank FRule) FRule ∅).
Proof. vm_compute. by eexists. Qed.

(** A rule returned by [randomRule()] on draws in [0,1) is well typed. *)
Lemma randomRule_typed rs n r n' :
  (∀ k, (0 <= rs k)%Q ∧ (rs k < 1)%Q) →
  randomRule (M:=Sampler) rs n = Ok (r, n') → has_type FRule r.
Proof.
  intros Hrs Hrun. apply sampler_bind_Ok in Hrun as ([f T'] & n1 & Hg & Hi).
  destruct (gen_sound rs Hrs _ _ _ _ _ _ _ Hg) as (Hwf & _ & _).
  destruct (instantiate_wf_typed _ _ Hwf) as (r' & Hr' & Ht).
  simpl in Hi. rewrite Hr' in Hi. by injection Hi as <- _.
Qed.

(** On draws in (0,1), [randomRule()] returns a well-typed rule. *)
Lemma randomRule_ok rs n :
  (∀ k, (0 < rs k)%Q ∧ (rs k < 1)%Q) →
  ∃ r n', randomRule (M:=Sampler) rs n = Ok (r, n') ∧ has_type FRule r.
Proof.
  intros Hrs. destruct outcomes_rule as [l Hl].
  destruct (outcomes_sound rs Hrs _ _ _ _ n Hl) as (f & T' & n1 & Hg & _).
  destruct (gen_sound rs (pos_bounded rs Hrs) _ _ _ _ _ _ _ Hg) as (Hwf & _ & _).
  destruct (instantiate_wf_typed _ _ Hwf) as (r & Hr & Ht).
  exists r, n1. split; [|exact Ht].
  apply sampler_bind_Ok. exists (f, T'), n1. split; [done|]. simpl. by rewrite Hr.
Qed.

(** C1: generation and evaluation are total.  When every draw of
    [Math.random()] is in (0,1), [randomRule()] returns a rule (no "No
    valid choices" error, no "Rule template not found", no recursion
    limit), and that rule's [match] returns a boolean, without a
    TypeError, on every 9-cell grid. *)
Theorem randomRule_total rs n :
  (∀ k, (0 < rs k)%Q ∧ (rs k < 1)%Q) →
  ∃ r n', randomRule (M:=Sampler) rs n = Ok (r, n') ∧
          ∀ g, length g = 9 → ∃ b, inst_match r g AUndef = Ok (VBool b).
Proof. intros Hrs. destruct (randomRule_ok rs n Hrs) as (r & n' & Hrun & Ht). eauto. Qed.

(** C23: the comparison [Math.random() * newWeight > weight] (line 391) is
    strict, and [Math.random()] may return 0: on a stream whose first draws
    are 0, no option of the rule pass is ever accepted and [randomRule()]
    throws "No valid choices for rule", although every rule template is
    eligible with a positive weight. *)
Theorem randomRule_zero_draws rs :
  (∀ k, k < length (ruleDict FRule) → rs k = 0%Q) →
  randomRule (M:=Sampler) rs 0 = Err (Error "No valid choices for rule").
Proof.
  intros H. unfold randomRule. apply sampler_bind_Err.
  cbn [randomRuleFragmentOfType rank]. unfold mbind at 1, RandomMonad_bind; cbn [rand_bind Sampler_random].
  rewrite (select_loop_ext rs (λ _, 0%Q)); [by vm_compute|].
  intros k Hk. apply H. unfold numbered in Hk. rewrite length_imap in Hk. lia.
Qed.

(** C4: the skeleton built by [randomRuleFragmentOfType("rule")] from the
    default empty set, on any stream of draws in [0,1), is well-formed (it
    names templates with a [match], children of the listed categories and
    attribute indices in range), obeys the tag discipline at every node,
    and the shared set is left holding exactly its shared tags. *)
Theorem randomRule_skeleton_sound rs n f T' n' :
  (∀ k, (0 <= rs k)%Q ∧ (rs k < 1)%Q) →
  randomRuleFragmentOfType (M:=Sampler) (rank FRule) FRule ∅ rs n = Ok ((f, T'), n') →
  wf_frag FRule f = true ∧ tag_ok ∅ f ∧ T' = shared_tags f.
Proof.
  intros Hrs Hg. destruct (gen_sound rs Hrs _ _ _ _ _ _ _ Hg) as (? & ? & ->).
  split_and!; [done|done|set_solver].
Qed.

(** ** Witnesses *)


Lemma randomRule_total_witness :
  ∃ r n', randomRule (M:=Sampler) half_stream 0 = Ok (r, n') ∧
          ∀ g, length g = 9 → ∃ b, inst_match r g AUndef = Ok (VBool b).
Proof. apply (randomRule_total half_stream 0). intros k. split; vm_compute; reflexivity. Defined.

Lemma randomRule_skeleton_sound_witness :
  let f := Frag FRule 0 [Frag FNoun 0 [] 1; Frag FNounPred 1 [] 1] 0 in
  wf_frag FRule f = true ∧ tag_ok ∅ f ∧ {[TColor; TShape]} = shared_tags f.
Proof.
  apply (randomRule_skeleton_sound half_stream 0 _ _ 17).
  - intros k. split; vm_compute; [intros H; discriminate H|reflexivity].
  - vm_compute. reflexivity.
Defined.

Lemma gen_terminates_witness :
  randomRuleFragmentOfType (M:=Sampler) 3 FRule ∅ half_stream 0 ≠ Err OutOfFuel.
Proof.
  apply (gen_terminates half_stream).
  - intros k. split; vm_compute; [intros H; discriminate H|reflexivity].
  - simpl. lia.
Defined.

Lemma randomRule_zero_draws_witness :
  randomRule (M:=Sampler) (λ _, 0%Q) 0 = Err (Error "No valid choices for rule").
Proof. apply (randomRule_zero_draws (λ _, 0%Q)). intros k _. reflexivity. Defined.
