(* ===== verification/Fairness.v ===== *)
(** * Fairness of the one-pass weighted choice

    The spec (section 4.2, step 2) promises that the single pass of
    [randomRuleFragmentOfType] (lines 370-397) selects each eligible
    alternative [k] with probability [w_k / Σ w_eligible].  This file runs
    the pass [select_loop] (Generator.v) in the distribution semantics
    [Dist] of Random.v, where [Math.random()*W' > W] holds with probability
    [1 - W/W'], and proves that promise exactly, with rational
    probabilities, by an invariant of the pass: after any prefix, the
    tentative choice is each option seen so far with probability
    proportional to its weight. *)

From Stdlib Require Import QArith Lqa.
From S2P Require Import Prelude Grammar Random Generator.
Close Scope Q_scope.

(** An option the pass considers: its tags are free and it has a [match]. *)
Definition eligible (tags : gset tag) (e : template) : bool :=
  negb (conflicts tags e) && has_match e.

Definition weight_Q (e : template) : Q := inject_Z (Z.of_nat (weight_of e)).

(** The sum of the eligible weights: the running weight at the end. *)
Fixpoint total_weight (tags : gset tag) (opts : list (nat * template)) : Q :=
  match opts with
  | [] => 0
  | (_, e) :: rest => ((if eligible tags e then weight_Q e else 0) + total_weight tags rest)%Q
  end.

(** The eligible weight carried by index [i]. *)
Fixpoint index_weight (tags : gset tag) (i : nat) (opts : list (nat * template)) : Q :=
  match opts with
  | [] => 0
  | (j, e) :: rest =>
      ((if eligible tags e && bool_decide (j = i) then weight_Q e else 0) + index_weight tags i rest)%Q
  end.

(** The outcome "the pass returns option [i]". *)
Definition chosen (i : nat) (r : result (option (nat * template))) : bool :=
  match r with Ok (Some (j, _)) => bool_decide (j = i) | _ => false end.

Definition is_index (i : nat) (c : option (nat * template)) : bool :=
  match c with Some (j, _) => bool_decide (j = i) | None => false end.

(** ** The distribution semantics, step by step *)

Lemma select_loop_cons_gen `{RandomMonad M} tags i e rest choice W :
  select_loop tags ((i, e) :: rest) choice W =
  if eligible tags e then
    let W' := (W + weight_Q e)%Q in
    b ← random_gt W W';
    select_loop tags rest (if (b : bool) then Some (i, e) else choice) W'
  else select_loop tags rest choice W.
Proof. unfold eligible, weight_Q. simpl. by destruct (conflicts tags e), (has_match e). Qed.

(** The probability of [r·W' > W] times [W'] is the weight added. *)
Lemma prob_gt_pos W W' :
  (0 <= W → W <= W' → 0 < W' → prob_gt W W' * W' == W' - W)%Q.
Proof.
  intros H0 H1 H2. unfold prob_gt. rewrite (proj2 (Qltb_iff 0 W')) by done.
  assert (Hlo : (0 <= W / W')%Q) by (apply Qle_shift_div_l; lra).
  assert (Hhi : (W / W' <= 1)%Q) by (apply Qle_shift_div_r; lra).
  unfold clamp01. destruct (Qltb (1 - W / W') 0) eqn:E1; [apply Qltb_iff in E1; lra|].
  destruct (Qltb 1 (1 - W / W')) eqn:E2; [apply Qltb_iff in E2; lra|].
  field. lra.
Qed.

Lemma prob_gt_zero W W' : (W == 0 → W' == 0 → prob_gt W W' == 0)%Q.
Proof.
  intros H0 H1. unfold prob_gt.
  rewrite !Qltb_false_le by lra. reflexivity.
Qed.

Lemma weight_Q_nonneg' e : (0 <= weight_Q e)%Q.
Proof. unfold weight_Q. change 0%Q with (inject_Z 0). rewrite <- Zle_Qle. lia. Qed.

(** The invariant of the pass: from the tentative [choice] with running
    weight [W], option [i] ends up chosen with probability
    [([choice = i]·W + weight of i) / (W + remaining eligible weight)]. *)
Lemma select_loop_mass tags i opts choice W :
  (0 <= W)%Q →
  (mass (chosen i) (select_loop (M:=Dist) tags opts choice W) * (W + total_weight tags opts) ==
   (if is_index i choice then W else 0) + index_weight tags i opts)%Q.
Proof.
  revert choice W. induction opts as [|[j e] opts IH]; intros choice W HW.
  - cbn [select_loop total_weight index_weight mass mret RandomMonad_ret rand_ret Dist_random].
    unfold mass. destruct choice as [[k e]|]; cbn [foldr chosen is_index]; [case_bool_decide|]; ring.
  - rewrite select_loop_cons_gen. cbn [total_weight index_weight].
    destruct (eligible tags e) eqn:He; cbn [andb]; last first.
    { rewrite !Qplus_0_l. by apply IH. }
    pose proof (weight_Q_nonneg' e) as Hw.
    set (W' := (W + weight_Q e)%Q).
    set (p := prob_gt W W').
    pose proof (IH (Some (j, e)) W' ltac:(subst W'; lra)) as IH1.
    pose proof (IH choice W' ltac:(subst W'; lra)) as IH2.
    set (m1 := mass (chosen i) (select_loop (M:=Dist) tags opts (Some (j, e)) W')) in *.
    set (m2 := mass (chosen i) (select_loop (M:=Dist) tags opts choice W')) in *.
    assert (Hmass : (mass (chosen i) (b ← random_gt (M:=Dist) W W';
                       select_loop (M:=Dist) tags opts (if (b : bool) then Some (j, e) else choice) W') ==
                     p * m1 + (1 - p) * m2)%Q).
    { cbn [mbind RandomMonad_bind rand_bind Dist_random random_gt flat_map].
      rewrite app_nil_r, mass_app, !mass_scale. reflexivity. }
    rewrite Hmass.
    set (T := total_weight tags opts) in *.
    set (S := index_weight tags i opts) in *.
    assert (Hsplit : ((p * m1 + (1 - p) * m2) * (W + (weight_Q e + T)) ==
                      p * (m1 * (W' + T)) + (1 - p) * (m2 * (W' + T)))%Q) by (subst W'; ring).
    rewrite Hsplit, IH1, IH2. cbn [is_index].
    destruct (Qlt_le_dec 0 W') as [Hpos|Hz].
    + pose proof (prob_gt_pos W W' HW ltac:(subst W'; lra) Hpos) as Hp. fold p in Hp.
      destruct (is_index i choice), (bool_decide (j = i)); subst W'; lra.
    + assert (HW0 : (W == 0)%Q) by (subst W'; lra).
      assert (Hw0 : (weight_Q e == 0)%Q) by (subst W'; lra).
      pose proof (prob_gt_zero W W' HW0 ltac:(subst W'; lra)) as Hp. fold p in Hp.
      rewrite Hp. destruct (is_index i choice), (bool_decide (j = i)); subst W'; lra.
Qed.

(** ** The options of a category are numbered without repetition *)

Lemma numbered_fst {A} (l : list A) : fst <$> numbered l = seq 0 (length l).
Proof.
  unfold numbered. rewrite fmap_imap, (imap_ext _ (λ j _, id j)) by done.
  rewrite imap_seq_0. apply list_fmap_id.
Qed.

Lemma index_weight_absent tags i opts :
  i ∉ fst <$> opts → (index_weight tags i opts == 0)%Q.
Proof.
  induction opts as [|[j e] opts IH]; intros Hi; cbn [index_weight]; [reflexivity|].
  rewrite IH by set_solver. rewrite bool_decide_eq_false_2 by set_solver.
  rewrite andb_false_r. reflexivity.
Qed.

Lemma index_weight_unique tags i e opts :
  NoDup (fst <$> opts) → (i, e) ∈ opts →
  (index_weight tags i opts == if eligible tags e then weight_Q e else 0)%Q.
Proof.
  induction opts as [|[j e'] opts IH]; intros Hnd Hin; [set_solver|].
  cbn [index_weight]. rewrite fmap_cons in Hnd. apply NoDup_cons in Hnd as [Hj Hnd].
  apply elem_of_cons in Hin as [[= -> ->]|Hin].
  - rewrite index_weight_absent by done. rewrite bool_decide_eq_true_2, andb_true_r by done. ring.
  - assert (j ≠ i) by (intros ->; apply Hj, list_elem_of_fmap; by exists (i, e)).
    rewrite bool_decide_eq_false_2, andb_false_r by done. rewrite IH by done. ring.
Qed.

(** C5: the spec's fairness of the weighted choice (section 4.2,
    step 2).  When some eligible alternative of category [t] has a positive
    weight, the single pass chooses alternative [i] with probability its
    weight divided by the total eligible weight, and ineligible ones with
    probability 0; the tentative choice of every earlier pass position is
    overwritten with exactly the right probability [w/W']. *)
Theorem select_fair tags t i e :
  ruleDict t !! i = Some e → (0 < total_weight tags (numbered (ruleDict t)))%Q →
  (mass (chosen i) (select_loop (M:=Dist) tags (numbered (ruleDict t)) None 0) ==
   (if eligible tags e then weight_Q e else 0) / total_weight tags (numbered (ruleDict t)))%Q.
Proof.
  intros He HT. set (T := total_weight tags (numbered (ruleDict t))) in *.
  pose proof (select_loop_mass tags i (numbered (ruleDict t)) None 0 (Qle_refl 0)) as Hinv.
  fold T in Hinv. cbn [is_index] in Hinv.
  rewrite (index_weight_unique tags i e) in Hinv.
  - set (m := mass _ _) in *.
    assert (Hm : (m == (m * (0 + T)) / T)%Q) by (field; lra).
    rewrite Hm, Hinv. field. lra.
  - rewrite numbered_fst. apply NoDup_seq.
  - apply elem_of_lookup_imap. eauto.
Qed.

Lemma select_fair_witness :
  ∃ e, ruleDict FRule !! 0 = Some e ∧ (0 < total_weight ∅ (numbered (ruleDict FRule)))%Q ∧
       (mass (chosen 0) (select_loop (M:=Dist) ∅ (numbered (ruleDict FRule)) None 0) ==
        (if eligible ∅ e then weight_Q e else 0) / total_weight ∅ (numbered (ruleDict FRule)))%Q.
Proof.
  eexists. split; [reflexivity|]. split; [vm_compute; reflexivity|].
  apply select_fair; [reflexivity|vm_compute; reflexivity].
Defined.
