(* ===== verification/Tags.v ===== *)
(** * What the tag discipline guarantees about generated rules

    The generator (Generator.v) enforces the exclusion tags of the grammar
    table through the shared [Set] of active tags (lines 373-383, 404-409,
    420-433).  [tag_ok] records, node by node, the set each template was
    chosen under.  This file draws the consequences the spec states or
    implies (section 4.2 and the glossary entry "Tag"):
    - within one tag context (a node and its children that share its set)
      no tag occurs twice, so a rule never pairs two position alternatives
      such as "every symbol in the top row is in the top row";
    - the noun inside "adjacent to a %1" is generated from the set
      [{position}], because the code copies [position] after the
      adjacency alternative has added it: that noun is never a row or
      column noun, whatever the rest of the rule (a divergence from the
      spec, which copies [position] only when it was active before);
    - alternatives of weight 0 are never chosen, so the group predicate
      "are identical" (weight 0, line 773) never occurs in a rule. *)

From Stdlib Require Import QArith Lqa.
From S2P Require Import Prelude Grammar Instantiate Random Generator.
Close Scope Q_scope.

(** The nodes of a skeleton, the root first. *)
Fixpoint subfrags (f : frag) : list frag :=
  match f with Frag _ _ cs _ => f :: concat (map subfrags cs) end.

(** The template a node names. *)
Definition frag_template (f : frag) : option template :=
  let 'Frag t idx _ _ := f in ruleDict t !! idx.

(** The tags added to the set a node shares with its parent, with
    repetitions: its template's tags and, unless its children have
    separate sets, theirs. *)
Fixpoint shared_tag_list (f : frag) : list tag :=
  match f with
  | Frag t idx cs _ =>
      match ruleDict t !! idx with
      | Some e => tags_of e ++ (if separateTags e then [] else concat (map shared_tag_list cs))
      | None => []
      end
  end.

(** ** Lemmas *)

Lemma elem_of_concat_map {A B} (f : A → list B) (l : list A) x :
  x ∈ concat (map f l) ↔ ∃ y, y ∈ l ∧ x ∈ f y.
Proof.
  rewrite list_elem_of_In, in_concat. setoid_rewrite in_map_iff.
  split.
  - intros (l' & (y & <- & Hy) & Hx). exists y. by rewrite !list_elem_of_In.
  - intros (y & Hy & Hx). exists (f y).
    split; [exists y; split; [done|by apply list_elem_of_In]|by apply list_elem_of_In].
Qed.

Lemma elem_of_subfrags g t idx cs a :
  g ∈ subfrags (Frag t idx cs a) ↔ g = Frag t idx cs a ∨ ∃ c, c ∈ cs ∧ g ∈ subfrags c.
Proof. cbn [subfrags]. by rewrite elem_of_cons, elem_of_concat_map. Qed.

(** Every template lists each of its tags once. *)
Lemma ruleDict_tags_nodup t e : e ∈ ruleDict t → NoDup (tags_of e).
Proof.
  intros He. destruct t; enum_table He; cbv [tags_of tags default];
    repeat constructor; set_solver.
Qed.

Lemma shared_tag_list_elem f x : x ∈ shared_tag_list f ↔ x ∈ shared_tags f.
Proof.
  induction f as [t idx cs a IH] using frag_ind'. cbn [shared_tag_list shared_tags].
  destruct (ruleDict t !! idx) as [e|]; [|set_solver].
  rewrite elem_of_app, elem_of_union, elem_of_list_to_set.
  destruct (separateTags e); [set_solver|].
  rewrite elem_of_concat_map, elem_of_union_list. rewrite Forall_forall in IH.
  split; [intros [?|(c & Hc & Hx)]; [by left|right]|intros [?|(X & HX & Hx)]; [by left|right]].
  - exists (shared_tags c). split; [|by apply IH]. apply list_elem_of_In, in_map, list_elem_of_In, Hc.
  - apply list_elem_of_In, in_map_iff in HX as (c & <- & Hc). apply list_elem_of_In in Hc.
    exists c. split; [done|by apply IH].
Qed.

Lemma children_tag_ok_elem sep T cs c :
  children_tag_ok sep T cs → c ∈ cs → ∃ T', tag_ok T' c.
Proof. induction 1; intros Hc; set_solver. Qed.

Lemma children_tag_ok_separate T cs c :
  children_tag_ok true T cs → c ∈ cs → tag_ok (subtags T) c.
Proof.
  remember true as sep eqn:Hsep. induction 1; intros Hc; try discriminate; set_solver.
Qed.

(** Every node of a skeleton that obeys the discipline obeys it under the
    set it was chosen with. *)
Lemma tag_ok_subfrags T f g : tag_ok T f → g ∈ subfrags f → ∃ T', tag_ok T' g.
Proof.
  revert T. induction f as [t idx cs a IH] using frag_ind'. intros T Hok Hg.
  apply elem_of_subfrags in Hg as [->|(c & Hc & Hg)]; [eauto|].
  inversion Hok as [? ? ? ? ? e He Hfree Hcs]; subst.
  destruct (children_tag_ok_elem _ _ _ _ Hcs Hc) as [T' Hc'].
  rewrite Forall_forall in IH. by eapply IH.
Qed.

(** Within the sets shared by siblings, the tags of a node and of the
    siblings before it are never chosen again. *)
Lemma children_tag_ok_nodup T cs :
  Forall (λ c, ∀ T, tag_ok T c → NoDup (shared_tag_list c) ∧ ∀ x, x ∈ shared_tag_list c → x ∉ T) cs →
  children_tag_ok false T cs →
  NoDup (concat (map shared_tag_list cs)) ∧ ∀ x, x ∈ concat (map shared_tag_list cs) → x ∉ T.
Proof.
  intros IH H. remember false as sep eqn:Hsep. revert IH.
  induction H as [sep T|T c cs Hc Hcs IHcs|]; intros IH; [by split; [constructor|set_solver]| |done].
  apply Forall_cons in IH as [IHc IH]. destruct (IHc T Hc) as [Hnd1 Hdis1].
  destruct (IHcs eq_refl IH) as [Hnd2 Hdis2]. cbn [map concat].
  split.
  - apply NoDup_app. split_and!; [done| |done].
    intros x Hx1 Hx2. apply (Hdis2 x Hx2). apply elem_of_union_r, shared_tag_list_elem, Hx1.
  - intros x [Hx|Hx]%elem_of_app; [by apply Hdis1|]. specialize (Hdis2 x Hx). set_solver.
Qed.

Lemma tag_ok_nodup T f :
  tag_ok T f → NoDup (shared_tag_list f) ∧ ∀ x, x ∈ shared_tag_list f → x ∉ T.
Proof.
  revert T. induction f as [t idx cs a IH] using frag_ind'. intros T Hok.
  inversion Hok as [? ? ? ? ? e He Hfree Hcs]; subst. cbn [shared_tag_list]. rewrite He.
  pose proof (ruleDict_tags_nodup t e ltac:(by eapply list_elem_of_lookup_2)) as Hnd.
  destruct (separateTags e) eqn:Hs.
  { rewrite app_nil_r. split; [done|]. intros x Hx. by apply Hfree. }
  destruct (children_tag_ok_nodup _ cs IH Hcs) as [Hnd2 Hdis2].
  split.
  - apply NoDup_app. split_and!; [done| |done].
    intros x Hx1 Hx2. apply (Hdis2 x Hx2). set_solver.
  - intros x [Hx|Hx]%elem_of_app; [by apply Hfree|]. specialize (Hdis2 x Hx). set_solver.
Qed.

(** ** Weights of the chosen templates *)

Lemma gen_children_Forall2 rs (P : fragType → frag → Prop) rec sep cts T n cs T' n' :
  (∀ c T n f T' n', c ∈ cts → rec c T rs n = Ok ((f, T'), n') → P c f) →
  gen_children (M:=Sampler) rec sep cts T rs n = Ok ((cs, T'), n') → Forall2 P cts cs.
Proof.
  revert T n cs T' n'. induction cts as [|c cts IH]; intros T n cs T' n' Hrec Hg.
  - by injection Hg as <- _ _.
  - apply sampler_bind_Ok in Hg as ([c' T1] & n1 & Hc & Hg).
    apply sampler_bind_Ok in Hg as ([cs' T2] & n2 & Hcs & Hg). injection Hg as <- _ _.
    constructor.
    + destruct sep; [apply sampler_bind_Ok in Hc as ([f Tf] & n3 & Hf & Hc); injection Hc as <- _ _|];
        (eapply Hrec; [set_solver|done]).
    + eapply IH; [|done]. intros; eapply Hrec; [set_solver|done].
Qed.

(** Every node of a generated skeleton names a template of positive
    weight: the test [r·W' > W] with [r < 1] never accepts a weight 0. *)
Lemma gen_weights rs fuel t T n f T' n' :
  (∀ k, (0 <= rs k)%Q ∧ (rs k < 1)%Q) →
  randomRuleFragmentOfType (M:=Sampler) fuel t T rs n = Ok ((f, T'), n') →
  ∀ g, g ∈ subfrags f → ∃ e, frag_template g = Some e ∧ 0 < weight_of e.
Proof.
  intros Hrs. revert t T n f T' n'. induction fuel as [|fuel IH]; intros t T n f T' n' Hg; [done|].
  apply sampler_bind_Ok in Hg as (c & n1 & Hs & Hg).
  destruct (select_loop_result rs Hrs _ _ _ _ _ _ _ (Qle_refl 0) Hs)
    as [-> | (i & e & -> & Hin & _ & _ & Hw)]; [done|].
  apply numbered_lookup in Hin.
  apply sampler_bind_Ok in Hg as ([cs T2] & n2 & Hcs & Hg).
  apply sampler_bind_Ok in Hg as (attr & n3 & _ & Hg). injection Hg as <- _ _.
  pose proof (gen_children_Forall2 rs (λ _ f, ∀ g, g ∈ subfrags f → ∃ e, frag_template g = Some e ∧ 0 < weight_of e)
                _ _ _ _ _ _ _ _ (λ c T n f T' n' _ H, IH c T n f T' n' H) Hcs) as Hall.
  intros g [->|(c & Hc & Hgc)]%elem_of_subfrags; [by exists e|].
  apply (Forall2_Forall_r _ (λ f, ∀ g, g ∈ subfrags f → ∃ e, frag_template g = Some e ∧ 0 < weight_of e))
    in Hall; [|apply Forall_forall; intros ? ? ? Hy; exact Hy].
  rewrite Forall_forall in Hall. by apply (Hall c).
Qed.

(** ** Properties of generated rules *)

(** C7: in a rule generated by [randomRule()] on draws in [0,1), every
    node's tag context — the node and the descendants that share its set —
    uses each exclusion tag at most once: never two colour, two shape or
    two position alternatives together. *)
Theorem randomRule_tags_once rs n f T' n' :
  (∀ k, (0 <= rs k)%Q ∧ (rs k < 1)%Q) →
  randomRuleFragmentOfType (M:=Sampler) (rank FRule) FRule ∅ rs n = Ok ((f, T'), n') →
  ∀ g, g ∈ subfrags f → NoDup (shared_tag_list g).
Proof.
  intros Hrs Hg g Hsub. destruct (gen_sound rs Hrs _ _ _ _ _ _ _ Hg) as (_ & Hok & _).
  destruct (tag_ok_subfrags _ _ _ Hok Hsub) as [T'' Hok'].
  by apply (tag_ok_nodup T'').
Qed.

(** C24: the noun child of the predicate "adjacent to a %1"
    (nounPred 4, tagged [position], [separateTags]) is generated from the
    set [{position}] in every generated rule, because the code copies
    [position] into the child's fresh set after the predicate's own tags
    were added (lines 404-409, 429): it is never a position noun ("a symbol
    in the @ row/column").  The spec copies [position] only when it was
    active before the predicate was chosen. *)
Theorem randomRule_adjacent_child_unpositioned rs n f T' n' :
  (∀ k, (0 <= rs k)%Q ∧ (rs k < 1)%Q) →
  randomRuleFragmentOfType (M:=Sampler) (rank FRule) FRule ∅ rs n = Ok ((f, T'), n') →
  ∀ cs a c e, Frag FNounPred 4 cs a ∈ subfrags f → c ∈ cs → frag_template c = Some e →
  TPosition ∉ tags_of e.
Proof.
  intros Hrs Hg cs a c e Hsub Hc He. destruct (gen_sound rs Hrs _ _ _ _ _ _ _ Hg) as (_ & Hok & _).
  destruct (tag_ok_subfrags _ _ _ Hok Hsub) as [T'' Hok'].
  inversion Hok' as [? ? ? ? ? e0 He0 _ Hcs]; subst.
  injection He0 as <-. cbn in Hcs.
  pose proof (children_tag_ok_separate _ _ _ Hcs Hc) as Hc'.
  unfold subtags in Hc'. rewrite bool_decide_eq_true_2 in Hc' by set_solver.
  inversion Hc' as [? t' idx' cs' a' e' He' Hfree _]; subst.
  cbn in He. rewrite He' in He. injection He as ->.
  intros Hpos. by apply (Hfree TPosition Hpos), elem_of_singleton.
Qed.

(** C25: the group predicate "are identical" (groupPred 5) has
    weight 0 (line 773), and the test [Math.random()*W' > W] never accepts
    an option that adds no weight: it occurs in no generated rule. *)
Theorem randomRule_never_identical rs n f T' n' :
  (∀ k, (0 <= rs k)%Q ∧ (rs k < 1)%Q) →
  randomRuleFragmentOfType (M:=Sampler) (rank FRule) FRule ∅ rs n = Ok ((f, T'), n') →
  ∀ cs a, Frag FGroupPred 5 cs a ∉ subfrags f.
Proof.
  intros Hrs Hg cs a Hsub. destruct (gen_weights rs _ _ _ _ _ _ _ Hrs Hg _ Hsub) as (e & He & Hw).
  cbn in He. injection He as <-. cbn in Hw. lia.
Qed.

(** ** Witnesses *)

(** A stream on which [randomRule()] builds "Every yellow symbol is
    adjacent to a yellow symbol": the draw of the adjacency option in the
    noun-predicate pass is 9/10, every other draw 1/2. *)
Definition adj_stream : nat → Q := λ k, if Nat.eqb k 15 then Qmake 9 10 else Qmake 1 2.

Lemma adj_stream_bounded k : (0 <= adj_stream k)%Q ∧ (adj_stream k < 1)%Q.
Proof.
  unfold adj_stream. destruct (Nat.eqb k 15); split; vm_compute; try reflexivity; by intros.
Qed.

Definition adj_rule : frag :=
  Frag FRule 0 [Frag FNoun 0 [] 1; Frag FNounPred 4 [Frag FNoun 0 [] 1] 0] 0.

Definition adj_tags : gset tag := {[TPosition; TColor]}.

Lemma randomRule_tags_once_witness : NoDup (shared_tag_list adj_rule).
Proof.
  apply (randomRule_tags_once adj_stream 0 adj_rule adj_tags 20);
    [exact adj_stream_bounded|vm_compute; reflexivity|constructor].
Defined.

Lemma randomRule_adjacent_child_unpositioned_witness :
  TPosition ∉ tags_of (default (mkTemplate None None None None None false None None)
                        (frag_template (Frag FNoun 0 [] 1))).
Proof.
  apply (randomRule_adjacent_child_unpositioned adj_stream 0 adj_rule adj_tags 20
           adj_stream_bounded ltac:(vm_compute; reflexivity) [Frag FNoun 0 [] 1] 0 (Frag FNoun 0 [] 1));
    [apply list_elem_of_In; simpl; tauto|constructor|reflexivity].
Defined.

Lemma randomRule_never_identical_witness : Frag FGroupPred 5 [] 0 ∉ subfrags adj_rule.
Proof.
  apply (randomRule_never_identical adj_stream 0 adj_rule adj_tags 20);
    [exact adj_stream_bounded|vm_compute; reflexivity].
Defined.
