(* ===== verification/Examples.v ===== *)
(** * The grid sampler and the example generator

    src/js/zendo-prototype.js lines 262-313 and 797-807, written against the
    [RandomMonad] interface (Random.v) like the generator:
    - [randomGrid] (lines 262-275) draws a fill target [k+3] with
      [k = Math.floor(Math.random()*7)] and fills cell [i] when
      [Math.random() < fillTarget/(9-i)], decrementing the target; the loop
      state is the array [g] and the counter [fillTarget] (a JS number,
      here an integer [Z]);
    - [generateExamples] (lines 284-313) is the rejection-sampling loop with
      its two buckets and its 500-attempt ceiling; the loop is a [Fixpoint]
      on a fuel of 501 iterations, one more than its test allows, and the
      theorems show that the test, not the fuel, ends it;
    - [shuffleArray] (lines 797-807) swaps [a[i]] with [a[j]],
      [j = Math.floor(Math.random()*(a.length-i)) + i], on a JS array whose
      reads past the end give [undefined] and whose writes past the end
      extend it ([js_get], [js_set]); since the loop rereads [a.length], it
      runs on fuel, and [a.length + 1] tests are shown to be enough.

    In the stream semantics, with draws in [0,1), [randomGrid] always places
    exactly [k+3] symbols of valid colour and shape, [generateExamples]
    returns at most the requested number of grids of each kind, each
    classified correctly, and [shuffleArray] permutes its array. *)

From Stdlib Require Import QArith Lqa.
From S2P Require Import Prelude Grid Grammar Eval Instantiate Typing Random.
Close Scope Q_scope.

(** ** JS arrays with [undefined] *)

(** An array whose elements may be [undefined] ([None]). *)
Abbreviation js_array A := (list (option A)).

(** [a[j]]: [undefined] past the end. *)
Definition js_get {A} (a : js_array A) (j : nat) : option A := mjoin (a !! j).

(** [a[j] = v]: past the end the array grows, the gap holding [undefined]. *)
Definition js_set {A} (a : js_array A) (j : nat) (v : option A) : js_array A :=
  if decide (j < length a) then <[j:=v]> a
  else a ++ replicate (j - length a) None ++ [v].

Section examples.
Context `{RandomMonad M}.

(** ** [randomGrid] *)

(** One iteration of the loop over [i] (lines 267-272); the state is
    [(g, fillTarget)].  The object literal draws [color] before [shape]. *)
Definition fill_step (i : nat) (st : grid * Z) : M (grid * Z) :=
  let '(g, fillTarget) := st in
  b ← random_lt (inject_Z fillTarget / inject_Z (Z.of_nat (9 - i)))%Q;
  if (b : bool) then
    c ← random_index 3;
    s ← random_index 3;
    mret (<[i := Some (mkSymbol c s)]> g, (fillTarget - 1)%Z)
  else mret (g, fillTarget).

Fixpoint fill_cells (ixs : list nat) (st : grid * Z) : M (grid * Z) :=
  match ixs with
  | [] => mret st
  | i :: ixs' => st' ← fill_step i st; fill_cells ixs' st'
  end.

Definition randomGrid : M grid :=
  k ← random_index 7;
  '(g, _) ← fill_cells (seq 0 9) (empty_grid, (Z.of_nat k + 3)%Z);
  mret g.

(** ** [generateExamples] *)

Definition timeout : nat := 500.

(** [if (rule.match(g))]: [ToBoolean] of the result; a throw propagates. *)
Definition classify (r : inst) (g : grid) : M bool :=
  match inst_match r g AUndef with
  | Ok v => mret (truthy v)
  | Err e => rand_throw e
  end.

(** The [while] loop (lines 292-304) with its variables [attempts],
    [validGrids] and [invalidGrids]; [fuel] counts the iterations left.
    It is only there to make the recursion structural: the loop's own
    test [attempts < timeout] ends it ([generateExamples_attempts]). *)
Fixpoint examples_loop (r : inst) (validCount invalidCount : nat) (fuel attempts : nat)
    (validGrids invalidGrids : list grid) : M (list grid * list grid * nat) :=
  match fuel with
  | 0 => mret (validGrids, invalidGrids, attempts)
  | S fuel' =>
      if bool_decide (attempts < timeout) &&
         (bool_decide (length validGrids < validCount) ||
          bool_decide (length invalidGrids < invalidCount)) then
        g ← randomGrid;
        b ← classify r g;
        if (b : bool) then
          examples_loop r validCount invalidCount fuel' (S attempts)
            (if bool_decide (length validGrids < validCount) then validGrids ++ [g]
             else validGrids) invalidGrids
        else
          examples_loop r validCount invalidCount fuel' (S attempts) validGrids
            (if bool_decide (length invalidGrids < invalidCount) then invalidGrids ++ [g]
             else invalidGrids)
      else mret (validGrids, invalidGrids, attempts)
  end.

(** [generateExamples(validCount, invalidCount)] for the global [rule]
    ([None] while it is [null]); the console messages are not modelled.
    The loop gets one more iteration of fuel than its test allows, so that
    it ends by that test and not by running out of fuel. *)
Definition generateExamples (rule : option inst) (validCount invalidCount : nat) : M (list grid) :=
  match rule with
  | None => mret []
  | Some r =>
      '(validGrids, invalidGrids, _) ← examples_loop r validCount invalidCount (S timeout) 0 [] [];
      mret (validGrids ++ invalidGrids)
  end.

(** ** [shuffleArray] *)

(** [let temp = a[i]; a[i] = a[j]; a[j] = temp;] *)
Definition js_swap {A} (a : js_array A) (i j : nat) : js_array A :=
  let temp := js_get a i in
  let a := js_set a i (js_get a j) in
  js_set a j temp.

(** The loop [for (let i=0; i<a.length; i++)]: [a.length] is read at each
    test, and a swap past the end lengthens the array, so the loop runs on
    [fuel]. *)
Fixpoint shuffle_loop {A} (fuel i : nat) (a : js_array A) : M (js_array A) :=
  match fuel with
  | 0 => rand_throw OutOfFuel
  | S fuel' =>
      if decide (i < length a) then
        j ← random_index (length a - i);
        shuffle_loop fuel' (S i) (js_swap a i (j + i))
      else mret a
  end.

(** The loop runs [a.length] times when every swap stays inside the array,
    and one more test ends it. *)
Definition shuffleArray {A} (a : js_array A) : M (js_array A) :=
  shuffle_loop (S (length a)) 0 a.
End examples.

(** ** [randomGrid] in the stream semantics *)

(** The number of symbols on a grid. *)
Definition count_filled (g : grid) : nat := length (filter (λ c : cell, is_Some c) g).

Lemma count_filled_insert g j s :
  g !! j = Some None → count_filled (<[j := Some s]> g) = S (count_filled g).
Proof.
  intros Hj. pose proof (lookup_lt_Some _ _ _ Hj) as Hlt.
  unfold count_filled. rewrite insert_take_drop by done.
  remember (take j g) as A. remember (drop (S j) g) as B.
  assert (Hg : g = A ++ None :: B) by (subst; by rewrite take_drop_middle).
  rewrite Hg, !filter_app, !length_app, (filter_cons_False _ None) by by intros [? ?].
  simpl. lia.
Qed.

Lemma grid_ok_insert g j c s :
  grid_ok g → c < 3 → s < 3 → grid_ok (<[j := Some (mkSymbol c s)]> g).
Proof.
  intros Hg Hc Hs j' s' H. apply list_lookup_insert_Some in H as [(-> & [= <-] & _)|[_ H]];
    [done|by apply (Hg j')].
Qed.

Section randomGrid_stream.
Context (rs : nat → Q).
Hypothesis Hrs : ∀ k, (0 <= rs k)%Q ∧ (rs k < 1)%Q.

Lemma floor_index_3 k : floor_index (rs k) 3 < 3.
Proof. destruct (Hrs k). apply floor_index_lt; [done|done|lia]. Qed.

(** The loop from cell [i] with [m] cells left and [t] symbols to place,
    [0 ≤ t ≤ m]: the threshold [t/m] is 1 when every remaining cell must
    be filled and 0 when none may be, so exactly [t] symbols are placed. *)
Lemma fill_cells_spec m i g t n :
  i + m = 9 → length g = 9 → (∀ j, i ≤ j < 9 → g !! j = Some None) →
  (0 ≤ t ≤ Z.of_nat m)%Z → grid_ok g →
  ∃ g' n', fill_cells (M:=Sampler) (seq i m) (g, t) rs n = Ok ((g', 0%Z), n') ∧
           length g' = 9 ∧ count_filled g' = count_filled g + Z.to_nat t ∧ grid_ok g'.
Proof.
  revert i g t n. induction m as [|m IH]; intros i g t n Him Hg Hfree Ht Hok.
  - assert (t = 0%Z) as -> by lia. exists g, n. split_and!; [done|done|lia|done].
  - cbn [seq fill_cells]. destruct (Hrs n) as [Hr0 Hr1].
    assert (H9 : 9 - i = S m) by lia.
    destruct (Qltb (rs n) (inject_Z t / inject_Z (Z.of_nat (9 - i)))) eqn:Hb.
    + assert (t ≠ 0)%Z by (intros ->; by rewrite Qltb_ratio_zero in Hb).
      assert (Hstep : ∃ c s, fill_step (M:=Sampler) i (g, t) rs n =
                      Ok ((<[i:=Some (mkSymbol c s)]> g, (t - 1)%Z), S (S (S n))) ∧ c < 3 ∧ s < 3).
      { do 2 eexists. unfold fill_step. rewrite (sampler_bind_run _ _ _ _ true (S n)) by (by rewrite <- Hb).
        split; [reflexivity|split; apply floor_index_3]. }
      destruct Hstep as (c & s & Hstep & Hc3 & Hs3).
      rewrite (sampler_bind_run _ _ _ _ _ _ Hstep).
      destruct (IH (S i) (<[i:=Some (mkSymbol c s)]> g) (t - 1)%Z (S (S (S n))))
        as (g' & n' & Hrun & Hl & Hc & Hok'); [lia|by rewrite length_insert| |lia| |].
      { intros j Hj. rewrite list_lookup_insert_ne by lia. apply Hfree. lia. }
      { by apply grid_ok_insert. }
      exists g', n'. split_and!; [done|done| |done].
      rewrite Hc, count_filled_insert by (apply Hfree; lia). lia.
    + assert (t ≠ Z.of_nat (S m)).
      { intros ->. rewrite H9, Qltb_ratio_one in Hb; [done|done|lia]. }
      assert (Hstep : fill_step (M:=Sampler) i (g, t) rs n = Ok ((g, t), S n))
        by (unfold fill_step; rewrite (sampler_bind_run _ _ _ _ false (S n)); [done|by rewrite <- Hb]).
      rewrite (sampler_bind_run _ _ _ _ _ _ Hstep).
      apply IH; [lia|done| |lia|done]. intros j Hj. apply Hfree. lia.
Qed.

(** [randomGrid] returns a 9-cell grid holding exactly [k+3] symbols, [k]
    the index its first draw gives, all of valid colour and shape. *)
Lemma randomGrid_spec n :
  ∃ g n', randomGrid (M:=Sampler) rs n = Ok (g, n') ∧ length g = 9 ∧
          count_filled g = floor_index (rs n) 7 + 3 ∧ grid_ok g.
Proof.
  unfold randomGrid. rewrite (sampler_bind_run _ _ _ _ (floor_index (rs n) 7) (S n)) by done.
  pose proof (Hrs n) as [Hr0 Hr1].
  pose proof (floor_index_lt (rs n) 7 Hr0 Hr1 ltac:(lia)).
  destruct (fill_cells_spec 9 0 empty_grid (Z.of_nat (floor_index (rs n) 7) + 3) (S n))
    as (g & n' & Hrun & Hl & Hc & Hok); [done|done| |lia| |].
  - intros j Hj. apply lookup_replicate. split; [done|lia].
  - intros j s Hj. by apply lookup_replicate in Hj as [[=] _].
  - exists g, n'. rewrite (sampler_bind_run _ _ _ _ _ _ Hrun). split_and!; [done|done| |done].
    rewrite Hc. change (count_filled empty_grid) with 0. lia.
Qed.
End randomGrid_stream.

(** ** [generateExamples] in the stream semantics *)

(** A grid of the bucket for verdict [b]: a grid [randomGrid] can return
    on which the rule's [match] gives [b]. *)
Definition good (r : inst) (b : bool) (g : grid) : Prop :=
  inst_match r g AUndef = Ok (VBool b) ∧ length g = 9 ∧ grid_ok g ∧ 3 ≤ count_filled g.

(** The loop's state invariant: each bucket holds grids of its verdict,
    no more than requested. *)
Definition buckets_ok (r : inst) (validCount invalidCount : nat) (V I : list grid) : Prop :=
  Forall (good r true) V ∧ Forall (good r false) I ∧ length V ≤ validCount ∧ length I ≤ invalidCount.

Section examples_stream.
Context (rs : nat → Q).
Hypothesis Hrs : ∀ k, (0 <= rs k)%Q ∧ (rs k < 1)%Q.
Context (r : inst).
Hypothesis Hr : has_type FRule r.
Context (validCount invalidCount : nat).

(** One attempt: a random grid, classified without error. *)
Lemma attempt_run n :
  ∃ g b n1, randomGrid (M:=Sampler) rs n = Ok (g, n1) ∧
            classify (M:=Sampler) r g rs n1 = Ok (b, n1) ∧ good r b g.
Proof.
  destruct (randomGrid_spec rs Hrs n) as (g & n1 & Hg & Hl & Hc & Hok).
  destruct (Hr g Hl) as [b Hb]. exists g, b, n1.
  unfold classify, good. rewrite Hb. split_and!; [done|done|done|done|done|lia].
Qed.

Lemma buckets_ok_add b g V I :
  buckets_ok r validCount invalidCount V I → good r b g →
  buckets_ok r validCount invalidCount
    (if b && bool_decide (length V < validCount) then V ++ [g] else V)
    (if negb b && bool_decide (length I < invalidCount) then I ++ [g] else I).
Proof.
  intros (HV & HI & HlV & HlI) Hg. unfold buckets_ok.
  destruct b; simpl; repeat case_bool_decide; rewrite ?length_app; simpl;
    split_and!; rewrite ?Forall_app; auto with lia.
Qed.

Lemma examples_loop_step fuel att V I n g b n1 :
  bool_decide (att < timeout) &&
    (bool_decide (length V < validCount) || bool_decide (length I < invalidCount)) = true →
  randomGrid (M:=Sampler) rs n = Ok (g, n1) → classify (M:=Sampler) r g rs n1 = Ok (b, n1) →
  examples_loop (M:=Sampler) r validCount invalidCount (S fuel) att V I rs n =
  examples_loop (M:=Sampler) r validCount invalidCount fuel (S att)
    (if b && bool_decide (length V < validCount) then V ++ [g] else V)
    (if negb b && bool_decide (length I < invalidCount) then I ++ [g] else I) rs n1.
Proof.
  intros Hc Hg Hb. cbn [examples_loop]. rewrite Hc.
  rewrite (sampler_bind_run _ _ _ _ _ _ Hg), (sampler_bind_run _ _ _ _ _ _ Hb).
  by destruct b.
Qed.

(** The loop from any state that satisfies the invariant: it returns
    without error, keeps the invariant, only appends to the buckets,
    counts at most [fuel] more attempts, and stops only when its fuel is
    spent or the [while] condition fails. *)
Lemma examples_loop_spec fuel att V I n :
  buckets_ok r validCount invalidCount V I →
  ∃ V' I' att' n',
    examples_loop (M:=Sampler) r validCount invalidCount fuel att V I rs n = Ok ((V', I', att'), n') ∧
    buckets_ok r validCount invalidCount V' I' ∧ V `prefix_of` V' ∧ I `prefix_of` I' ∧
    att ≤ att' ≤ att + fuel ∧
    (att' = att + fuel ∨ ¬ (att' < timeout ∧ (length V' < validCount ∨ length I' < invalidCount))) ∧
    (att ≤ timeout → att' ≤ timeout).
Proof.
  revert att V I n. induction fuel as [|fuel IH]; intros att V I n Hinv.
  { exists V, I, att, n. split_and!; auto with lia. }
  destruct (bool_decide (att < timeout) &&
    (bool_decide (length V < validCount) || bool_decide (length I < invalidCount))) eqn:Hc; last first.
  { exists V, I, att, n. cbn [examples_loop]. rewrite Hc. split_and!; [done|done|done|done|lia|lia| |done].
    right. intros [Ha Hl]. rewrite andb_false_iff, orb_false_iff, !bool_decide_eq_false in Hc.
    lia. }
  destruct (attempt_run n) as (g & b & n1 & Hg & Hb & Hgood).
  rewrite (examples_loop_step _ _ _ _ _ _ _ _ Hc Hg Hb).
  destruct (IH (S att) _ _ n1 (buckets_ok_add b g V I Hinv Hgood))
    as (V' & I' & att' & n' & Hrun & Hok & HV & HI & Ha & Hend & Hle).
  assert (att < timeout) by (apply andb_true_iff in Hc as [Hc _]; by apply bool_decide_eq_true in Hc).
  exists V', I', att', n'. split_and!; [done|done| | |lia|lia|lia|intros; apply Hle; lia];
    [destruct (b && _)|destruct (negb b && _)]; try done; by eapply prefix_app_l.
Qed.
(** Once the loop has fuel for every attempt its test still allows, more
    fuel changes nothing. *)
Lemma examples_loop_fuel att V I n f1 f2 :
  buckets_ok r validCount invalidCount V I → att ≤ timeout →
  timeout - att < f1 → timeout - att < f2 →
  examples_loop (M:=Sampler) r validCount invalidCount f1 att V I rs n =
  examples_loop (M:=Sampler) r validCount invalidCount f2 att V I rs n.
Proof.
  revert att V I n f2. induction f1 as [|f1 IH]; intros att V I n f2 Hinv Hle H1 H2; [lia|].
  destruct f2 as [|f2]; [lia|].
  destruct (bool_decide (att < timeout) &&
    (bool_decide (length V < validCount) || bool_decide (length I < invalidCount))) eqn:Hc.
  - destruct (attempt_run n) as (g & b & n1 & Hg & Hb & Hgood).
    assert (att < timeout) by (apply andb_true_iff in Hc as [Hc' _]; by apply bool_decide_eq_true in Hc').
    rewrite !(examples_loop_step _ _ _ _ _ _ _ _ Hc Hg Hb).
    apply IH; [by apply buckets_ok_add|lia|lia|lia].
  - cbn [examples_loop]. by rewrite Hc.
Qed.
End examples_stream.

(** What the UI needs of [generateExamples]: 9-cell grids, at most as
    many as requested, and at least one when both counts are positive (the
    first attempt always lands in a bucket that is not full). *)
Lemma generateExamples_good rs r validCount invalidCount n :
  (∀ k, (0 <= rs k)%Q ∧ (rs k < 1)%Q) → has_type FRule r →
  ∃ l n', generateExamples (M:=Sampler) (Some r) validCount invalidCount rs n = Ok (l, n') ∧
          Forall (λ g, length g = 9) l ∧ length l ≤ validCount + invalidCount ∧
          (0 < validCount → 0 < invalidCount → l ≠ []).
Proof.
  intros Hrs Hr. unfold generateExamples.
  assert (Hlen : ∀ V I, buckets_ok r validCount invalidCount V I →
            Forall (λ g, length g = 9) (V ++ I) ∧ length (V ++ I) ≤ validCount + invalidCount).
  { intros V I (HV & HI & HlV & HlI). rewrite Forall_app, length_app.
    split_and!; [eapply Forall_impl; [apply HV|]|eapply Forall_impl; [apply HI|]|lia];
      by intros ? (_ & ? & _). }
  destruct (decide (0 < validCount ∧ 0 < invalidCount)) as [[Hv Hi]|Hn]; last first.
  { destruct (examples_loop_spec rs Hrs r Hr validCount invalidCount (S timeout) 0 [] [] n)
      as (V & I & att & n' & Hrun & Hok & _); [split_and!; simpl; auto with lia|].
    rewrite (sampler_bind_run _ _ _ _ _ _ Hrun). exists (V ++ I), n'.
    destruct (Hlen V I Hok). split_and!; [done|done|done|lia]. }
  destruct (attempt_run rs Hrs r Hr n) as (g & b & n1 & Hg & Hb & Hgood).
  assert (Hc : bool_decide (0 < timeout) &&
    (bool_decide (length (@nil grid) < validCount) || bool_decide (length (@nil grid) < invalidCount)) = true).
  { rewrite !bool_decide_eq_true_2; [done|simpl; lia..|unfold timeout; lia]. }
  pose proof (examples_loop_step rs r validCount invalidCount timeout 0 [] [] n g b n1 Hc Hg Hb) as Hstep.
  pose proof (buckets_ok_add r validCount invalidCount b g [] [] ltac:(split_and!; simpl; auto with lia) Hgood) as Hinv.
  destruct (examples_loop_spec rs Hrs r Hr validCount invalidCount timeout 1 _ _ n1 Hinv)
    as (V & I & att & n' & Hrun & Hok & HpV & HpI & _).
  rewrite (sampler_bind_run _ _ _ _ _ _ (eq_trans Hstep Hrun)). exists (V ++ I), n'.
  destruct (Hlen V I Hok). split_and!; [done|done|done|].
  intros _ _ Hnil. apply app_eq_nil in Hnil as [-> ->].
  destruct b; rewrite bool_decide_eq_true_2 in HpV, HpI by (simpl; lia); simpl in HpV, HpI;
    [by apply prefix_nil_inv in HpV|by apply prefix_nil_inv in HpI].
Qed.

(** ** Properties of the sampler and the example generator *)

(** C20: the fill target is [k+3] for the [k] with
    [k/7 ≤ r < (k+1)/7], [r] the first draw, and [randomGrid] places
    exactly that many symbols on its 9 cells, each of a valid colour and
    shape: the selection-sampling threshold [fillTarget/(9-i)] reaches 1
    exactly when every remaining cell must be filled. *)
Theorem randomGrid_exact rs n k :
  (∀ j, (0 <= rs j)%Q ∧ (rs j < 1)%Q) →
  (inject_Z (Z.of_nat k) <= rs n * 7 < inject_Z (Z.of_nat k) + 1)%Q →
  ∃ g n', randomGrid (M:=Sampler) rs n = Ok (g, n') ∧
          length g = 9 ∧ count_filled g = k + 3 ∧ grid_ok g.
Proof.
  intros Hrs Hk. destruct (randomGrid_spec rs Hrs n) as (g & n' & Hg & Hl & Hc & Hok).
  exists g, n'. rewrite Hc, (floor_index_eq (rs n) 7 k Hk). auto.
Qed.

(** C19: for a rule whose [match] is boolean on every grid
    and draws in [0,1), [generateExamples(validCount, invalidCount)]
    returns without error the valid grids followed by the invalid ones, at
    most [validCount] and [invalidCount] of them, each classified by the
    rule as its bucket says, each a 9-cell grid with 3 to 9 valid
    symbols. *)
Theorem generateExamples_spec rs r validCount invalidCount n :
  (∀ k, (0 <= rs k)%Q ∧ (rs k < 1)%Q) → has_type FRule r →
  ∃ V I n', generateExamples (M:=Sampler) (Some r) validCount invalidCount rs n = Ok (V ++ I, n') ∧
            buckets_ok r validCount invalidCount V I.
Proof.
  intros Hrs Hr.
  destruct (examples_loop_spec rs Hrs r Hr validCount invalidCount (S timeout) 0 [] [] n)
    as (V & I & att & n' & Hrun & Hok & _); [split_and!; simpl; auto with lia|].
  exists V, I, n'. split; [|done]. unfold generateExamples. by rewrite (sampler_bind_run _ _ _ _ _ _ Hrun).
Qed.

(** C22: the [while] loop ends by its own test: it makes at most 500
    attempts, and when it stops either the 500 attempts are spent or both
    buckets hold exactly the requested number of grids; the fuel of the
    model is never what stops it, since any larger fuel gives the same
    result. *)
Theorem generateExamples_attempts rs r validCount invalidCount n :
  (∀ k, (0 <= rs k)%Q ∧ (rs k < 1)%Q) → has_type FRule r →
  ∃ V I att n',
    examples_loop (M:=Sampler) r validCount invalidCount (S timeout) 0 [] [] rs n = Ok ((V, I, att), n') ∧
    att ≤ timeout ∧ (att = timeout ∨ (length V = validCount ∧ length I = invalidCount)) ∧
    ∀ fuel, timeout < fuel →
      examples_loop (M:=Sampler) r validCount invalidCount fuel 0 [] [] rs n = Ok ((V, I, att), n').
Proof.
  intros Hrs Hr.
  destruct (examples_loop_spec rs Hrs r Hr validCount invalidCount (S timeout) 0 [] [] n)
    as (V & I & att & n' & Hrun & (_ & _ & HV & HI) & _ & _ & Ha & Hend & Hle);
    [split_and!; simpl; auto with lia|].
  exists V, I, att, n'. specialize (Hle ltac:(lia)). split_and!; [done|lia| |].
  - destruct (decide (att = timeout)); [by left|right]. destruct Hend; [unfold timeout in *; lia|lia].
  - intros fuel Hf. rewrite <- Hrun. apply (examples_loop_fuel rs Hrs r Hr); [split_and!; simpl; auto with lia|lia|lia|lia].
Qed.


(** ** [shuffleArray] in the stream semantics *)

Lemma insert_perm_cons {A} (l : list A) j x y :
  l !! j = Some y → y :: <[j:=x]> l ≡ₚ x :: l.
Proof.
  revert j. induction l as [|w l IH]; intros [|j] Hj; simplify_eq/=; [apply Permutation_swap|].
  etrans; [apply Permutation_swap|]. etrans; [apply Permutation_skip, IH, Hj|].
  apply Permutation_swap.
Qed.

(** Exchanging two elements of a list permutes it. *)
Lemma swap_perm {A} (l : list A) i j x y :
  l !! i = Some x → l !! j = Some y → <[j:=x]> (<[i:=y]> l) ≡ₚ l.
Proof.
  revert i j. induction l as [|z l IH]; intros [|i] [|j] Hi Hj; simplify_eq/=.
  - done.
  - by apply insert_perm_cons.
  - by apply insert_perm_cons.
  - apply Permutation_skip. by apply IH.
Qed.

Lemma js_get_lookup {A} (a : js_array A) j x : a !! j = Some x → js_get a j = x.
Proof. unfold js_get. by intros ->. Qed.

Lemma js_set_in {A} (a : js_array A) j v : j < length a → js_set a j v = <[j:=v]> a.
Proof. unfold js_set. intros Hj. by rewrite decide_True. Qed.

(** Inside the array, [js_swap] is the exchange of two elements. *)
Lemma js_swap_perm {A} (a : js_array A) i j :
  i < length a → j < length a → js_swap a i j ≡ₚ a ∧ length (js_swap a i j) = length a.
Proof.
  intros Hi Hj. destruct (lookup_lt_is_Some_2 a i Hi) as [x Hx].
  destruct (lookup_lt_is_Some_2 a j Hj) as [y Hy].
  unfold js_swap. rewrite (js_get_lookup a i x Hx), (js_get_lookup a j y Hy).
  rewrite (js_set_in a i), js_set_in by (rewrite ?length_insert; done).
  split; [by apply swap_perm|by rewrite !length_insert].
Qed.

Lemma shuffle_loop_perm {A} rs (Hrs : ∀ k, (0 <= rs k)%Q ∧ (rs k < 1)%Q) fuel i (a : js_array A) n :
  length a - i < fuel →
  ∃ a' n', shuffle_loop (M:=Sampler) fuel i a rs n = Ok (a', n') ∧ a' ≡ₚ a.
Proof.
  revert i a n. induction fuel as [|fuel IH]; intros i a n Hf; [lia|].
  cbn [shuffle_loop]. case_decide as Hi; [|by exists a, n].
  set (j := floor_index (rs n) (length a - i)).
  assert (Hj : j < length a - i) by (destruct (Hrs n); apply floor_index_lt; [done|done|lia]).
  rewrite (sampler_bind_run _ _ _ _ j (S n)) by done.
  destruct (js_swap_perm a i (j + i)) as [Hp Hl]; [lia|lia|].
  destruct (IH (S i) (js_swap a i (j + i)) (S n)) as (a' & n' & Hrun & Hp'); [lia|].
  exists a', n'. split; [done|by rewrite Hp'].
Qed.

(** C28: with draws in [0,1), [shuffleArray] returns a permutation
    of its array: the index [j] stays inside the array, so no [undefined]
    is read or written, and the [a.length + 1] loop tests suffice. *)
Theorem shuffleArray_perm {A} rs (a : js_array A) n :
  (∀ k, (0 <= rs k)%Q ∧ (rs k < 1)%Q) →
  ∃ a' n', shuffleArray (M:=Sampler) a rs n = Ok (a', n') ∧ a' ≡ₚ a.
Proof. intros Hrs. apply shuffle_loop_perm; [done|lia]. Qed.

(** ** Witnesses *)

(** The rule with no [match]: [template.match ?? (_ => true)] holds on
    every grid. *)
Definition always_true : inst := Inst "" "" None [] 0.

Lemma always_true_typed : has_type FRule always_true.
Proof. intros g _. by eexists. Qed.

Lemma randomGrid_exact_witness :
  ∃ g n', randomGrid (M:=Sampler) half_stream 0 = Ok (g, n') ∧
          length g = 9 ∧ count_filled g = 3 + 3 ∧ grid_ok g.
Proof.
  apply (randomGrid_exact half_stream 0 3); [exact half_stream_bounded|].
  split; vm_compute; [intros H; discriminate H|reflexivity].
Defined.

Lemma generateExamples_spec_witness :
  ∃ V I n', generateExamples (M:=Sampler) (Some always_true) 2 2 half_stream 0 = Ok (V ++ I, n') ∧
            buckets_ok always_true 2 2 V I.
Proof. apply generateExamples_spec; [exact half_stream_bounded|exact always_true_typed]. Defined.

Lemma generateExamples_attempts_witness :
  ∃ V I att n',
    examples_loop (M:=Sampler) always_true 1 0 (S timeout) 0 [] [] half_stream 0 = Ok ((V, I, att), n') ∧
    att ≤ timeout ∧ (att = timeout ∨ (length V = 1 ∧ length I = 0)) ∧
    ∀ fuel, timeout < fuel →
      examples_loop (M:=Sampler) always_true 1 0 fuel 0 [] [] half_stream 0 = Ok ((V, I, att), n').
Proof. apply generateExamples_attempts; [exact half_stream_bounded|exact always_true_typed]. Defined.


Lemma shuffleArray_perm_witness :
  ∃ a' n', shuffleArray (M:=Sampler) [Some 1; Some 2; Some 3] half_stream 0 = Ok (a', n') ∧
           a' ≡ₚ [Some 1; Some 2; Some 3].
Proof. apply shuffleArray_perm. exact half_stream_bounded. Defined.
