(* ===== verification/GridDist.v ===== *)
(** * The distribution of [randomGrid]

    The spec (section 4.4) says that [randomGrid] (src/js/zendo-prototype.js
    lines 262-275) "places exactly [k] symbols among the 9 cells with each
    [k]-subset equally likely", the colour and shape of each symbol being
    uniform over three values.  This file runs [randomGrid] (Examples.v) in
    the distribution semantics [Dist] of Random.v and computes the exact
    probability of every grid: a grid with [n ≥ 3] symbols of valid colour
    and shape comes out with probability [1/7 · 1/(C(9,n) · 9^n)], and
    every other grid with probability 0.  The proof is an invariant of the
    selection-sampling loop [fill_cells]: from cell [i], with [r] symbols
    still to place among the [m] remaining cells, each way of filling the
    remaining cells with exactly [r] symbols has probability
    [1/(C(m,r) · 9^r)]. *)

From Stdlib Require Import QArith Lqa.
From S2P Require Import Prelude Grid Random Examples.
Close Scope Q_scope.

(** ** Binomial coefficients *)

(** [C(n,k)] by Pascal's rule. *)
Fixpoint choose (n k : nat) : nat :=
  match n, k with
  | _, 0 => 1
  | 0, S _ => 0
  | S n', S k' => choose n' k' + choose n' k
  end.

Lemma choose_0_r n : choose n 0 = 1.
Proof. by destruct n. Qed.

Lemma choose_gt n k : n < k → choose n k = 0.
Proof.
  revert k. induction n as [|n IH]; intros [|k] Hk; simpl; [lia|done|lia|].
  rewrite !IH by lia. done.
Qed.

(** [(k+1) · C(n+1,k+1) = (n+1) · C(n,k)] *)
Lemma choose_succ_mul n k : choose (S n) (S k) * S k = S n * choose n k.
Proof.
  revert k. induction n as [|n IH]; intros k.
  - destruct k; simpl; lia.
  - change (choose (S (S n)) (S k)) with (choose (S n) k + choose (S n) (S k)).
    destruct k as [|k].
    + pose proof (IH 0) as H0. rewrite !choose_0_r in *. lia.
    + pose proof (IH k). pose proof (IH (S k)).
      change (choose (S n) (S (S k))) with (choose n (S k) + choose n (S (S k))) in *.
      change (choose (S n) (S k)) with (choose n k + choose n (S k)) in *. nia.
Qed.

(** [C(n+1,k) · (n+1-k) = (n+1) · C(n,k)] *)
Lemma choose_succ_sub n k : choose (S n) k * (S n - k) = S n * choose n k.
Proof.
  revert k. induction n as [|n IH]; intros k.
  - destruct k as [|[|k]]; simpl; lia.
  - destruct k as [|k]; [rewrite !choose_0_r; lia|].
    change (choose (S (S n)) (S k)) with (choose (S n) k + choose (S n) (S k)).
    destruct (decide (k ≤ n)).
    + pose proof (IH k). pose proof (IH (S k)).
      change (choose (S n) (S k)) with (choose n k + choose n (S k)) in *.
      replace (S (S n) - S k) with (S n - k) by lia.
      replace (S n - S k) with (S n - k - 1) in * by lia. nia.
    + rewrite (choose_gt (S n) (S k)) by lia.
      destruct (decide (k = S n)) as [->|]; [lia|]. rewrite choose_gt by lia. lia.
Qed.

Lemma choose_pos m r : r ≤ m → 0 < choose m r.
Proof.
  revert r. induction m as [|m IH]; intros [|r] Hr; simpl; try lia.
  specialize (IH r ltac:(lia)). lia.
Qed.

(** ** Probabilities *)

Definition Qnat (n : nat) : Q := inject_Z (Z.of_nat n).

(** The probability of one particular way of placing [r] symbols, each of
    a chosen colour and shape, on [m] cells: [1/(C(m,r) · 9^r)].  The
    denominator is an integer [Z], so that it evaluates in binary. *)
Definition grid_denom (m r : nat) : Z := (Z.of_nat (choose m r) * 9 ^ Z.of_nat r)%Z.
Definition grid_prob (m r : nat) : Q := / inject_Z (grid_denom m r).

Lemma Qeq_of_eq (x y : Q) : x = y → (x == y)%Q.
Proof. by intros ->. Qed.

Lemma Qnat_pos n : 0 < n → (0 < Qnat n)%Q.
Proof. intros Hn. unfold Qnat. change 0%Q with (inject_Z 0). rewrite <- Zlt_Qlt. lia. Qed.

Lemma grid_denom_pos m r : r ≤ m → (0 < inject_Z (grid_denom m r))%Q.
Proof.
  intros Hr. change 0%Q with (inject_Z 0). rewrite <- Zlt_Qlt. unfold grid_denom.
  pose proof (choose_pos m r Hr). pose proof (Z.pow_pos_nonneg 9 (Z.of_nat r)). nia.
Qed.

(** [C(m+1,r+1) · 9^(r+1) · (r+1) = (m+1) · 9 · C(m,r) · 9^r] *)
Lemma grid_denom_fill m r :
  (grid_denom (S m) (S r) * Z.of_nat (S r) = Z.of_nat (S m) * 9 * grid_denom m r)%Z.
Proof.
  unfold grid_denom. rewrite (Nat2Z.inj_succ r), Z.pow_succ_r by lia. rewrite <- Nat2Z.inj_succ.
  pose proof (choose_succ_mul m r) as H. apply (f_equal Z.of_nat) in H. rewrite !Nat2Z.inj_mul in H.
  transitivity (9 * 9 ^ Z.of_nat r * (Z.of_nat (choose (S m) (S r)) * Z.of_nat (S r)))%Z; [ring|].
  rewrite H. ring.
Qed.

(** [C(m+1,r) · 9^r · (m+1-r) = (m+1) · C(m,r) · 9^r] *)
Lemma grid_denom_skip m r :
  (grid_denom (S m) r * Z.of_nat (S m - r) = Z.of_nat (S m) * grid_denom m r)%Z.
Proof.
  unfold grid_denom. pose proof (choose_succ_sub m r) as H.
  apply (f_equal Z.of_nat) in H. rewrite !Nat2Z.inj_mul in H.
  transitivity (9 ^ Z.of_nat r * (Z.of_nat (choose (S m) r) * Z.of_nat (S m - r)))%Z; [ring|].
  rewrite H. ring.
Qed.

(** Filling the current cell with one given symbol: probability
    [(r+1)/(m+1) · 1/3 · 1/3], then [r] symbols on [m] cells. *)
Lemma grid_prob_fill m r :
  r ≤ m →
  (Qnat (S r) / Qnat (S m) * (1 / 3 * (1 / 3 * grid_prob m r)) == grid_prob (S m) (S r))%Q.
Proof.
  intros Hr. unfold grid_prob.
  pose proof (grid_denom_pos m r Hr) as HA.
  pose proof (grid_denom_pos (S m) (S r) ltac:(lia)) as HB.
  pose proof (Qnat_pos (S m) ltac:(lia)) as HM.
  pose proof (grid_denom_fill m r) as Hn. apply (f_equal inject_Z), Qeq_of_eq in Hn.
  rewrite !inject_Z_mult in Hn. change (inject_Z (Z.of_nat (S r))) with (Qnat (S r)) in Hn.
  change (inject_Z (Z.of_nat (S m))) with (Qnat (S m)) in Hn.
  set (A := inject_Z (grid_denom m r)) in *.
  set (B := inject_Z (grid_denom (S m) (S r))) in *.
  field_simplify_eq; [|lra..]. change (inject_Z 9) with 9%Q in Hn. nra.
Qed.

(** Leaving the current cell empty: probability [1 - r/(m+1)], then [r]
    symbols on [m] cells. *)
Lemma grid_prob_skip m r :
  r ≤ m → ((1 - Qnat r / Qnat (S m)) * grid_prob m r == grid_prob (S m) r)%Q.
Proof.
  intros Hr. unfold grid_prob.
  pose proof (grid_denom_pos m r Hr) as HA.
  pose proof (grid_denom_pos (S m) r ltac:(lia)) as HB.
  pose proof (Qnat_pos (S m) ltac:(lia)) as HM.
  pose proof (grid_denom_skip m r) as Hn. apply (f_equal inject_Z), Qeq_of_eq in Hn.
  rewrite !inject_Z_mult in Hn.
  assert (Hsub : (inject_Z (Z.of_nat (S m - r)) == Qnat (S m) - Qnat r)%Q).
  { unfold Qnat. rewrite Nat2Z.inj_sub by lia. rewrite <- Z.add_opp_r, inject_Z_plus, inject_Z_opp. reflexivity. }
  rewrite Hsub in Hn. change (inject_Z (Z.of_nat (S m))) with (Qnat (S m)) in Hn.
  set (A := inject_Z (grid_denom m r)) in *.
  set (B := inject_Z (grid_denom (S m) r)) in *.
  field_simplify_eq; [|lra..]. nra.
Qed.

(** ** One step of the loop *)

Definition sum3 (f : nat → Q) : Q := (f 0%nat + f 1%nat + f 2%nat)%Q.

(** The cell is filled with probability [q = clamp01(t/(9-i))], with each of
    the nine symbols with probability [1/3 · 1/3]; otherwise it stays
    empty. *)
Lemma mass_fill_step {B} (P : result B → bool) i g t (k : grid * Z → Dist B) :
  let q := clamp01 (inject_Z t / inject_Z (Z.of_nat (9 - i))) in
  (mass P (st ← fill_step (M:=Dist) i (g, t); k st) ==
   q * sum3 (λ c, 1 / 3 * sum3 (λ s, 1 / 3 *
         mass P (k (<[i := Some (mkSymbol c s)]> g, (t - 1)%Z)))) +
   (1 - q) * mass P (k (g, t)))%Q.
Proof.
  intros q. rewrite mass_bind.
  cbn [fill_step mbind RandomMonad_bind RandomMonad_ret mret rand_bind rand_ret Dist_random
       random_lt random_index uniform_index flat_map map seq foldr app].
  change (inject_Z (Z.of_nat 3)) with 3%Q. fold q. unfold sum3. ring.
Qed.

Lemma sum3_ext f h : (∀ n, f n == h n)%Q → (sum3 f == sum3 h)%Q.
Proof. intros H. unfold sum3. by rewrite !H. Qed.

(** Only the symbol [s0] itself is drawn as [s0]. *)
Lemma sum3_pick s0 W :
  color s0 < 3 → shape s0 < 3 →
  (sum3 (λ c, 1 / 3 * sum3 (λ s, 1 / 3 *
     if bool_decide (Some (Some s0) = Some (Some (mkSymbol c s))) then W else 0)) ==
   1 / 3 * (1 / 3 * W))%Q.
Proof.
  destruct s0 as [c0 s0]; simpl; intros Hc Hs. unfold sum3.
  destruct c0 as [|[|[|]]]; [..|lia]; destruct s0 as [|[|[|]]]; try lia;
    repeat match goal with
    | |- context [bool_decide ?P] =>
        (rewrite (bool_decide_eq_true_2 P) by done) ||
        (rewrite (bool_decide_eq_false_2 P) by congruence)
    end; ring.
Qed.

Lemma clamp01_ratio r M :
  r ≤ M → 0 < M → clamp01 (Qnat r / Qnat M) = (Qnat r / Qnat M)%Q.
Proof.
  intros Hr HM. pose proof (Qnat_pos M HM).
  assert (0 <= Qnat r)%Q by (unfold Qnat; change 0%Q with (inject_Z 0); rewrite <- Zle_Qle; lia).
  assert (Qnat r <= Qnat M)%Q by (unfold Qnat; rewrite <- Zle_Qle; lia).
  assert (0 <= Qnat r / Qnat M)%Q by (apply Qle_shift_div_l; lra).
  assert (Qnat r / Qnat M <= 1)%Q by (apply Qle_shift_div_r; lra).
  unfold clamp01. by rewrite !Qltb_false_le by lra.
Qed.

Lemma take_S_insert {A} (l : list A) i y :
  i < length l → take (S i) (<[i := y]> l) = take i l ++ [y].
Proof.
  intros Hi. rewrite (take_S_r _ _ y) by (by apply list_lookup_insert_eq).
  by rewrite take_insert_ge by lia.
Qed.

Lemma count_filled_drop (g : grid) i (x : cell) :
  g !! i = Some x →
  count_filled (drop i g) = match x with Some _ => 1 | None => 0 end + count_filled (drop (S i) g).
Proof.
  intros Hx. rewrite (drop_S _ _ _ Hx). unfold count_filled.
  destruct x; [rewrite filter_cons_True by done|rewrite filter_cons_False by by intros [? ?]];
    simpl; lia.
Qed.

Lemma count_filled_le l : count_filled l ≤ length l.
Proof. apply length_filter. Qed.

(** The outcome "the loop ends on grid [g]", whatever its counter. *)
Definition is_grid (g : grid) (res : result (grid * Z)) : bool :=
  match res with Ok (g', _) => bool_decide (g' = g) | Err _ => false end.

(** ** The loop invariant *)

Section fill_cells_dist.
Context (g : grid).
Hypothesis Hg : length g = 9.
Hypothesis Hok : grid_ok g.

(** The probability that the loop from cell [i], on a grid [g0] whose
    cells from [i] on are empty, with [r] symbols to place among the
    [m = 9 - i] remaining cells, ends on [g]. *)
Definition fill_value (i m : nat) (g0 : grid) (r : nat) : Q :=
  if bool_decide (take i g = take i g0 ∧ count_filled (drop i g) = r) then grid_prob m r else 0.

Definition fill_inv (m : nat) : Prop :=
  ∀ i g0 r, i + m = 9 → length g0 = 9 → (∀ j, i ≤ j < 9 → g0 !! j = Some None) → r ≤ m →
  (mass (is_grid g) (fill_cells (M:=Dist) (seq i m) (g0, Z.of_nat r)) == fill_value i m g0 r)%Q.

Lemma fill_inv_0 : fill_inv 0.
Proof.
  intros i g0 r Him Hl0 _ Hr. assert (r = 0) as -> by lia. assert (i = 9) as -> by lia.
  unfold fill_value. rewrite !take_ge, drop_ge by lia.
  cbn [seq fill_cells mret RandomMonad_ret rand_ret Dist_random mass foldr is_grid].
  case_bool_decide as H1; case_bool_decide as H2; [vm_compute; reflexivity| | |reflexivity];
    exfalso; naive_solver.
Qed.

Section step.
Context (m : nat) (IH : fill_inv m) (i : nat) (g0 : grid).
Hypothesis Him : i + S m = 9.
Hypothesis Hl0 : length g0 = 9.
Hypothesis Hfree : ∀ j, i ≤ j < 9 → g0 !! j = Some None.

Lemma take_S_g0 : take (S i) g0 = take i g0 ++ [None].
Proof. apply take_S_r, Hfree. lia. Qed.

Lemma Qnat_div_diag n : 0 < n → (Qnat n / Qnat n == 1)%Q.
Proof. intros Hn. pose proof (Qnat_pos n Hn). field. lra. Qed.

(** The branch [Math.random() >= fillTarget/(9-i)]: cell [i] stays empty. *)
Lemma skip_branch r :
  r ≤ S m →
  ((1 - Qnat r / Qnat (S m)) * mass (is_grid g) (fill_cells (M:=Dist) (seq (S i) m) (g0, Z.of_nat r)) ==
   if bool_decide (take i g = take i g0 ∧ occupied g i = false ∧ count_filled (drop (S i) g) = r)
   then grid_prob (S m) r else 0)%Q.
Proof.
  intros Hr. destruct (decide (r = S m)) as [->|Hr'].
  - rewrite Qnat_div_diag by lia. rewrite bool_decide_eq_false_2; [ring|].
    intros (_ & _ & Hc). pose proof (count_filled_le (drop (S i) g)).
    rewrite length_drop in *. lia.
  - rewrite (IH (S i) g0 r) by (done || lia || (intros; apply Hfree; lia)).
    unfold fill_value. destruct (lookup_lt_is_Some_2 g i ltac:(lia)) as [x Hx].
    rewrite (take_S_r _ _ _ Hx), take_S_g0. unfold occupied. rewrite Hx.
    case_bool_decide as H1; case_bool_decide as H2.
    + apply grid_prob_skip. lia.
    + exfalso. destruct H1 as [[? ->]%app_inj_tail ?]. naive_solver.
    + exfalso. destruct H2 as (Ht & Ho & Hc). destruct x; [done|].
      apply H1. split; [by rewrite Ht|done].
    + ring.
Qed.

(** The branch [Math.random() < fillTarget/(9-i)]: cell [i] gets one of
    the nine symbols. *)
Lemma fill_branch r :
  r ≤ S m →
  (Qnat r / Qnat (S m) *
     sum3 (λ c, 1 / 3 * sum3 (λ s, 1 / 3 * mass (is_grid g)
       (fill_cells (M:=Dist) (seq (S i) m) (<[i := Some (mkSymbol c s)]> g0, (Z.of_nat r - 1)%Z)))) ==
   if bool_decide (take i g = take i g0 ∧ occupied g i = true ∧ S (count_filled (drop (S i) g)) = r)
   then grid_prob (S m) r else 0)%Q.
Proof.
  intros Hr. destruct r as [|r].
  - rewrite bool_decide_eq_false_2 by (intros (_ & _ & ?); lia).
    change (Qnat 0) with 0%Q. unfold Qdiv. ring.
  - replace (Z.of_nat (S r) - 1)%Z with (Z.of_nat r) by lia.
    set (W := if bool_decide (take i g = take i g0 ∧ count_filled (drop (S i) g) = r)
              then grid_prob m r else 0%Q).
    destruct (lookup_lt_is_Some_2 g i ltac:(lia)) as [x Hx].
    assert (Hterm : ∀ c s,
      (mass (is_grid g) (fill_cells (M:=Dist) (seq (S i) m) (<[i := Some (mkSymbol c s)]> g0, Z.of_nat r)) ==
       if bool_decide (Some x = Some (Some (mkSymbol c s))) then W else 0)%Q).
    { intros c s. rewrite (IH (S i) (<[i := Some (mkSymbol c s)]> g0) r);
        [|lia|by rewrite length_insert| |lia]; last first.
      { intros j Hj. rewrite list_lookup_insert_ne by lia. apply Hfree. lia. }
      unfold fill_value. rewrite (take_S_r _ _ _ Hx), take_S_insert by lia.
      case_bool_decide as H1.
      - destruct H1 as [[Ht ->]%app_inj_tail Hc]. subst W. by rewrite !bool_decide_eq_true_2.
      - case_bool_decide as H2; [|reflexivity]. injection H2 as ->. subst W.
        rewrite bool_decide_eq_false_2; [reflexivity|]. intros [Ht Hc]. apply H1. by rewrite Ht. }
    assert (Hsum : (sum3 (λ c, 1 / 3 * sum3 (λ s, 1 / 3 * mass (is_grid g)
       (fill_cells (M:=Dist) (seq (S i) m) (<[i := Some (mkSymbol c s)]> g0, Z.of_nat r)))) ==
       sum3 (λ c, 1 / 3 * sum3 (λ s, 1 / 3 *
         if bool_decide (Some x = Some (Some (mkSymbol c s))) then W else 0)))%Q).
    { apply sum3_ext. intros c. apply Qmult_comp; [reflexivity|].
      apply sum3_ext. intros s. by rewrite Hterm. }
    rewrite Hsum. unfold occupied. rewrite Hx. destruct x as [s0|].
    + rewrite sum3_pick by (apply (Hok i s0 Hx)). subst W.
      case_bool_decide as H1; case_bool_decide as H2.
      * apply grid_prob_fill. lia.
      * exfalso. naive_solver.
      * exfalso. naive_solver.
      * ring.
    + rewrite bool_decide_eq_false_2 by (intros (_ & ? & _); done).
      unfold sum3. rewrite !bool_decide_eq_false_2 by congruence. ring.
Qed.
End step.

(** The invariant holds for every number of remaining cells. *)
Lemma fill_cells_mass m : fill_inv m.
Proof.
  induction m as [|m IH]; [apply fill_inv_0|].
  intros i g0 r Him Hl0 Hfree Hr.
  cbn [seq fill_cells]. pose proof (mass_fill_step (is_grid g) i g0 (Z.of_nat r)
    (fill_cells (M:=Dist) (seq (S i) m))) as Hs. cbv zeta in Hs. rewrite Hs. clear Hs.
  replace (9 - i) with (S m) by lia.
  change (inject_Z (Z.of_nat r)) with (Qnat r). change (inject_Z (Z.of_nat (S m))) with (Qnat (S m)).
  rewrite clamp01_ratio by lia.
  rewrite (fill_branch m IH i g0) by done. rewrite (skip_branch m IH i g0) by done.
  unfold fill_value. destruct (lookup_lt_is_Some_2 g i ltac:(lia)) as [x Hx].
  rewrite (count_filled_drop _ _ _ Hx). unfold occupied. rewrite Hx.
  destruct x; repeat case_bool_decide; try ring; exfalso; naive_solver lia.
Qed.
End fill_cells_dist.

(** ** The distribution of [randomGrid] *)

(** The outcome "[randomGrid()] returns [g]". *)
Definition returns (g : grid) (res : result grid) : bool :=
  match res with Ok g' => bool_decide (g' = g) | Err _ => false end.

(** [const [g, _] = ...; return g]: the grid component of the outcome. *)

(** [const [g, _] = ...; return g]: the grid component of the outcome. *)
Lemma mass_fst (d : Dist (grid * Z)) g :
  (mass (returns g) ('(g', _) ← d; mret g') == mass (is_grid g) d)%Q.
Proof.
  rewrite mass_bind. induction d as [|[[[g' t]|e] p] d IH]; [done| |];
    cbn [foldr mass is_grid returns mret RandomMonad_ret rand_ret Dist_random]; rewrite IH;
    fold (mass (is_grid g) d); [case_bool_decide|]; ring.
Qed.

Lemma fill_start g k :
  length g = 9 → grid_ok g → k < 7 →
  (mass (is_grid g) (fill_cells (M:=Dist) (seq 0 9) (empty_grid, (Z.of_nat k + 3)%Z)) ==
   if bool_decide (count_filled g = k + 3)%nat then grid_prob 9 (k + 3) else 0)%Q.
Proof.
  intros Hg Hok Hk. replace (Z.of_nat k + 3)%Z with (Z.of_nat (k + 3)) by lia.
  rewrite (fill_cells_mass g Hg Hok 9 0 empty_grid (k + 3)); [|done|done| |lia].
  - unfold fill_value. cbn [take drop]. by rewrite (bool_decide_ext _ (count_filled g = k + 3)%nat) by naive_solver.
  - intros j Hj. apply lookup_replicate. split; [done|lia].
Qed.



(** The outcomes of [randomGrid()] after the draw [k] of the fill target. *)
Lemma randomGrid_after_draw g k :
  length g = 9 → grid_ok g → k < 7 →
  (mass (returns g) ('(g', _) ← fill_cells (M:=Dist) (seq 0 9) (empty_grid, (Z.of_nat k + 3)%Z); mret g') ==
   if bool_decide (count_filled g = k + 3)%nat then grid_prob 9 (k + 3) else 0)%Q.
Proof. intros Hg Hok Hk. rewrite (mass_fst _ g). exact (fill_start g k Hg Hok Hk). Qed.

(** [Math.floor(Math.random() * 7)] takes each of its seven values with
    probability [1/7]. *)
Lemma mass_index_7 {B} (P : result B → bool) (f : nat → Dist B) :
  (mass P (k ← random_index (M:=Dist) 7; f k) ==
   1 / 7 * mass P (f 0%nat) + (1 / 7 * mass P (f 1%nat) + (1 / 7 * mass P (f 2%nat) +
   (1 / 7 * mass P (f 3%nat) + (1 / 7 * mass P (f 4%nat) + (1 / 7 * mass P (f 5%nat) +
   (1 / 7 * mass P (f 6%nat) + 0)))))))%Q.
Proof. rewrite mass_bind. reflexivity. Qed.

Lemma randomGrid_by_draw g :
  (mass (returns g) (randomGrid (M:=Dist)) ==
   let f k := ('(g', _) ← fill_cells (M:=Dist) (seq 0 9) (empty_grid, (Z.of_nat k + 3)%Z); mret g') in
   1 / 7 * mass (returns g) (f 0%nat) + (1 / 7 * mass (returns g) (f 1%nat) +
   (1 / 7 * mass (returns g) (f 2%nat) + (1 / 7 * mass (returns g) (f 3%nat) +
   (1 / 7 * mass (returns g) (f 4%nat) + (1 / 7 * mass (returns g) (f 5%nat) +
   (1 / 7 * mass (returns g) (f 6%nat) + 0)))))))%Q.
Proof.
  exact (mass_index_7 (returns g)
    (λ k, '(g', _) ← fill_cells (M:=Dist) (seq 0 9) (empty_grid, (Z.of_nat k + 3)%Z); mret g')).
Qed.

(** Settle every [bool_decide] of the goal whose proposition is closed. *)
Local Ltac decide_closed :=
  repeat match goal with
  | |- context [bool_decide ?P] =>
      (rewrite (bool_decide_eq_true_2 P) by (done || lia)) ||
      (rewrite (bool_decide_eq_false_2 P) by (congruence || lia))
  end.

(** C6: Selection sampling is exact and uniform (spec section 4.4): in the
    distribution semantics, [randomGrid()] returns a given 9-cell grid
    whose symbols have valid colours and shapes with probability
    [1/7 · 1/(C(9,n) · 9^n)] when the grid holds [n ≥ 3] symbols, and with
    probability 0 when it holds fewer: the fill target is uniform over
    [3..9], every set of [n] cells is equally likely, and every symbol is
    uniform over the nine colour-shape pairs. *)
Theorem randomGrid_distribution g :
  length g = 9 → grid_ok g →
  (mass (returns g) (randomGrid (M:=Dist)) ==
   if decide (3 ≤ count_filled g) then 1 / 7 * grid_prob 9 (count_filled g) else 0)%Q.
Proof.
  intros Hg Hok. rewrite (randomGrid_by_draw g). cbv beta zeta.
  rewrite (randomGrid_after_draw g 0), (randomGrid_after_draw g 1), (randomGrid_after_draw g 2),
    (randomGrid_after_draw g 3), (randomGrid_after_draw g 4), (randomGrid_after_draw g 5),
    (randomGrid_after_draw g 6) by (done || lia).
  pose proof (count_filled_le g) as Hle. rewrite Hg in Hle.
  destruct (count_filled g) as [|[|[|[|[|[|[|[|[|[|]]]]]]]]]]; [..|lia];
    destruct (decide _); try lia; decide_closed; cbn [Nat.add]; ring.
Qed.

(** A grid with one symbol of each colour on the diagonal. *)
Definition diagonal_grid : grid :=
  [Some (mkSymbol 0 0); None; None; None; Some (mkSymbol 1 1); None; None; None; Some (mkSymbol 2 2)].

Lemma diagonal_grid_ok : grid_ok diagonal_grid.
Proof.
  intros j s Hj. do 9 (destruct j as [|j]; [cbn in Hj; simplify_eq; cbn; lia|]). done.
Qed.

(** The diagonal grid comes out with probability [1/7 · 1/(C(9,3) · 9^3)]. *)
Lemma randomGrid_distribution_witness :
  (mass (returns diagonal_grid) (randomGrid (M:=Dist)) == 1 # 428652)%Q.
Proof.
  rewrite (randomGrid_distribution diagonal_grid); [vm_compute; reflexivity|reflexivity|].
  exact diagonal_grid_ok.
Defined.
