(* ===== verification/UI.v ===== *)
(** * The module's UI state machine

    src/js/zendo-prototype.js lines 7-41 and 157-282: the global variables
    of the page and the event handlers that change them.  The globals are
    the fields of [ui_state] ([grid] is [ui_grid], since [grid] names the
    type of grids); each handler is a function [ui_state → M ui_state] in
    the [RandomMonad] interface, composed of the same calls as the code:
    [setDisplayGrid], [setModuleState], [generateChallenge],
    [resetModule], [setColor], [setShape], [erasePress], [buttonPress] and
    [gridOnClick].  A handler that throws leaves the globals it already
    assigned; in the model a throw aborts the step, and the theorems show
    that from a reachable state no handler throws (with draws in (0,1)),
    so no partial update is ever observed.

    [refreshDisplay] (lines 54-155) only writes to the DOM, except that it
    evaluates [rule.match(grid)], which could throw: it is modelled as that
    evaluation.  [showRule], read from a checkbox, only selects the text
    shown, and the canvas scaling and console messages are not modelled.

    [reachable] is the set of states the page can be in: the globals'
    initial values after the [resetModule()] of line 844, closed under the
    handlers, every handler run on its own stream of draws in [0,1).  Its
    invariant [ui_inv] bounds the stage counter ([stage_bounds]); on top
    of it, [pressButtons] runs a sequence of button clicks, and the
    liveness theorems say that Y/N clicks end every challenge and that the
    right ones solve it. *)

From Stdlib Require Import QArith Qround Lqa.
From S2P Require Import Prelude Grid Grammar Eval Instantiate Typing Random Generator Examples.
Close Scope Q_scope.

(** The values of [moduleState]: "edit", "challenge", "solved", "failed". *)
Inductive mode := Edit | Challenge | Solved | Failed.

#[export] Instance mode_eq_dec : EqDecision mode.
Proof. solve_decision. Defined.

(** The [button] argument of [buttonPress]: "y", "n", "ready". *)
Inductive button := BtnY | BtnN | BtnReady.

#[export] Instance button_eq_dec : EqDecision button.
Proof. solve_decision. Defined.

Definition stageTotal : nat := 5.

Record ui_state := mkState {
  ui_grid : grid;
  rule : option inst;
  brushColor : nat;
  brushShape : nat;
  brushErase : bool;
  moduleState : mode;
  stageNumber : nat;
  challenge : js_array grid;
}.

(** Assignments to the globals. *)
Definition set_grid (s : ui_state) (g : grid) : ui_state :=
  let 'mkState _ r c sh e m k ch := s in mkState g r c sh e m k ch.
Definition set_rule (s : ui_state) (r : option inst) : ui_state :=
  let 'mkState g _ c sh e m k ch := s in mkState g r c sh e m k ch.
Definition set_brush (s : ui_state) (c sh : nat) (e : bool) : ui_state :=
  let 'mkState g r _ _ _ m k ch := s in mkState g r c sh e m k ch.
Definition set_mode (s : ui_state) (m : mode) : ui_state :=
  let 'mkState g r c sh e _ k ch := s in mkState g r c sh e m k ch.
Definition set_stage (s : ui_state) (k : nat) : ui_state :=
  let 'mkState g r c sh e m _ ch := s in mkState g r c sh e m k ch.
Definition set_challenge (s : ui_state) (ch : js_array grid) : ui_state :=
  let 'mkState g r c sh e m k _ := s in mkState g r c sh e m k ch.

(** The initial values of the globals (lines 7-18). *)
Definition init_state : ui_state :=
  mkState (replicate 9 None) None 0 0 false Edit 1 [].

(** JS [answer == actual] for a boolean [answer]: against an array the
    array is converted to a string and then to a number ("" is 0, a single
    number is itself, anything with a comma is NaN). *)
Definition groups_number (gs : list (list nat)) : option nat :=
  match gs with
  | [] | [[]] => Some 0
  | [[k]] => Some k
  | _ => None
  end.

Definition loose_eq_bool (answer : bool) (v : val) : bool :=
  match v with
  | VBool b => Bool.eqb answer b
  | VGroups gs =>
      match groups_number gs with
      | Some k => bool_decide (k = if answer then 1 else 0)
      | None => false
      end
  end.

Section handlers.
Context `{RandomMonad M}.

(** [refreshDisplay()]: [rule && rule.match(grid)] (line 55). *)
Definition refreshDisplay (s : ui_state) : M unit :=
  match rule s with
  | None => mret ()
  | Some r => _ ← of_result (inst_match r (ui_grid s) AUndef); mret ()
  end.

(** [for (i < 9) grid[i] = g[i]] on the 9 cells of the global grid; every
    grid passed has 9 cells, so no [undefined] is copied.  [g[i]] on
    [undefined] ([challenge[0]] of an empty challenge) is a TypeError. *)
Definition setDisplayGrid (g : option grid) (s : ui_state) : M ui_state :=
  match g with
  | None => rand_throw TypeError
  | Some g =>
      let s := set_grid s (map (λ i, default None (g !! i)) (seq 0 9)) in
      _ ← refreshDisplay s;
      mret s
  end.

Definition generateChallenge (s : ui_state) : M ui_state :=
  exs ← generateExamples (rule s) (stageTotal - 1) (stageTotal - 1);
  sh ← shuffleArray (map Some exs);
  let s := set_challenge s (take stageTotal sh) in
  s ← setDisplayGrid (js_get (challenge s) 0) s;
  mret (set_stage s 0).

Definition setModuleState (newState : mode) (s : ui_state) : M ui_state :=
  let s := set_mode s newState in
  s ← (if decide (newState = Challenge) then generateChallenge s else mret s);
  _ ← refreshDisplay s;
  mret s.

(** [resetModule()] (lines 20-41); the new rule is read back from the
    global by [generateExamples]. *)
Definition resetModule (s : ui_state) : M ui_state :=
  r ← randomRule;
  let s := set_rule s (Some r) in
  let s := set_brush s 0 0 false in
  exs ← generateExamples (rule s) 1 0;
  s ← (if decide (length exs = 1) then setDisplayGrid (js_get (map Some exs) 0) s
       else setDisplayGrid (Some (replicate 9 None)) s);
  setModuleState Edit s.

Definition setColor (newColor : nat) (s : ui_state) : M ui_state :=
  let s := set_brush s newColor (brushShape s) false in
  _ ← refreshDisplay s; mret s.

Definition setShape (newShape : nat) (s : ui_state) : M ui_state :=
  let s := set_brush s (brushColor s) newShape false in
  _ ← refreshDisplay s; mret s.

Definition erasePress (s : ui_state) : M ui_state :=
  if decide (moduleState s = Challenge) then mret s
  else if brushErase s then setDisplayGrid (Some (replicate 9 None)) s
  else
    let s := set_brush s (brushColor s) (brushShape s) true in
    _ ← refreshDisplay s; mret s.

(** The y/n buttons outside challenge mode: one example of the wanted kind,
    shown when one was found. *)
Definition showExample (validCount invalidCount : nat) (s : ui_state) : M ui_state :=
  exs ← generateExamples (rule s) validCount invalidCount;
  if decide (length exs = 1) then setDisplayGrid (js_get (map Some exs) 0) s else mret s.

Definition buttonPress (b : button) (s : ui_state) : M ui_state :=
  if decide (moduleState s = Challenge) then
    match b with
    | BtnReady => setModuleState Edit s
    | BtnY | BtnN =>
        let answer := bool_decide (b = BtnY) in
        r ← of_result (match rule s with Some r => Ok r | None => Err TypeError end);
        actual ← of_result (inst_match r (ui_grid s) AUndef);
        if loose_eq_bool answer actual then
          let s := set_stage s (S (stageNumber s)) in
          if decide (stageNumber s < length (challenge s)) then
            setDisplayGrid (js_get (challenge s) (stageNumber s)) s
          else setModuleState Solved s
        else setModuleState Failed s
    end
  else
    match b with
    | BtnY => showExample 1 0 s
    | BtnN => showExample 0 1 s
    | BtnReady => if decide (moduleState s = Edit) then setModuleState Challenge s else resetModule s
    end.

(** [Math.min(Math.max(0, Math.floor(x * 3)), 2)] *)
Definition click_index (x : Q) : Z := Z.min (Z.max 0 (Qfloor (x * 3))) 2.

(** [gridOnClick(event)] with [x = offsetX / clientWidth] and
    [y = offsetY / clientWidth]. *)
Definition gridOnClick (x y : Q) (s : ui_state) : M ui_state :=
  if decide (moduleState s = Challenge) then mret s
  else
    let i := Z.to_nat (click_index x + click_index y * 3) in
    let cell := if brushErase s then None else Some (mkSymbol (brushColor s) (brushShape s)) in
    let s := set_grid s (<[i := cell]> (ui_grid s)) in
    _ ← refreshDisplay s; mret s.
End handlers.

(** The page's events: the palette, the eraser, the three buttons and a
    click on the grid. *)
Inductive event :=
  | EvSetColor (c : nat)
  | EvSetShape (sh : nat)
  | EvErase
  | EvButton (b : button)
  | EvClick (x y : Q).

Definition handle `{RandomMonad M} (ev : event) (s : ui_state) : M ui_state :=
  match ev with
  | EvSetColor c => setColor c s
  | EvSetShape sh => setShape sh s
  | EvErase => erasePress s
  | EvButton b => buttonPress b s
  | EvClick x y => gridOnClick x y s
  end.

(** Presses of the three buttons, one [onclick] after the other. *)
Fixpoint pressButtons `{RandomMonad M} (bs : list button) (s : ui_state) : M ui_state :=
  match bs with
  | [] => mret s
  | b :: bs => s ← buttonPress b s; pressButtons bs s
  end.

(** Draws of [Math.random()]. *)
Definition draws_ok (rs : nat → Q) : Prop := ∀ k, (0 <= rs k)%Q ∧ (rs k < 1)%Q.

Inductive reachable : ui_state → Prop :=
  | reach_load rs n s n' :
      draws_ok rs → resetModule (M:=Sampler) init_state rs n = Ok (s, n') → reachable s
  | reach_step s ev rs n s' n' :
      reachable s → draws_ok rs → handle (M:=Sampler) ev s rs n = Ok (s', n') → reachable s'.

(** ** The invariant of the globals *)

(** The rule is set and well typed. *)
Definition rule_ok (s : ui_state) : Prop := ∃ r, rule s = Some r ∧ has_type FRule r.

(** Every entry of the challenge is a 9-cell grid (never [undefined]). *)
Definition challenge_ok (ch : js_array grid) : Prop :=
  Forall (λ c, ∃ g, c = Some g ∧ length g = 9) ch.

(** The counter [stageNumber] and the challenge's length stay within
    [stageTotal], and a solved module has passed every stage. *)
Definition stage_bounds (m : mode) (k : nat) (ch : js_array grid) : Prop :=
  length ch ≤ stageTotal ∧ k ≤ stageTotal ∧ (m = Solved → k = length ch).

(** The displayed grid has 9 cells, the rule is well typed, the challenge
    holds 9-cell grids, in challenge mode the displayed grid is the
    challenge grid of the current stage, and the stage is bounded. *)
Definition ui_inv (s : ui_state) : Prop :=
  length (ui_grid s) = 9 ∧ rule_ok s ∧ challenge_ok (challenge s) ∧
  (moduleState s = Challenge → challenge s !! stageNumber s = Some (Some (ui_grid s))) ∧
  stage_bounds (moduleState s) (stageNumber s) (challenge s).

(** The ready button outside edit and challenge modes starts a new rule. *)
Definition resets (ev : event) (s : ui_state) : Prop :=
  ev = EvButton BtnReady ∧ moduleState s ≠ Edit ∧ moduleState s ≠ Challenge.

Lemma stage_bounds_unsolved m m' k ch :
  stage_bounds m k ch → m' ≠ Solved → stage_bounds m' k ch.
Proof. intros (? & ? & _) ?. split_and!; [done|done|by intros]. Qed.

Lemma copy_cells_9 (g : grid) : length g = 9 → map (λ i, default None (g !! i)) (seq 0 9) = g.
Proof. intros Hg. do 10 (destruct g as [|? g]; simpl in Hg; try lia). done. Qed.

Section runs.
Context (rs : nat → Q).
Hypothesis Hrs : draws_ok rs.

Lemma refresh_run s n :
  rule_ok s → length (ui_grid s) = 9 → refreshDisplay (M:=Sampler) s rs n = Ok ((), n).
Proof.
  intros (r & Hr & Ht) Hg. unfold refreshDisplay. rewrite Hr.
  destruct (Ht _ Hg) as [b Hb]. unfold mbind, RandomMonad_bind. simpl. by rewrite Hb.
Qed.

Lemma setDisplayGrid_run s g n :
  rule_ok s → length g = 9 → setDisplayGrid (M:=Sampler) (Some g) s rs n = Ok (set_grid s g, n).
Proof.
  intros Hr Hg. unfold setDisplayGrid. rewrite copy_cells_9 by done.
  rewrite (sampler_bind_run _ _ _ _ () n); [done|].
  apply refresh_run; by destruct s.
Qed.
Lemma challenge_ok_map (l : list grid) :
  Forall (λ g, length g = 9) l → challenge_ok (map Some l).
Proof. induction 1; constructor; eauto. Qed.

(** [generateChallenge()]: a non-empty challenge of 9-cell grids, its first
    grid displayed, stage 0. *)
Lemma generateChallenge_run s n :
  rule_ok s →
  ∃ ch g0 n', generateChallenge (M:=Sampler) s rs n =
                Ok (set_stage (set_grid (set_challenge s ch) g0) 0, n') ∧
              challenge_ok ch ∧ ch !! 0 = Some (Some g0) ∧ length g0 = 9 ∧
              length ch ≤ stageTotal.
Proof.
  intros Hr. destruct Hr as (r & Hrule & Ht).
  destruct (generateExamples_good rs r 4 4 n Hrs Ht) as (l & n1 & Hl & Hlen & _ & Hne).
  unfold generateChallenge. rewrite Hrule, (sampler_bind_run _ _ _ _ _ _ Hl).
  destruct (shuffle_loop_perm rs Hrs (S (length (map Some l))) 0 (map Some l) n1 ltac:(lia))
    as (sh & n2 & Hsh & Hp).
  unfold shuffleArray. rewrite (sampler_bind_run _ _ _ _ _ _ Hsh).
  assert (Hch : challenge_ok sh) by (unfold challenge_ok; rewrite Hp; by apply challenge_ok_map).
  destruct sh as [|c0 sh].
  { apply Permutation_nil_l in Hp. destruct l; [exfalso; apply Hne; [lia|lia|done]|done]. }
  inversion Hch as [|? ? (g0 & -> & Hg0) Hch']; subst.
  assert (Hdisp : setDisplayGrid (M:=Sampler) (js_get (challenge (set_challenge s (take stageTotal (Some g0 :: sh)))) 0)
                    (set_challenge s (take stageTotal (Some g0 :: sh))) rs n2 =
                  Ok (set_grid (set_challenge s (take stageTotal (Some g0 :: sh))) g0, n2)).
  { destruct s. apply setDisplayGrid_run; [|done]. by exists r. }
  rewrite (sampler_bind_run _ _ _ _ _ _ Hdisp).
  exists (take stageTotal (Some g0 :: sh)), g0, n2. split_and!; [done| |done|done|].
  - by apply Forall_take.
  - rewrite length_take. lia.
Qed.

(** [setModuleState(m)]: the new mode, the invariant kept. *)
Lemma setModuleState_run m s n :
  length (ui_grid s) = 9 → rule_ok s → challenge_ok (challenge s) →
  stage_bounds m (stageNumber s) (challenge s) →
  ∃ s' n', setModuleState (M:=Sampler) m s rs n = Ok (s', n') ∧ ui_inv s' ∧
           moduleState s' = m ∧ rule s' = rule s.
Proof.
  intros Hg Hr Hc Hb. unfold setModuleState.
  destruct (decide (m = Challenge)) as [->|Hm].
  - destruct (generateChallenge_run (set_mode s Challenge) n) as (ch & g0 & n1 & Hgen & Hch & H0 & Hg0 & Hlen);
      [by destruct s|].
    rewrite (sampler_bind_run _ _ _ _ _ _ Hgen), (sampler_bind_run _ _ _ _ () n1);
      [|apply refresh_run; destruct s; simpl in *; done].
    eexists _, n1. split; [done|]. destruct s; simpl in *. unfold ui_inv; simpl. split_and!; auto.
    split_and!; [done|cbv; lia|done].
  - rewrite (sampler_bind_run _ _ _ _ (set_mode s m) n) by done.
    rewrite (sampler_bind_run _ _ _ _ () n) by (apply refresh_run; by destruct s).
    eexists _, n. split; [done|]. destruct s; simpl in *. unfold ui_inv; simpl. split_and!; auto; done.
Qed.
(** [setDisplayGrid(examples[0])] when one example was found. *)
Lemma display_example_run s l n :
  rule_ok s → Forall (λ g, length g = 9) l → length l = 1 →
  ∃ g, setDisplayGrid (M:=Sampler) (js_get (map Some l) 0) s rs n = Ok (set_grid s g, n) ∧
       length g = 9.
Proof.
  intros Hr Hl Hlen. destruct l as [|g [|]]; try done. inv Hl.
  exists g. split; [by apply setDisplayGrid_run|done].
Qed.

(** [resetModule()] once [randomRule()] has returned a well-typed rule. *)
Lemma resetModule_run s n r n1 :
  challenge_ok (challenge s) → stage_bounds Edit (stageNumber s) (challenge s) → randomRule (M:=Sampler) rs n = Ok (r, n1) → has_type FRule r →
  ∃ s' n', resetModule (M:=Sampler) s rs n = Ok (s', n') ∧ ui_inv s' ∧ moduleState s' = Edit.
Proof.
  intros Hc Hb Hrr Ht. unfold resetModule. rewrite (sampler_bind_run _ _ _ _ _ _ Hrr).
  set (s1 := set_brush (set_rule s (Some r)) 0 0 false).
  assert (Hr1 : rule_ok s1) by (exists r; by destruct s).
  assert (Hc1 : challenge s1 = challenge s) by by destruct s.
  destruct (generateExamples_good rs r 1 0 n1 Hrs Ht) as (l & n2 & Hl & Hlen & _ & _).
  replace (rule s1) with (Some r) by by destruct s.
  rewrite (sampler_bind_run _ _ _ _ _ _ Hl).
  assert (∃ g, (if decide (length l = 1) then setDisplayGrid (M:=Sampler) (js_get (map Some l) 0) s1
                else setDisplayGrid (Some (replicate 9 None)) s1) rs n2 = Ok (set_grid s1 g, n2) ∧
               length g = 9) as (g & Hd & Hg).
  { case_decide; [by apply display_example_run|].
    exists (replicate 9 None). split; [by apply setDisplayGrid_run|done]. }
  rewrite (sampler_bind_run _ _ _ _ _ _ Hd).
  destruct (setModuleState_run Edit (set_grid s1 g) n2) as (s' & n' & Hrun & Hinv & Hm & _);
    [clearbody s1; by destruct s1|clearbody s1; destruct s1; exact Hr1
    |assert (Hc2 : challenge_ok (challenge s1)) by (by rewrite Hc1);
     clearbody s1; destruct s1; exact Hc2|by destruct s|].
  eauto.
Qed.
Lemma refresh_then_run s n :
  rule_ok s → length (ui_grid s) = 9 → (_ ← refreshDisplay (M:=Sampler) s; mret s) rs n = Ok (s, n).
Proof. intros Hr Hg. by rewrite (sampler_bind_run _ _ _ _ () n) by by apply refresh_run. Qed.

Lemma challenge_ok_lookup ch k :
  challenge_ok ch → k < length ch → ∃ g, ch !! k = Some (Some g) ∧ length g = 9.
Proof.
  intros Hc Hk. destruct (lookup_lt_is_Some_2 ch k Hk) as [c Hck].
  destruct (Forall_lookup_1 _ _ _ _ Hc Hck) as (g & -> & Hg). eauto.
Qed.

(** A y/n press in challenge mode: the answer is compared with the rule's
    verdict on the displayed grid; a right answer moves to the next stage,
    or solves the module after the last one; a wrong one fails it. *)
Lemma answer_run b s n r :
  ui_inv s → moduleState s = Challenge → b ≠ BtnReady → rule s = Some r →
  ∃ s' n', buttonPress (M:=Sampler) b s rs n = Ok (s', n') ∧ ui_inv s' ∧
    ∃ v, inst_match r (ui_grid s) AUndef = Ok (VBool v) ∧
      if Bool.eqb (bool_decide (b = BtnY)) v then
        if decide (S (stageNumber s) < length (challenge s)) then
          moduleState s' = Challenge ∧ stageNumber s' = S (stageNumber s) ∧ challenge s' = challenge s
        else moduleState s' = Solved
      else moduleState s' = Failed.
Proof.
  intros (Hg & (r' & Hr' & Ht) & Hc & Hcur & Hbd) Hm Hb Hr. rewrite Hr in Hr'. injection Hr' as <-.
  assert (Hk0 : stageNumber s < length (challenge s)) by (eapply lookup_lt_Some, Hcur, Hm).
  destruct (Ht _ Hg) as [v Hv].
  assert (Hrun : ∀ k : inst → Sampler ui_state, (of_result (M:=Sampler) (match rule s with Some r => Ok r | None => Err TypeError end)
                         ≫= k) rs n = k r rs n)
    by (intros; apply sampler_bind_run; by rewrite Hr).
  assert (Hact : ∀ k : val → Sampler ui_state, (of_result (M:=Sampler) (inst_match r (ui_grid s) AUndef) ≫= k) rs n = k (VBool v) rs n)
    by (intros; apply sampler_bind_run; by rewrite Hv).
  assert (Hrok : rule_ok s) by (by exists r).
  unfold buttonPress. rewrite decide_True by done.
  assert (Hb' : b = BtnY ∨ b = BtnN) by (destruct b; auto; done).
  assert (Hcase : ∀ answer, loose_eq_bool answer (VBool v) = Bool.eqb answer v) by done.
  destruct Hb' as [-> | ->]; rewrite Hrun, Hact, Hcase; destruct (Bool.eqb _ v) eqn:Heq.
  2,4: destruct (setModuleState_run Failed s n) as (s' & n' & Hs & Hinv & Hm' & _);
         [done|done|done|by eapply stage_bounds_unsolved|];
       exists s', n'; split_and!; [done|done|]; exists v; by rewrite Heq.
  all: destruct Hbd as (Hlen & _).
  all: destruct s as [g ru c sh e m k ch]; cbn [set_stage stageNumber challenge ui_grid moduleState rule] in *.
  all: destruct (decide (S k < length ch)) as [Hk|Hk];
    [destruct (challenge_ok_lookup ch (S k) Hc Hk) as (g' & Hck & Hg');
     assert (Hj : js_get ch (S k) = Some g') by (unfold js_get; by rewrite Hck);
     rewrite Hj, (setDisplayGrid_run (mkState g ru c sh e m (S k) ch) g' n);
       [|by exists r|done];
     eexists _, n; split; [done|]; split;
       [unfold ui_inv; cbn; split_and!; [done|by exists r|done|by intros|split_and!; [lia|lia|intros; congruence]]
       |exists v; split; [done|]; rewrite Heq; cbn; auto]
    |destruct (setModuleState_run Solved (mkState g ru c sh e m (S k) ch) n) as (s' & n' & Hs & Hinv & Hm' & _);
       [done|done|done|cbn; split_and!; [done|lia|lia]|];
     exists s', n'; split_and!; [done|done|]; exists v; by rewrite Heq].
Qed.
Lemma ui_inv_brush s c sh e : ui_inv s → ui_inv (set_brush s c sh e).
Proof. by destruct s. Qed.

Lemma ui_inv_edit s g :
  ui_inv s → length g = 9 → moduleState s ≠ Challenge → ui_inv (set_grid s g).
Proof. destruct s. intros (? & ? & ? & _ & ?) ??. split_and!; done. Qed.

Lemma showExample_run validCount invalidCount s n :
  ui_inv s → moduleState s ≠ Challenge →
  ∃ s' n', showExample (M:=Sampler) validCount invalidCount s rs n = Ok (s', n') ∧ ui_inv s' ∧
           moduleState s' = moduleState s.
Proof.
  intros Hinv Hm. pose proof Hinv as (Hg & (r & Hr & Ht) & _).
  destruct (generateExamples_good rs r validCount invalidCount n Hrs Ht) as (l & n1 & Hl & Hlen & _ & _).
  unfold showExample. rewrite Hr, (sampler_bind_run _ _ _ _ _ _ Hl). clear Hl.
  case_decide.
  - destruct (display_example_run s l n1) as (g & Hd & Hg'); [by exists r|done|done|].
    rewrite Hd. eexists _, n1. split_and!; [done|by apply ui_inv_edit|by destruct s].
  - by eexists _, n1.
Qed.

(** Every event handler runs without error from a state satisfying the
    invariant and keeps it, provided that [randomRule()] returns a rule
    when the event starts a new one. *)
Lemma handle_run ev s n :
  ui_inv s → (resets ev s → ∃ r n1, randomRule (M:=Sampler) rs n = Ok (r, n1) ∧ has_type FRule r) →
  ∃ s' n', handle (M:=Sampler) ev s rs n = Ok (s', n') ∧ ui_inv s'.
Proof.
  intros Hinv Hres. pose proof Hinv as (Hg & Hr & Hc & Hcur & Hbd).
  destruct ev as [c|sh| |b|x y]; cbn [handle].
  - unfold setColor. rewrite refresh_then_run by (by destruct s).
    eexists _, n. split; [done|by apply ui_inv_brush].
  - unfold setShape. rewrite refresh_then_run by (by destruct s).
    eexists _, n. split; [done|by apply ui_inv_brush].
  - unfold erasePress. case_decide; [by exists s, n|].
    destruct (brushErase s).
    + rewrite setDisplayGrid_run by done. eexists _, n. split; [done|by apply ui_inv_edit].
    + rewrite refresh_then_run by (by destruct s).
      eexists _, n. split; [done|by apply ui_inv_brush].
  - destruct (decide (moduleState s = Challenge)) as [Hm|Hm].
    + pose proof Hr as (r & Hr' & _). destruct b.
      * destruct (answer_run BtnY s n r Hinv Hm ltac:(discriminate) Hr') as (s' & n' & Hs & Hinv' & _). eauto.
      * destruct (answer_run BtnN s n r Hinv Hm ltac:(discriminate) Hr') as (s' & n' & Hs & Hinv' & _). eauto.
      * unfold buttonPress. rewrite decide_True by done.
        destruct (setModuleState_run Edit s n) as (s' & n' & Hs & Hinv' & _);
          [done..|by eapply stage_bounds_unsolved|eauto].
    + unfold buttonPress. rewrite decide_False by done. destruct b.
      * destruct (showExample_run 1 0 s n) as (s' & n' & ? & ? & _); eauto.
      * destruct (showExample_run 0 1 s n) as (s' & n' & ? & ? & _); eauto.
      * case_decide.
        -- destruct (setModuleState_run Challenge s n) as (s' & n' & Hs & Hinv' & _);
             [done..|by eapply stage_bounds_unsolved|eauto].
        -- destruct Hres as (r & n1 & Hrr & Ht); [done|].
           destruct (resetModule_run s n r n1) as (s' & n' & Hs & Hinv' & _);
             [done|by eapply stage_bounds_unsolved|done..|eauto].
  - unfold gridOnClick. case_decide; [by exists s, n|].
    rewrite refresh_then_run by (destruct s; simpl; rewrite ?length_insert; done).
    eexists _, n. split; [done|]. apply ui_inv_edit; [done|by rewrite length_insert|done].
Qed.
(** A y/n press outside challenge mode shows an example and keeps the
    mode. *)
Lemma press_outside_run b s n :
  ui_inv s → moduleState s ≠ Challenge → b ≠ BtnReady →
  ∃ s' n', buttonPress (M:=Sampler) b s rs n = Ok (s', n') ∧ ui_inv s' ∧
           moduleState s' = moduleState s.
Proof.
  intros Hinv Hm Hb. unfold buttonPress. rewrite decide_False by done.
  destruct b; [by apply showExample_run..|done].
Qed.

(** In challenge mode the answer that agrees with the rule's verdict on the
    displayed grid moves to the next stage, or solves the module. *)
Lemma right_answer_run s n :
  ui_inv s → moduleState s = Challenge →
  ∃ b s' n', b ≠ BtnReady ∧ buttonPress (M:=Sampler) b s rs n = Ok (s', n') ∧ ui_inv s' ∧
    if decide (S (stageNumber s) < length (challenge s)) then
      moduleState s' = Challenge ∧ stageNumber s' = S (stageNumber s) ∧ challenge s' = challenge s
    else moduleState s' = Solved.
Proof.
  intros Hinv Hm. pose proof Hinv as (_ & (r & Hr & _) & _).
  destruct (answer_run BtnY s n r Hinv Hm ltac:(discriminate) Hr) as (s1 & n1 & Hs1 & Hinv1 & v & Hv & Hp1).
  destruct v; [exists BtnY, s1, n1; by split_and!|].
  destruct (answer_run BtnN s n r Hinv Hm ltac:(discriminate) Hr) as (s2 & n2 & Hs2 & Hinv2 & v & Hv' & Hp2).
  rewrite Hv in Hv'. injection Hv' as <-. exists BtnN, s2, n2. by split_and!.
Qed.
End runs.

(** A run of [resetModule()] has drawn a well-typed rule first. *)
Lemma resetModule_rule rs n s s' n' :
  draws_ok rs → resetModule (M:=Sampler) s rs n = Ok (s', n') →
  ∃ r n1, randomRule (M:=Sampler) rs n = Ok (r, n1) ∧ has_type FRule r.
Proof.
  intros Hrs Hrun. unfold resetModule in Hrun.
  apply sampler_bind_Ok in Hrun as (r & n1 & Hrr & _).
  exists r, n1. split; [done|]. by eapply randomRule_typed.
Qed.

Lemma handle_resets rs n ev s s' n' :
  draws_ok rs → handle (M:=Sampler) ev s rs n = Ok (s', n') → resets ev s →
  ∃ r n1, randomRule (M:=Sampler) rs n = Ok (r, n1) ∧ has_type FRule r.
Proof.
  intros Hrs Hrun (-> & Hne1 & Hne2). cbn [handle] in Hrun. unfold buttonPress in Hrun.
  rewrite !decide_False in Hrun by done. by eapply resetModule_rule.
Qed.

(** Every reachable state satisfies the invariant. *)
Lemma reachable_ui_inv s : reachable s → ui_inv s.
Proof.
  induction 1 as [rs n s n' Hrs Hrun|s ev rs n s' n' _ IH Hrs Hrun].
  - destruct (resetModule_rule rs n _ _ _ Hrs Hrun) as (r & n1 & Hrr & Ht).
    destruct (resetModule_run rs Hrs init_state n r n1 (Forall_nil_2 _)
                ltac:(cbv; split_and!; [lia|lia|discriminate]) Hrr Ht)
      as (s'' & n'' & Hs & Hinv & _).
    rewrite Hs in Hrun. by injection Hrun as <- _.
  - destruct (handle_run rs Hrs ev s n IH (handle_resets rs n ev s s' n' Hrs Hrun))
      as (s'' & n'' & Hs & Hinv).
    rewrite Hs in Hrun. by injection Hrun as <- _.
Qed.

Lemma reach_press s b rs n s' n' :
  reachable s → draws_ok rs → buttonPress (M:=Sampler) b s rs n = Ok (s', n') → reachable s'.
Proof. intros. by eapply (reach_step s (EvButton b)). Qed.

Lemma challenge_stage_lt s : ui_inv s → moduleState s = Challenge → stageNumber s < length (challenge s).
Proof. intros (_ & _ & _ & Hcur & _) Hm. eapply lookup_lt_Some, Hcur, Hm. Qed.

(** Y/N presses, at least as many as the stages left, end a challenge. *)
Lemma pressButtons_leave rs bs :
  draws_ok rs → Forall (λ b, b ≠ BtnReady) bs →
  ∀ s n, reachable s → (moduleState s = Challenge → length (challenge s) ≤ stageNumber s + length bs) →
  ∃ s' n', pressButtons (M:=Sampler) bs s rs n = Ok (s', n') ∧ reachable s' ∧ moduleState s' ≠ Challenge.
Proof.
  intros Hrs Hbs. induction Hbs as [|b bs Hb Hbs IH]; intros s n Hr Hleft;
    pose proof (reachable_ui_inv s Hr) as Hinv.
  - exists s, n. split_and!; [done|done|]. intros Hm.
    pose proof (challenge_stage_lt s Hinv Hm). specialize (Hleft Hm). simpl in Hleft. lia.
  - cbn [pressButtons]. destruct (decide (moduleState s = Challenge)) as [Hm|Hm].
    + pose proof Hinv as (_ & (r & Hrule & _) & _).
      destruct (answer_run rs Hrs b s n r Hinv Hm Hb Hrule) as (s1 & n1 & Hs & _ & v & _ & Hpost).
      rewrite (sampler_bind_run _ _ _ _ _ _ Hs). apply IH; [by eapply reach_press|].
      intros Hm1. destruct (Bool.eqb _ v); [|congruence]. case_decide; [|congruence].
      destruct Hpost as (_ & -> & ->). specialize (Hleft Hm). simpl in Hleft. lia.
    + destruct (press_outside_run rs Hrs b s n Hinv Hm Hb) as (s1 & n1 & Hs & _ & Hm1).
      rewrite (sampler_bind_run _ _ _ _ _ _ Hs). apply IH; [by eapply reach_press|congruence].
Qed.

(** The right answers, one per stage left, solve a challenge. *)
Lemma pressButtons_solve rs k :
  draws_ok rs → ∀ s n, reachable s → moduleState s = Challenge →
  length (challenge s) - stageNumber s = k →
  ∃ bs s' n', length bs = k ∧ Forall (λ b, b ≠ BtnReady) bs ∧
    pressButtons (M:=Sampler) bs s rs n = Ok (s', n') ∧ moduleState s' = Solved.
Proof.
  intros Hrs. induction k as [|k IH]; intros s n Hr Hm Hk;
    pose proof (reachable_ui_inv s Hr) as Hinv; pose proof (challenge_stage_lt s Hinv Hm).
  { lia. }
  destruct (right_answer_run rs Hrs s n Hinv Hm) as (b & s1 & n1 & Hb & Hs & _ & Hpost).
  case_decide.
  - destruct Hpost as (Hm1 & Hk1 & Hch1).
    destruct (IH s1 n1) as (bs & s' & n' & Hlen & Hbs & Hrun & Hm');
      [by eapply reach_press|done|rewrite Hk1, Hch1; lia|].
    exists (b :: bs), s', n'. cbn [pressButtons]. rewrite (sampler_bind_run _ _ _ _ _ _ Hs).
    split_and!; [simpl; lia|by constructor|done|done].
  - exists [b], s1, n1. cbn [pressButtons]. rewrite (sampler_bind_run _ _ _ _ _ _ Hs).
    split_and!; [simpl; lia|by constructor|done|done].
Qed.

(** ** Properties of the UI *)

(** C9: in every reachable state in challenge mode the stage is a
    valid index of the challenge and the grid shown is the challenge grid
    of that stage; in particular [setDisplayGrid(challenge[0])] never met
    an empty challenge. *)
Theorem reachable_challenge_display s :
  reachable s → moduleState s = Challenge →
  stageNumber s < length (challenge s) ∧ challenge s !! stageNumber s = Some (Some (ui_grid s)).
Proof.
  intros Hr Hm. destruct (reachable_ui_inv s Hr) as (_ & _ & _ & H & _).
  specialize (H Hm). split; [by eapply lookup_lt_Some|done].
Qed.

(** C8: from every reachable state, with draws in (0,1), every event
    handler returns without throwing (no TypeError on a null rule, on an
    undefined challenge grid or on a cell, no generation error), and the
    new state is reachable. *)
Theorem reachable_handlers_total s rs n ev :
  reachable s → (∀ k, (0 < rs k)%Q ∧ (rs k < 1)%Q) →
  ∃ s' n', handle (M:=Sampler) ev s rs n = Ok (s', n') ∧ reachable s'.
Proof.
  intros Hr Hrs. assert (Hrs' : draws_ok rs) by (intros k; destruct (Hrs k); split; [lra|done]).
  destruct (handle_run rs Hrs' ev s n (reachable_ui_inv s Hr)) as (s' & n' & Hs & _).
  { intros _. destruct (randomRule_ok rs n Hrs) as (r & n1 & ? & ?). eauto. }
  exists s', n'. split; [done|]. by eapply reach_step.
Qed.

(** C10: in challenge mode, pressing Y or N compares the answer with
    the rule's boolean verdict on the displayed grid; a right answer shows
    the challenge grid of the next stage, or solves the module after the
    last stage; a wrong answer fails it. *)
Theorem reachable_challenge_answer s b rs n :
  reachable s → moduleState s = Challenge → b ≠ BtnReady → draws_ok rs →
  ∃ r v s' n', rule s = Some r ∧ inst_match r (ui_grid s) AUndef = Ok (VBool v) ∧
    buttonPress (M:=Sampler) b s rs n = Ok (s', n') ∧
    if Bool.eqb (bool_decide (b = BtnY)) v then
      if decide (S (stageNumber s) < length (challenge s)) then
        moduleState s' = Challenge ∧ stageNumber s' = S (stageNumber s) ∧
        challenge s !! S (stageNumber s) = Some (Some (ui_grid s'))
      else moduleState s' = Solved
    else moduleState s' = Failed.
Proof.
  intros Hr Hm Hb Hrs. pose proof (reachable_ui_inv s Hr) as Hinv.
  pose proof Hinv as (_ & (r & Hrule & _) & _).
  destruct (answer_run rs Hrs b s n r Hinv Hm Hb Hrule)
    as (s' & n' & Hs & (_ & _ & _ & Hcur' & _) & v & Hv & Hpost).
  exists r, v, s', n'. split_and!; [done|done|done|].
  destruct (Bool.eqb _ v); [|done]. case_decide; [|done].
  destruct Hpost as (Hm' & Hk & Hch). split_and!; [done|done|].
  rewrite <- Hk, <- Hch. by apply Hcur'.
Qed.

(** C13: in every reachable state the challenge holds at most
    [stageTotal] grids and the counter [stageNumber] (shown as
    "stageNumber / challenge.length solved") is at most [stageTotal]; a
    solved module has counted every stage of its challenge. *)
Theorem reachable_stage_bounds s :
  reachable s →
  length (challenge s) ≤ stageTotal ∧ stageNumber s ≤ stageTotal ∧
  (moduleState s = Solved → stageNumber s = length (challenge s)).
Proof. intros Hr. by destruct (reachable_ui_inv s Hr) as (_ & _ & _ & _ & Hb). Qed.

(** C11: every challenge ends: from any reachable state, [stageTotal] or
    more presses of Y and N run without error, reach a reachable state, and
    leave the module out of challenge mode, solved or failed. *)
Theorem challenge_terminates s bs rs n :
  reachable s → draws_ok rs → Forall (λ b, b ≠ BtnReady) bs → stageTotal ≤ length bs →
  ∃ s' n', pressButtons (M:=Sampler) bs s rs n = Ok (s', n') ∧ reachable s' ∧
           moduleState s' ≠ Challenge.
Proof.
  intros Hr Hrs Hbs Hlen. apply pressButtons_leave; [done..|]. intros _.
  destruct (reachable_ui_inv s Hr) as (_ & _ & _ & _ & Hch & _). lia.
Qed.

(** C12: every challenge can be solved: from a reachable state in
    challenge mode, answering each displayed grid with the rule's verdict,
    one Y/N press per stage left, solves the module. *)
Theorem challenge_solvable s rs n :
  reachable s → moduleState s = Challenge → draws_ok rs →
  ∃ bs s' n', length bs = length (challenge s) - stageNumber s ∧
    Forall (λ b, b ≠ BtnReady) bs ∧
    pressButtons (M:=Sampler) bs s rs n = Ok (s', n') ∧ moduleState s' = Solved.
Proof. intros Hr Hm Hrs. by apply pressButtons_solve. Qed.

(** ** Witnesses *)

(** The page after loading, on the stream of halves, and after the ready
    button. *)
Definition demo_edit_state : ui_state :=
  match resetModule (M:=Sampler) init_state half_stream 0 with Ok (s, _) => s | Err _ => init_state end.
Definition demo_challenge_state : ui_state :=
  match handle (M:=Sampler) (EvButton BtnReady) demo_edit_state half_stream 0 with
  | Ok (s, _) => s | Err _ => init_state end.

Local Set Warnings "-abstract-large-number".

Lemma demo_edit_reachable : reachable demo_edit_state.
Proof. apply (reach_load half_stream 0 _ 39); [exact half_stream_bounded|vm_compute; reflexivity]. Qed.

Lemma demo_challenge_reachable : reachable demo_challenge_state.
Proof.
  apply (reach_step demo_edit_state (EvButton BtnReady) half_stream 0 _ 11004);
    [exact demo_edit_reachable|exact half_stream_bounded|vm_compute; reflexivity].
Qed.

Lemma reachable_challenge_display_witness :
  stageNumber demo_challenge_state < length (challenge demo_challenge_state) ∧
  challenge demo_challenge_state !! stageNumber demo_challenge_state =
    Some (Some (ui_grid demo_challenge_state)).
Proof.
  apply reachable_challenge_display; [exact demo_challenge_reachable|vm_compute; reflexivity].
Defined.

Lemma reachable_handlers_total_witness :
  ∃ s' n', handle (M:=Sampler) (EvButton BtnReady) demo_edit_state half_stream 0 = Ok (s', n') ∧
           reachable s'.
Proof.
  apply reachable_handlers_total; [exact demo_edit_reachable|].
  intros k. split; vm_compute; reflexivity.
Defined.

Lemma reachable_challenge_answer_witness :
  ∃ r v s' n', rule demo_challenge_state = Some r ∧
    inst_match r (ui_grid demo_challenge_state) AUndef = Ok (VBool v) ∧
    buttonPress (M:=Sampler) BtnY demo_challenge_state half_stream 0 = Ok (s', n') ∧
    if Bool.eqb (bool_decide (BtnY = BtnY)) v then
      if decide (S (stageNumber demo_challenge_state) < length (challenge demo_challenge_state)) then
        moduleState s' = Challenge ∧ stageNumber s' = S (stageNumber demo_challenge_state) ∧
        challenge demo_challenge_state !! S (stageNumber demo_challenge_state) = Some (Some (ui_grid s'))
      else moduleState s' = Solved
    else moduleState s' = Failed.
Proof.
  apply reachable_challenge_answer;
    [exact demo_challenge_reachable|vm_compute; reflexivity|discriminate|exact half_stream_bounded].
Defined.

Lemma reachable_stage_bounds_witness :
  length (challenge demo_challenge_state) ≤ stageTotal ∧ stageNumber demo_challenge_state ≤ stageTotal ∧
  (moduleState demo_challenge_state = Solved →
   stageNumber demo_challenge_state = length (challenge demo_challenge_state)).
Proof. exact (reachable_stage_bounds demo_challenge_state demo_challenge_reachable). Defined.

Lemma challenge_terminates_witness :
  ∃ s' n', pressButtons (M:=Sampler) [BtnY; BtnY; BtnN; BtnY; BtnN] demo_challenge_state half_stream 0 =
             Ok (s', n') ∧ reachable s' ∧ moduleState s' ≠ Challenge.
Proof.
  apply (challenge_terminates demo_challenge_state [BtnY; BtnY; BtnN; BtnY; BtnN] half_stream 0);
    [exact demo_challenge_reachable|exact half_stream_bounded|by repeat constructor|cbv; lia].
Defined.

Lemma challenge_solvable_witness :
  ∃ bs s' n', length bs = length (challenge demo_challenge_state) - stageNumber demo_challenge_state ∧
    Forall (λ b, b ≠ BtnReady) bs ∧
    pressButtons (M:=Sampler) bs demo_challenge_state half_stream 0 = Ok (s', n') ∧ moduleState s' = Solved.
Proof.
  apply challenge_solvable;
    [exact demo_challenge_reachable|vm_compute; reflexivity|exact half_stream_bounded].
Defined.
