(* ===== verification/Canvas.v ===== *)
(** * The canvas drawing code

    src/js/zendo-prototype.js lines 43-52 and 314-358: [setCanvasScale],
    [drawSymbol], [drawGridLines] and [strokeLine].  Each function is
    modelled as the list of calls it makes on a [CanvasRenderingContext2D]
    ([cmd]), in the order the code makes them, and those calls are run on
    a model of the context ([exec]).  The model keeps the drawing state
    the code touches (styles, line width, the scale of the transform, the
    [save]/[restore] stack, the current path) and records each [fill],
    [stroke], [fillRect] and [fillText] as a painted region ([paint]).

    The context is the browser's, not code of the repository: [exec]
    follows the HTML canvas specification for the calls the code makes.
    Angles are written in multiples of π ([2*Math.PI] is [2]); a path keeps
    the coordinates it was given and a paint records the scale in force,
    which is exact here since the code never scales between building a
    path and filling it.  Rasterisation is not modelled: a region is
    described by its path, and [region_within] bounds it by a box. *)

From Stdlib Require Import QArith Qround Lqa Ascii.
From S2P Require Import Prelude Grid.
Close Scope Q_scope.

(** ** The context's calls *)

Inductive cmd :=
  | SetFillStyle (s : string)
  | SetStrokeStyle (s : string)
  | SetLineWidth (s : string)
  | SetLineCap (s : string)
  | SetTextAlign (s : string)
  | SetTextBaseline (s : string)
  | SetFont (s : string)
  | BeginPath
  | Arc (x y r a0 a1 : Q)
  | MoveTo (x y : Q)
  | LineTo (x y : Q)
  | ClosePath
  | Fill
  | Stroke
  | FillRect (x y w h : Q)
  | FillText (t : string) (x y maxWidth : Q)
  | Save
  | Restore
  | ResetTransform
  | Scale (sx sy : Q)
  (** setting [canvas.width] or [canvas.height] clears the bitmap and
      resets its context to the initial state *)
  | ResetContext.

(** ** The context *)

Record gstate := mkG {
  fillStyle : string; strokeStyle : string; lineWidth : Q; lineCap : string;
  textAlign : string; textBaseline : string; font : string;
  scale_x : Q; scale_y : Q }.

(** The initial drawing state of a 2D context. *)
Definition gstate_init : gstate :=
  mkG "#000000" "#000000" 1 "butt" "start" "alphabetic" "10px sans-serif" 1 1.

Inductive path_elem :=
  | PMove (x y : Q)
  | PLine (x y : Q)
  | PArc (x y r a0 a1 : Q)
  | PClose.

Inductive region :=
  | RFill (p : list path_elem)
  | RStroke (p : list path_elem) (w : Q)
  | RRect (x y w h : Q)
  | RText (t : string) (x y maxWidth : Q).

Record paint := mkPaint { p_style : string; p_scale_x : Q; p_scale_y : Q; p_region : region }.

Record context := mkCtx {
  cur : gstate; saved : list gstate; path : list path_elem; painted : list paint }.

Definition ctx_init : context := mkCtx gstate_init [] [] [].

(** [lineWidth = "16"]: the string is converted to a number; a value that
    is not a positive number is ignored.  Strings of decimal digits are
    read; any other string is treated as NaN. *)
Definition digit_value (c : ascii) : option nat :=
  let n := nat_of_ascii c in if decide (48 ≤ n ∧ n ≤ 57) then Some (n - 48) else None.

Fixpoint digits_value (acc : nat) (cs : list ascii) : option nat :=
  match cs with
  | [] => Some acc
  | c :: cs => d ← digit_value c; digits_value (acc * 10 + d) cs
  end.

Definition string_to_number (s : string) : option Q :=
  match String.list_ascii_of_string s with
  | [] => None
  | cs => (λ n, inject_Z (Z.of_nat n)) <$> digits_value 0 cs
  end.

Definition set_cur (k : context) (g : gstate) : context := mkCtx g (saved k) (path k) (painted k).
Definition add_path (k : context) (e : path_elem) : context :=
  mkCtx (cur k) (saved k) (path k ++ [e]) (painted k).
Definition add_paint (k : context) (style : string) (r : region) : context :=
  mkCtx (cur k) (saved k) (path k)
        (painted k ++ [mkPaint style (scale_x (cur k)) (scale_y (cur k)) r]).

Definition exec1 (k : context) (c : cmd) : context :=
  let g := cur k in
  match c with
  | SetFillStyle s => set_cur k (mkG s (strokeStyle g) (lineWidth g) (lineCap g) (textAlign g) (textBaseline g) (font g) (scale_x g) (scale_y g))
  | SetStrokeStyle s => set_cur k (mkG (fillStyle g) s (lineWidth g) (lineCap g) (textAlign g) (textBaseline g) (font g) (scale_x g) (scale_y g))
  | SetLineWidth s =>
      match string_to_number s with
      | Some w => if Qlt_le_dec 0 w
                  then set_cur k (mkG (fillStyle g) (strokeStyle g) w (lineCap g) (textAlign g) (textBaseline g) (font g) (scale_x g) (scale_y g))
                  else k
      | None => k
      end
  | SetLineCap s => set_cur k (mkG (fillStyle g) (strokeStyle g) (lineWidth g) s (textAlign g) (textBaseline g) (font g) (scale_x g) (scale_y g))
  | SetTextAlign s => set_cur k (mkG (fillStyle g) (strokeStyle g) (lineWidth g) (lineCap g) s (textBaseline g) (font g) (scale_x g) (scale_y g))
  | SetTextBaseline s => set_cur k (mkG (fillStyle g) (strokeStyle g) (lineWidth g) (lineCap g) (textAlign g) s (font g) (scale_x g) (scale_y g))
  | SetFont s => set_cur k (mkG (fillStyle g) (strokeStyle g) (lineWidth g) (lineCap g) (textAlign g) (textBaseline g) s (scale_x g) (scale_y g))
  | BeginPath => mkCtx g (saved k) [] (painted k)
  | Arc x y r a0 a1 => add_path k (PArc x y r a0 a1)
  | MoveTo x y => add_path k (PMove x y)
  | LineTo x y => add_path k (PLine x y)
  | ClosePath => add_path k PClose
  | Fill => add_paint k (fillStyle g) (RFill (path k))
  | Stroke => add_paint k (strokeStyle g) (RStroke (path k) (lineWidth g))
  | FillRect x y w h => add_paint k (fillStyle g) (RRect x y w h)
  | FillText t x y m => add_paint k (fillStyle g) (RText t x y m)
  | Save => mkCtx g (g :: saved k) (path k) (painted k)
  | Restore => match saved k with g' :: gs => mkCtx g' gs (path k) (painted k) | [] => k end
  | ResetTransform => set_cur k (mkG (fillStyle g) (strokeStyle g) (lineWidth g) (lineCap g) (textAlign g) (textBaseline g) (font g) 1 1)
  | Scale sx sy => set_cur k (mkG (fillStyle g) (strokeStyle g) (lineWidth g) (lineCap g) (textAlign g) (textBaseline g) (font g) (scale_x g * sx) (scale_y g * sy))
  | ResetContext => ctx_init
  end.

Definition exec (cs : list cmd) (k : context) : context := foldl exec1 k cs.

(** ** Bounding boxes *)

(** A path element lies in the box [[x0,x1] × [y0,y1]]; an arc with its
    whole disc. *)
Definition elem_within (x0 y0 x1 y1 : Q) (e : path_elem) : Prop :=
  match e with
  | PMove x y | PLine x y => (x0 <= x <= x1 ∧ y0 <= y <= y1)%Q
  | PArc x y r _ _ => (x0 <= x - r ∧ x + r <= x1 ∧ y0 <= y - r ∧ y + r <= y1)%Q
  | PClose => True
  end.

(** What a region covers lies in the box: a filled path lies in the hull
    of its points and discs, a stroke of width [w] (with round caps) within
    [w/2] of its path, a rectangle is itself.  The extent of text depends
    on the font and is not bounded. *)
Definition region_within (x0 y0 x1 y1 : Q) (r : region) : Prop :=
  match r with
  | RFill p => Forall (elem_within x0 y0 x1 y1) p
  | RStroke p w => Forall (elem_within (x0 + w / 2) (y0 + w / 2) (x1 - w / 2) (y1 - w / 2)) p
  | RRect x y w h => (x0 <= x ∧ x + w <= x1 ∧ y0 <= y ∧ y + h <= y1 ∧ 0 <= w ∧ 0 <= h)%Q
  | RText _ _ _ _ => False
  end.

(** ** The drawing functions *)

(** The colour switch of [drawSymbol]: no case matches a colour outside
    0..2, and the fill style is left as it was. *)
Definition symbol_fill (c : nat) : list cmd :=
  match c with
  | 0 => [SetFillStyle "red"]
  | 1 => [SetFillStyle "yellow"]
  | 2 => [SetFillStyle "#194fff"]
  | _ => []
  end.

Definition symbol_shape (sh : nat) (x y : Q) : list cmd :=
  match sh with
  | 0 => [BeginPath; Arc (x + 100) (y + 100) 70 0 2; Fill]
  | 1 => [BeginPath; MoveTo (x + 30) (y + 160); LineTo (x + 100) (y + 30);
          LineTo (x + 170) (y + 160); ClosePath; Fill]
  | 2 => [FillRect (x + 40) (y + 40) 120 120]
  | _ => []
  end.

(** [drawSymbol(ctx, symbol, x, y)]: nothing for [null] (or [undefined]). *)
Definition drawSymbol (sym : option symbol) (x y : Q) : list cmd :=
  match sym with
  | None => []
  | Some s => symbol_fill (color s) ++ symbol_shape (shape s) x y
  end.

Definition strokeLine (x1 y1 x2 y2 : Q) : list cmd :=
  [BeginPath; MoveTo x1 y1; LineTo x2 y2; Stroke].

Definition drawGridLines : list cmd :=
  [SetStrokeStyle "white"; SetLineWidth "16"; SetLineCap "round"] ++
  strokeLine 200 30 200 570 ++ strokeLine 400 30 400 570 ++
  strokeLine 30 200 570 200 ++ strokeLine 30 400 570 400.

(** The [<canvas>] element: its CSS size and its bitmap size. *)
Record canvas_elem := mkCanvas { clientWidth : Q; clientHeight : Q; width : Z; height : Z }.

(** Assigning a number to an [unsigned long] attribute (WebIDL):
    truncation towards zero, then modulo [2^32]. *)
Definition webidl_unsigned_long (x : Q) : Z :=
  let t := if Qle_bool 0 x then Qfloor x else (- Qfloor (- x))%Z in
  t mod 2 ^ 32.

(** [setCanvasScale(canvas, ctx, worldWidth)] with [window.devicePixelRatio]
    as [dpr]: the bitmap gets the device size, and the context, reset by
    the two assignments, is scaled by [width / worldWidth], computed from
    the unrounded width. *)
Definition setCanvasScale (dpr : Q) (canvas : canvas_elem) (worldWidth : Q) : canvas_elem * list cmd :=
  let w := (clientWidth canvas * dpr)%Q in
  let h := (clientHeight canvas * dpr)%Q in
  let canvas := mkCanvas (clientWidth canvas) (clientHeight canvas)
                         (webidl_unsigned_long w) (webidl_unsigned_long h) in
  let factor := (w / worldWidth)%Q in
  (canvas, [ResetContext; ResetContext; ResetTransform; Scale factor factor]).

(** ** What the drawing functions paint *)

(** The colour and the region of a valid symbol as [drawSymbol] paints
    it. *)
Definition color_name (c : nat) : string :=
  match c with 0 => "red" | 1 => "yellow" | _ => "#194fff" end.

Definition shape_region (sh : nat) (x y : Q) : region :=
  match sh with
  | 0 => RFill [PArc (x + 100) (y + 100) 70 0 2]
  | 1 => RFill [PMove (x + 30) (y + 160); PLine (x + 100) (y + 30); PLine (x + 170) (y + 160); PClose]
  | _ => RRect (x + 40) (y + 40) 120 120
  end.

(** The four grid lines, white, 16 wide. *)
Definition grid_line_regions : list region :=
  [RStroke [PMove 200 30; PLine 200 570] 16; RStroke [PMove 400 30; PLine 400 570] 16;
   RStroke [PMove 30 200; PLine 570 200] 16; RStroke [PMove 30 400; PLine 570 400] 16].

Lemma exec_app cs1 cs2 k : exec (cs1 ++ cs2) k = exec cs2 (exec cs1 k).
Proof. apply foldl_app. Qed.

Lemma exec_cons c cs k : exec (c :: cs) k = exec cs (exec1 k c).
Proof. done. Qed.

(** Calls that leave the drawing state and the stack as they were. *)
Definition keeps_state (cs : list cmd) : Prop :=
  ∀ k, cur (exec cs k) = cur k ∧ saved (exec cs k) = saved k.

(** A valid symbol adds one paint, in its colour, with its shape at
    [(x, y)], at the scale in force; the stack and the transform are
    kept. *)
Lemma drawSymbol_exec s x y k :
  color s < 3 → shape s < 3 →
  painted (exec (drawSymbol (Some s) x y) k) =
    painted k ++ [mkPaint (color_name (color s)) (scale_x (cur k)) (scale_y (cur k)) (shape_region (shape s) x y)] ∧
  saved (exec (drawSymbol (Some s) x y) k) = saved k ∧
  scale_x (cur (exec (drawSymbol (Some s) x y) k)) = scale_x (cur k) ∧
  scale_y (cur (exec (drawSymbol (Some s) x y) k)) = scale_y (cur k).
Proof.
  destruct s as [c sh]; cbn; intros ??.
  destruct c as [|[|[|c]]]; try lia; destruct sh as [|[|[|sh]]]; try lia; done.
Qed.

Lemma drawSymbol_none x y k : exec (drawSymbol None x y) k = k.
Proof. done. Qed.

(** A symbol drawn at [(x, y)] lies in the square [[x+30, x+170]²]. *)
Lemma shape_region_within sh x y :
  region_within (x + 30) (y + 30) (x + 170) (y + 170) (shape_region sh x y).
Proof. destruct sh as [|[|]]; cbn; repeat constructor; lra. Qed.

(** [drawGridLines] paints the four lines in white, 16 wide. *)
Lemma drawGridLines_exec k :
  painted (exec drawGridLines k) =
    painted k ++ map (mkPaint "white" (scale_x (cur k)) (scale_y (cur k))) grid_line_regions.
Proof. cbn. by rewrite <- !app_assoc. Qed.

(** ** The bitmap size *)

Lemma Qfloor_eq (q : Q) (z : Z) : (inject_Z z <= q)%Q → (q < inject_Z (z + 1))%Q → Qfloor q = z.
Proof.
  intros Hl Hu. pose proof (Qfloor_resp_le _ _ Hl) as H1. rewrite Qfloor_Z in H1.
  assert (inject_Z (Qfloor q) < inject_Z (z + 1))%Q as H2 by (eapply Qle_lt_trans; [apply Qfloor_le|exact Hu]).
  rewrite <- Zlt_Qlt in H2. lia.
Qed.

(** An attribute set to a number in [[0, 2^32)] gets its floor: nothing
    wraps around. *)
Lemma webidl_unsigned_long_small x :
  (0 <= x)%Q → (x < inject_Z (2 ^ 32))%Q → webidl_unsigned_long x = Qfloor x.
Proof.
  intros H0 H1. unfold webidl_unsigned_long.
  replace (Qle_bool 0 x) with true by (symmetry; by apply Qle_bool_iff).
  apply Z.mod_small. split.
  - exact (Qfloor_resp_le 0 x H0).
  - rewrite Zlt_Qlt. eapply Qle_lt_trans; [apply Qfloor_le|exact H1].
Qed.

(** [setCanvasScale(canvas, ctx, 600)] scales the context by
    [clientWidth * devicePixelRatio / 600] on both axes. *)
Lemma setCanvasScale_factor dpr cv k :
  (scale_x (cur (exec (setCanvasScale dpr cv 600).2 k)) == clientWidth cv * dpr / 600)%Q ∧
  (scale_y (cur (exec (setCanvasScale dpr cv 600).2 k)) == clientWidth cv * dpr / 600)%Q.
Proof. cbn. split; ring. Qed.
