(* ===== verification/Display.v ===== *)
(** * What the page shows: [refreshDisplay] in full

    src/js/zendo-prototype.js lines 54-155.  [UI] models [refreshDisplay()]
    by the one call in it that can throw, [rule.match(grid)]; this file
    models the whole function: the DOM writes (the rule and status texts,
    the [highlight] classes of the three buttons, the [solve] and [strike]
    classes of the status light) and the drawing on the grid and brush
    canvases, as the calls of [Canvas] run on the two contexts.

    The DOM is a map from element ids to elements with their [innerText]
    and [classList] ([page]), looked up by [document.getElementById] at
    each use; a missing element is [null], and writing to it a TypeError.
    The theorems show that the full model and the model of [UI] throw on
    the same states, what the page shows in and out of challenge mode,
    where the grid picture puts each symbol, and that a click on a drawn
    symbol, through the scaling of [setCanvasScale] and the click
    arithmetic of [gridOnClick] in [UI], edits that symbol's cell. *)

From Stdlib Require Import QArith Qround Lqa.
From stdpp Require Import pretty.
From S2P Require Import Prelude Grid Instantiate Random UI Canvas.
Close Scope Q_scope.

(** ** The page *)

Record elem := mkElem { innerText : string; classList : gset string }.

Record page := mkPage {
  elems : gmap string elem;
  showRule : bool;
  gridCtx : context;
  brushCtx : context }.

(** [document.getElementById(id)] followed by a write to the element. *)
Definition with_elem (id : string) (f : elem → elem) (p : page) : result page :=
  match elems p !! id with
  | Some e => Ok (mkPage (<[id := f e]> (elems p)) (showRule p) (gridCtx p) (brushCtx p))
  | None => Err TypeError
  end.

Definition setText (id t : string) : page → result page :=
  with_elem id (λ e, mkElem t (classList e)).
Definition classAdd (id c : string) : page → result page :=
  with_elem id (λ e, mkElem (innerText e) ({[c]} ∪ classList e)).
Definition classRemove (id c : string) : page → result page :=
  with_elem id (λ e, mkElem (innerText e) (classList e ∖ {[c]})).

(** ** The texts *)

(** [`${n}`] for a non-negative integer. *)
Definition num_text (n : nat) : string := pretty (N.of_nat n).

Definition challenge_text (s : ui_state) : string :=
  "Challenge mode - " +:+ num_text (stageNumber s) +:+ " / " +:+
  num_text (length (challenge s)) +:+ " solved".

Definition stage_text (s : ui_state) : string :=
  num_text (stageNumber s) +:+ "/" +:+ num_text (length (challenge s)).

Definition status_prefix (m : mode) : string :=
  match m with Solved => "SOLVED! " | Failed => "INCORRECT - " | _ => "" end.

(** [rule && rule.match(grid)] as read by [if (isValid)]: [null] when
    there is no rule, the verdict's truth value otherwise. *)
Definition isValid_of (s : ui_state) : result bool :=
  match rule s with
  | None => Ok false
  | Some r => truthy <$> inst_match r (ui_grid s) AUndef
  end.

(** ** The pictures *)

(** The top-left corner of cell [i]: [(i % 3) * 200],
    [Math.floor(i / 3) * 200]. *)
Definition cell_x (i : nat) : Q := inject_Z (Z.of_nat (i mod 3 * 200)).
Definition cell_y (i : nat) : Q := inject_Z (Z.of_nat (i / 3 * 200)).

Definition grid_cmds (g : grid) : list cmd :=
  [SetFillStyle "black"; FillRect 0 0 600 600; Save] ++ drawGridLines ++
  concat (map (λ i, drawSymbol (default None (g !! i)) (cell_x i) (cell_y i)) (seq 0 9)) ++
  [Restore].

Definition brush_cmds (s : ui_state) : list cmd :=
  [SetFillStyle "black"; FillRect 0 0 200 200] ++
  if decide (moduleState s = Challenge) then
    [Save; SetFillStyle "white"; SetTextAlign "center"; SetTextBaseline "middle";
     SetFont "80px Courier New"; FillText (stage_text s) 100 105 180; Restore]
  else if brushErase s then []
  else [Save] ++ drawSymbol (Some (mkSymbol (brushColor s) (brushShape s))) 0 0 ++ [Restore].

(** ** [refreshDisplay()] *)

Definition rule_texts (checked : bool) (isValid : bool) (s : ui_state) (p : page) : result page :=
  match rule s with
  | Some r =>
      p ← setText "rulestring"
            (if checked || bool_decide (moduleState s = Solved) || bool_decide (moduleState s = Failed)
             then "Rule: " +:+ inst_descSingular r else "Rule: ?") p;
      if decide (moduleState s = Challenge) then
        p ← setText "validstring" (challenge_text s) p;
        p ← classRemove "btn-yes" "highlight" p;
        p ← classRemove "btn-no" "highlight" p;
        classAdd "btn-ready" "highlight" p
      else
        let status := status_prefix (moduleState s) in
        p ← (if isValid then
               p ← setText "validstring" (status +:+ "This pattern is valid") p;
               p ← classAdd "btn-yes" "highlight" p;
               classRemove "btn-no" "highlight" p
             else
               p ← setText "validstring" (status +:+ "This pattern is invalid") p;
               p ← classRemove "btn-yes" "highlight" p;
               classAdd "btn-no" "highlight" p);
        classRemove "btn-ready" "highlight" p
  | None =>
      p ← setText "rulestring" "No rule" p;
      setText "validstring" "" p
  end.

Definition status_light (m : mode) (p : page) : result page :=
  match m with
  | Solved => p ← classAdd "status-light" "solve" p; classRemove "status-light" "strike" p
  | Failed => p ← classRemove "status-light" "solve" p; classAdd "status-light" "strike" p
  | _ => p ← classRemove "status-light" "solve" p; classRemove "status-light" "strike" p
  end.

(** [refreshDisplay()] with the [showrule] checkbox [checked]. *)
Definition refreshDisplay_page (checked : bool) (s : ui_state) (p : page) : result page :=
  isValid ← isValid_of s;
  let p := mkPage (elems p) checked (gridCtx p) (brushCtx p) in
  p ← rule_texts checked isValid s p;
  p ← status_light (moduleState s) p;
  Ok (mkPage (elems p) (showRule p) (exec (grid_cmds (ui_grid s)) (gridCtx p))
             (exec (brush_cmds s) (brushCtx p))).

(** The page has the six elements [refreshDisplay] writes to. *)
Definition page_ids : list string :=
  ["rulestring"; "validstring"; "btn-yes"; "btn-no"; "btn-ready"; "status-light"].

Definition elems_ok (m : gmap string elem) : Prop := Forall (λ id, is_Some (m !! id)) page_ids.
Definition page_ok (p : page) : Prop := elems_ok (elems p).

Definition classes (id : string) (p : page) : gset string :=
  default ∅ (classList <$> elems p !! id).
Definition text (id : string) (p : page) : string :=
  default "" (innerText <$> elems p !! id).

(** ** Writing to the page *)

Lemma with_elem_alter id f p :
  is_Some (elems p !! id) →
  with_elem id f p = Ok (mkPage (alter f id (elems p)) (showRule p) (gridCtx p) (brushCtx p)).
Proof.
  unfold with_elem. intros [e He]. rewrite He. do 2 f_equal.
  apply map_eq. intros j. destruct (decide (id = j)) as [<-|]; by simplify_map_eq.
Qed.

Lemma page_ok_lookups p :
  page_ok p →
  is_Some (elems p !! "rulestring") ∧ is_Some (elems p !! "validstring") ∧
  is_Some (elems p !! "btn-yes") ∧ is_Some (elems p !! "btn-no") ∧
  is_Some (elems p !! "btn-ready") ∧ is_Some (elems p !! "status-light").
Proof. unfold page_ok, elems_ok, page_ids. rewrite !Forall_cons. naive_solver. Qed.

Lemma elems_ok_alter f id m : elems_ok m → elems_ok (alter f id m).
Proof. intros H. eapply Forall_impl; [exact H|]. intros j. by rewrite lookup_alter_is_Some. Qed.

(** Runs the writes of [refreshDisplay] on a page with the six elements:
    each write is an [alter] of the element map. *)
Ltac page_writes :=
  unfold setText, classAdd, classRemove;
  repeat (rewrite with_elem_alter
            by (cbn [elems]; rewrite ?lookup_alter_is_Some; first [assumption | eexists; eassumption]);
          cbn [mbind result_bind elems showRule gridCtx brushCtx]).

Lemma rule_texts_Ok checked v s p :
  page_ok p → ∃ p', rule_texts checked v s p = Ok p' ∧ page_ok p' ∧
    showRule p' = showRule p ∧ gridCtx p' = gridCtx p ∧ brushCtx p' = brushCtx p ∧
    elems p' !! "status-light" = elems p !! "status-light".
Proof.
  intros Hp. pose proof (page_ok_lookups p Hp) as (?&?&?&?&?&?).
  unfold rule_texts. destruct (rule s); [case_decide; [|destruct v]|]; page_writes;
    (eexists; split; [reflexivity|]); split_and!; try done;
    first [unfold page_ok; cbn [elems]; repeat apply elems_ok_alter; exact Hp
          |cbn [elems]; by repeat rewrite lookup_alter_ne by discriminate].
Qed.

Lemma status_light_Ok m p :
  page_ok p → ∃ p', status_light m p = Ok p' ∧
    showRule p' = showRule p ∧ gridCtx p' = gridCtx p ∧ brushCtx p' = brushCtx p.
Proof.
  intros Hp. pose proof (page_ok_lookups p Hp) as (?&?&?&?&?&?).
  unfold status_light. destruct m; page_writes; by eexists.
Qed.

(** On a page with its six elements, [refreshDisplay] throws exactly when
    [rule.match(grid)] does, and otherwise draws the two pictures. *)
Lemma refreshDisplay_page_Ok checked s p v :
  page_ok p → isValid_of s = Ok v →
  ∃ p', refreshDisplay_page checked s p = Ok p' ∧ showRule p' = checked ∧
    gridCtx p' = exec (grid_cmds (ui_grid s)) (gridCtx p) ∧ brushCtx p' = exec (brush_cmds s) (brushCtx p).
Proof.
  intros Hp Hv. unfold refreshDisplay_page. rewrite Hv. cbn [mbind result_bind].
  destruct (rule_texts_Ok checked v s (mkPage (elems p) checked (gridCtx p) (brushCtx p)) Hp)
    as (p1 & -> & Hp1 & Hs1 & Hg1 & Hb1 & _). cbn [mbind result_bind].
  destruct (status_light_Ok (moduleState s) p1 Hp1) as (p2 & -> & Hs2 & Hg2 & Hb2).
  eexists. split; [reflexivity|]. cbn. by rewrite Hs2, Hs1, Hg2, Hg1, Hb2, Hb1.
Qed.

(** ** Properties of the page *)

(** The model of [UI] is faithful to the full [refreshDisplay()]:
    on a page with its six elements, the full function returns exactly
    when the one of [UI] does (drawing no random number), and throws the
    same error when it throws. *)
Lemma refreshDisplay_refines checked s p rs n :
  page_ok p →
  match refreshDisplay_page checked s p with
  | Ok _ => refreshDisplay (M:=Sampler) s rs n = Ok ((), n)
  | Err e => refreshDisplay (M:=Sampler) s rs n = Err e
  end.
Proof.
  intros Hp. destruct (isValid_of s) as [v|e] eqn:Hv.
  - destruct (refreshDisplay_page_Ok checked s p v Hp Hv) as (p' & -> & _).
    unfold isValid_of, refreshDisplay in *. destruct (rule s); [|done].
    destruct (inst_match _ _ _); [done|discriminate].
  - unfold refreshDisplay_page. rewrite Hv. cbn.
    unfold isValid_of, refreshDisplay in *. destruct (rule s); [|discriminate].
    destruct (inst_match _ _ _); [discriminate|]. cbn in Hv. injection Hv as <-. reflexivity.
Qed.

(** C14: in challenge mode, with the rule hidden, the page does not
    depend on the rule: with any other rule in its place [refreshDisplay]
    writes the same texts and highlights and draws the same pictures, so
    the page gives away neither the rule nor its verdict on the displayed
    grid. *)
Theorem challenge_page_hides_rule s r' p p1 p2 :
  moduleState s = Challenge → is_Some (rule s) →
  refreshDisplay_page false s p = Ok p1 →
  refreshDisplay_page false (set_rule s (Some r')) p = Ok p2 → p1 = p2.
Proof.
  intros Hm [r Hr] H1 H2. unfold refreshDisplay_page in H1, H2.
  destruct (isValid_of s) as [v|]; [|discriminate].
  destruct (isValid_of (set_rule s (Some r'))) as [v'|]; [|discriminate].
  cbn [mbind result_bind] in H1, H2.
  destruct s as [g ru c sh e m k ch]; cbn in Hm, Hr; subst.
  unfold rule_texts, set_rule, brush_cmds, stage_text, challenge_text in H1, H2.
  cbn [rule moduleState ui_grid stageNumber challenge brushErase brushColor brushShape] in H1, H2.
  replace (false || bool_decide (Challenge = Solved) || bool_decide (Challenge = Failed))
    with false in H1, H2 by done.
  destruct (decide (Challenge = Challenge)); [|done]. congruence.
Qed.

(** Reads an element back through the writes. *)
Ltac page_lookup :=
  unfold classes, text; cbn [elems];
  repeat first [rewrite lookup_alter_ne by discriminate | rewrite lookup_alter];
  repeat match goal with H : ?m !! ?i = Some _ |- context [?m !! ?i] => rewrite H end;
  cbn [fmap option_fmap option_map default classList innerText].

(** The page's six elements, as equations. *)
Ltac page_elems Hp :=
  let H := fresh in
  pose proof (page_ok_lookups _ Hp) as H;
  destruct H as ([? ?] & [? ?] & [? ?] & [? ?] & [? ?] & [? ?]).

(** C15: outside challenge mode the page shows the rule's verdict on the
    displayed grid: the status text says whether the pattern is valid
    (after "SOLVED! " or "INCORRECT - " in those modes), the Y button is
    highlighted exactly when it is valid, the N button exactly when it is
    not, and the ready button is not highlighted. *)
Theorem edit_page_shows_verdict checked s r v p :
  page_ok p → moduleState s ≠ Challenge → rule s = Some r →
  inst_match r (ui_grid s) AUndef = Ok v →
  ∃ p', refreshDisplay_page checked s p = Ok p' ∧
    text "validstring" p' = status_prefix (moduleState s) +:+
      (if truthy v then "This pattern is valid" else "This pattern is invalid") ∧
    ("highlight" ∈ classes "btn-yes" p' ↔ truthy v = true) ∧
    ("highlight" ∈ classes "btn-no" p' ↔ truthy v = false) ∧
    "highlight" ∉ classes "btn-ready" p'.
Proof.
  intros Hp Hm Hr Hv. page_elems Hp.
  unfold refreshDisplay_page, isValid_of. rewrite Hr, Hv. cbn [fmap result_fmap mbind result_bind].
  unfold rule_texts, status_light. rewrite Hr. destruct (decide (moduleState s = Challenge)); [done|].
  destruct (truthy v), (moduleState s); try done; page_writes;
    (eexists; split; [reflexivity|]); page_lookup; split_and!; try done; set_solver.
Qed.

(** C16: the status light shows the mode: after [refreshDisplay] it has
    the class [solve] exactly when the module is solved and [strike]
    exactly when it has failed, whatever classes it had before. *)
Theorem status_light_shows_mode checked s p p' :
  page_ok p → refreshDisplay_page checked s p = Ok p' →
  ("solve" ∈ classes "status-light" p' ↔ moduleState s = Solved) ∧
  ("strike" ∈ classes "status-light" p' ↔ moduleState s = Failed).
Proof.
  intros Hp Hr. unfold refreshDisplay_page in Hr.
  destruct (isValid_of s) as [v|]; [|discriminate]. cbn [mbind result_bind] in Hr.
  destruct (rule_texts_Ok checked v s (mkPage (elems p) checked (gridCtx p) (brushCtx p)) Hp)
    as (p1 & Hrt & Hp1 & _ & _ & _ & Hl). rewrite Hrt in Hr. cbn [mbind result_bind] in Hr.
  cbn [elems] in Hl. destruct (page_ok_lookups p Hp) as (_&_&_&_&_&[e He]).
  rewrite He in Hl. pose proof (page_ok_lookups p1 Hp1) as (?&?&?&?&?&?).
  revert Hr. unfold status_light. destruct (moduleState s); page_writes; intros Hr; injection Hr as <-;
    page_lookup; split; split; intros; first [congruence|set_solver].
Qed.

(** ** The grid picture *)

(** What [drawSymbol(gridCtx, grid[i], x, y)] paints for cell [i] of a
    grid of valid symbols. *)
Definition cell_paint (sx sy : Q) (g : grid) (i : nat) : list paint :=
  match g !! i with
  | Some (Some s) => [mkPaint (color_name (color s)) sx sy (shape_region (shape s) (cell_x i) (cell_y i))]
  | _ => []
  end.

Fixpoint draw_cells (g : grid) (l : list nat) : list cmd :=
  match l with
  | [] => []
  | i :: l => drawSymbol (default None (g !! i)) (cell_x i) (cell_y i) ++ draw_cells g l
  end.

Lemma draw_cells_concat g l :
  concat (map (λ i, drawSymbol (default None (g !! i)) (cell_x i) (cell_y i)) l) = draw_cells g l.
Proof. induction l as [|i l IH]; [done|]. cbn. by rewrite IH. Qed.

Lemma draw_cells_exec g l k :
  grid_ok g →
  painted (exec (draw_cells g l) k) = painted k ++ flat_map (cell_paint (scale_x (cur k)) (scale_y (cur k)) g) l ∧
  saved (exec (draw_cells g l) k) = saved k ∧
  scale_x (cur (exec (draw_cells g l) k)) = scale_x (cur k) ∧
  scale_y (cur (exec (draw_cells g l) k)) = scale_y (cur k).
Proof.
  intros Hg. revert k. induction l as [|i l IH]; intros k; [by rewrite app_nil_r|].
  cbn [draw_cells flat_map]. rewrite exec_app.
  unfold cell_paint at 1. destruct (g !! i) as [[sym|]|] eqn:Hi; cbn [default id].
  - destruct (Hg i sym Hi) as [Hc Hs].
    destruct (drawSymbol_exec sym (cell_x i) (cell_y i) k Hc Hs) as (Hp & Hsv & Hx & Hy).
    destruct (IH (exec (drawSymbol (Some sym) (cell_x i) (cell_y i)) k)) as (Hp' & Hsv' & Hx' & Hy').
    rewrite Hp', Hp, Hsv', Hsv, Hx', Hx, Hy', Hy, <- app_assoc. done.
  - rewrite drawSymbol_none. apply IH.
  - rewrite drawSymbol_none. apply IH.
Qed.

(** The commands of the grid picture: the background and the grid lines,
    then the cells inside [save]/[restore]. *)
Lemma grid_cmds_exec g k :
  grid_ok g →
  painted (exec (grid_cmds g) k) =
    painted k ++ mkPaint "black" (scale_x (cur k)) (scale_y (cur k)) (RRect 0 0 600 600) ::
      map (mkPaint "white" (scale_x (cur k)) (scale_y (cur k))) grid_line_regions ++
      flat_map (cell_paint (scale_x (cur k)) (scale_y (cur k)) g) (seq 0 9).
Proof.
  intros Hg. unfold grid_cmds. rewrite draw_cells_concat, !exec_app.
  set (k1 := exec drawGridLines (exec [SetFillStyle "black"; FillRect 0 0 600 600; Save] k)).
  destruct (draw_cells_exec g (seq 0 9) k1 Hg) as (Hp & _ & Hx & Hy).
  assert (painted (exec [Restore] (exec (draw_cells g (seq 0 9)) k1)) = painted (exec (draw_cells g (seq 0 9)) k1)) as ->
    by (cbn; by destruct (saved _)).
  rewrite Hp. subst k1. rewrite drawGridLines_exec. cbn. by rewrite <- !app_assoc.
Qed.

(** Boxes [(x0, y0, x1, y1)] of the 600 × 600 world of the grid canvas. *)
Definition box : Type := Q * Q * Q * Q.

Definition region_in (b : box) (r : region) : Prop :=
  let '(x0, y0, x1, y1) := b in region_within x0 y0 x1 y1 r.

Definition boxes_disjoint (b b' : box) : bool :=
  let '(x0, y0, x1, y1) := b in let '(x0', y0', x1', y1') := b' in
  Qltb x1 x0' || Qltb x1' x0 || Qltb y1 y0' || Qltb y1' y0.

(** The square inside cell [i] where its symbol is drawn. *)
Definition cell_box (i : nat) : box := (cell_x i + 30, cell_y i + 30, cell_x i + 170, cell_y i + 170)%Q.

(** The strips covered by the four grid lines (16 wide, round caps). *)
Definition line_boxes : list box :=
  [(192, 22, 208, 578); (392, 22, 408, 578); (22, 192, 578, 208); (22, 392, 578, 408)]%Q.

Lemma grid_lines_in_strips : Forall2 region_in line_boxes grid_line_regions.
Proof.
  unfold line_boxes, grid_line_regions. rewrite !Forall2_cons. split_and!; [..|constructor].
  all: cbn [region_in region_within]; rewrite !Forall_cons, Forall_nil; cbn [elem_within].
  all: split_and!; try exact I; apply Qle_bool_imp_le; vm_compute; reflexivity.
Qed.


Lemma cell_boxes_clear i : i < 9 → Forall (λ b, boxes_disjoint (cell_box i) b = true) line_boxes.
Proof.
  intros Hi. unfold line_boxes. rewrite !Forall_cons, Forall_nil.
  do 9 (destruct i as [|i]; [split_and!; try exact I; vm_compute; reflexivity|]); lia.
Qed.

Lemma cell_paint_in_box sx sy g i q : q ∈ cell_paint sx sy g i → region_in (cell_box i) (p_region q).
Proof.
  unfold cell_paint. destruct (g !! i) as [[sym|]|]; [|by intros ?%elem_of_nil..].
  intros ->%list_elem_of_singleton. apply shape_region_within.
Qed.

(** C17: the grid picture: [refreshDisplay] paints the black background
    over the whole 600 × 600 world, the four white grid lines, and for
    each cell holding a symbol one shape in the symbol's colour, in the
    order of the cells.  Each grid line stays in its strip, each symbol
    inside the square [[x+30, x+170] × [y+30, y+170]] of its own cell, and
    no symbol square meets a grid-line strip. *)
Theorem grid_picture_layout checked s p p' :
  page_ok p → grid_ok (ui_grid s) → refreshDisplay_page checked s p = Ok p' →
  painted (gridCtx p') =
    painted (gridCtx p) ++
      mkPaint "black" (scale_x (cur (gridCtx p))) (scale_y (cur (gridCtx p))) (RRect 0 0 600 600) ::
      map (mkPaint "white" (scale_x (cur (gridCtx p))) (scale_y (cur (gridCtx p)))) grid_line_regions ++
      flat_map (cell_paint (scale_x (cur (gridCtx p))) (scale_y (cur (gridCtx p))) (ui_grid s)) (seq 0 9) ∧
  Forall2 region_in line_boxes grid_line_regions ∧
  (∀ i q, i < 9 → q ∈ cell_paint (scale_x (cur (gridCtx p))) (scale_y (cur (gridCtx p))) (ui_grid s) i →
     region_in (cell_box i) (p_region q) ∧ Forall (λ b, boxes_disjoint (cell_box i) b = true) line_boxes).
Proof.
  intros Hp Hg Hr. destruct (isValid_of s) as [v|] eqn:Hv;
    [|unfold refreshDisplay_page in Hr; by rewrite Hv in Hr].
  destruct (refreshDisplay_page_Ok checked s p v Hp Hv) as (p'' & Hr' & _ & Hgc & _).
  rewrite Hr in Hr'. injection Hr' as ->. split_and!.
  - rewrite Hgc. by apply grid_cmds_exec.
  - exact grid_lines_in_strips.
  - intros i q Hi Hq. split; [by eapply cell_paint_in_box|by apply cell_boxes_clear].
Qed.

(** ** Clicking the grid *)

(** A point of column [c]'s symbol square, drawn at scale [D / 600] on a
    bitmap [W] pixels wide shown over the canvas's CSS width, is read back
    by [gridOnClick] as column [c]: [Math.floor(x * 3)] with [x] the
    fraction of the width.  The truncation of the bitmap width to [W]
    stretches the picture by less than [1/W], which the 30-pixel margin of
    the square absorbs once [W ≥ 19]. *)
Lemma floor_column (c : Z) (p D W : Q) :
  (0 <= c <= 2)%Z → (19 <= W)%Q → (W <= D)%Q → (D < W + 1)%Q →
  (inject_Z c * 200 + 30 <= p <= inject_Z c * 200 + 170)%Q →
  Qfloor (p * D / (600 * W) * 3) = c.
Proof.
  intros Hc HW HD1 HD2 [Hp1 Hp2].
  assert (0 <= inject_Z c <= 2)%Q as [Hc1 Hc2]
    by (split; [change 0%Q with (inject_Z 0)|change 2%Q with (inject_Z 2)]; rewrite <- Zle_Qle; lia).
  assert (Heq : (p * D / (600 * W) * 3 == p * D / (200 * W))%Q) by (field; lra).
  apply Qfloor_eq; rewrite Heq.
  - apply Qle_shift_div_l; [lra|].
    assert (0 <= (p - inject_Z c * 200) * D)%Q by (apply Qmult_le_0_compat; lra).
    assert (0 <= inject_Z c * (D - W))%Q by (apply Qmult_le_0_compat; lra).
    lra.
  - rewrite inject_Z_plus. apply Qlt_shift_div_r; [lra|].
    assert (0 <= (inject_Z c * 200 + 170 - p) * D)%Q by (apply Qmult_le_0_compat; lra).
    assert (0 < (inject_Z c * 200 + 170) * (W + 1 - D))%Q by (apply Qmult_lt_0_compat; lra).
    change (inject_Z 1) with 1%Q. lra.
Qed.

Lemma click_index_at (c : nat) (q p D : Q) :
  c ≤ 2 → (19 <= D)%Q →
  (inject_Z (Z.of_nat (c * 200)) + 30 <= p <= inject_Z (Z.of_nat (c * 200)) + 170)%Q →
  (q == p * D / (600 * inject_Z (Qfloor D)))%Q → click_index q = Z.of_nat c.
Proof.
  intros Hc HD Hp Hq. unfold click_index.
  assert (HW1 : (19 <= inject_Z (Qfloor D))%Q).
  { change 19%Q with (inject_Z 19). rewrite <- Zle_Qle. exact (Qfloor_resp_le 19 D HD). }
  pose proof (Qfloor_le D) as HW2. pose proof (Qlt_floor D) as HW3. rewrite inject_Z_plus in HW3.
  rewrite Nat2Z.inj_mul, inject_Z_mult in Hp. change (inject_Z (Z.of_nat 200)) with 200%Q in Hp.
  rewrite (Qfloor_comp (q * 3) (p * D / (600 * inject_Z (Qfloor D)) * 3)) by (rewrite Hq; reflexivity).
  rewrite (floor_column (Z.of_nat c) p D (inject_Z (Qfloor D))); [lia|lia|done|done|exact HW3|exact Hp].
Qed.

(** Where the browser reports a click on a point of the picture: the
    world point [w] is drawn at bitmap pixel [w * f], [f] the context's
    scale; the bitmap of [width] pixels is stretched over the element's
    [clientWidth] CSS pixels (and [height] over [clientHeight]), and
    [offsetX], [offsetY] are in CSS pixels. *)
Definition offsetX_of (cv : canvas_elem) (f wx : Q) : Q := (wx * f * clientWidth cv / inject_Z (width cv))%Q.
Definition offsetY_of (cv : canvas_elem) (f wy : Q) : Q := (wy * f * clientHeight cv / inject_Z (height cv))%Q.

Lemma pos_of_product (a b : Q) : (0 < b)%Q → (19 <= a * b)%Q → (0 < a)%Q.
Proof.
  intros Hb Hab. destruct (Qlt_le_dec 0 a) as [|Ha]; [done|].
  assert (0 <= - a * b)%Q by (apply Qmult_le_0_compat; lra). lra.
Qed.

Lemma Qfloor_at_least_19 D : (19 <= D)%Q → (19 <= inject_Z (Qfloor D))%Q.
Proof. intros HD. change 19%Q with (inject_Z 19). rewrite <- Zle_Qle. exact (Qfloor_resp_le 19 D HD). Qed.

(** C18: clicking a drawn symbol edits its cell.  After
    [setCanvasScale(canvas, gridCtx, 600)] on a canvas at least 19 device
    pixels wide and high (and below [2^32], where [canvas.width] would
    wrap around), a click on any point of the square where the symbol of
    cell [i] is drawn makes [gridOnClick] (outside challenge mode) write
    the brush to cell [i]: the picture and the click handler agree on the
    cells, although the handler divides both offsets by [clientWidth]. *)
Theorem click_on_symbol_edits_cell dpr cv k i px py s rs n :
  (0 < dpr)%Q →
  (19 <= clientWidth cv * dpr < inject_Z (2 ^ 32))%Q →
  (19 <= clientHeight cv * dpr < inject_Z (2 ^ 32))%Q →
  i < 9 → (cell_x i + 30 <= px <= cell_x i + 170)%Q → (cell_y i + 30 <= py <= cell_y i + 170)%Q →
  ui_inv s → moduleState s ≠ Challenge →
  gridOnClick (M:=Sampler)
    (offsetX_of (setCanvasScale dpr cv 600).1 (scale_x (cur (exec (setCanvasScale dpr cv 600).2 k))) px / clientWidth cv)
    (offsetY_of (setCanvasScale dpr cv 600).1 (scale_y (cur (exec (setCanvasScale dpr cv 600).2 k))) py / clientWidth cv)
    s rs n =
  Ok (set_grid s (<[i := if brushErase s then None else Some (mkSymbol (brushColor s) (brushShape s))]> (ui_grid s)), n).
Proof.
  intros Hdpr [Hw1 Hw2] [Hh1 Hh2] Hi Hx Hy (Hg & Hr & _) Hm.
  pose proof (pos_of_product _ _ Hdpr Hw1) as Hcw. pose proof (pos_of_product _ _ Hdpr Hh1) as Hch.
  pose proof (Qfloor_at_least_19 _ Hw1) as HW. pose proof (Qfloor_at_least_19 _ Hh1) as HH.
  destruct (setCanvasScale_factor dpr cv k) as [Hfx Hfy].
  assert (Hwd : width (setCanvasScale dpr cv 600).1 = Qfloor (clientWidth cv * dpr))
    by (apply webidl_unsigned_long_small; lra).
  assert (Hht : height (setCanvasScale dpr cv 600).1 = Qfloor (clientHeight cv * dpr))
    by (apply webidl_unsigned_long_small; lra).
  assert (Hcx : click_index (offsetX_of (setCanvasScale dpr cv 600).1
                  (scale_x (cur (exec (setCanvasScale dpr cv 600).2 k))) px / clientWidth cv) = Z.of_nat (i mod 3)).
  { apply (click_index_at (i mod 3) _ px (clientWidth cv * dpr)); [lia|lra|exact Hx|].
    unfold offsetX_of. rewrite Hfx, Hwd. cbn [clientWidth setCanvasScale fst]. field. split; lra. }
  assert (Hcy : click_index (offsetY_of (setCanvasScale dpr cv 600).1
                  (scale_y (cur (exec (setCanvasScale dpr cv 600).2 k))) py / clientWidth cv) = Z.of_nat (i / 3)).
  { apply (click_index_at (i / 3) _ py (clientHeight cv * dpr)); [lia|lra|exact Hy|].
    unfold offsetY_of. rewrite Hfy, Hht. cbn [clientHeight setCanvasScale fst]. field. split_and!; lra. }
  unfold gridOnClick. rewrite decide_False by done. rewrite Hcx, Hcy.
  replace (Z.to_nat (Z.of_nat (i mod 3) + Z.of_nat (i / 3) * 3)) with i by lia.
  apply (refresh_then_run rs); destruct s; cbn in *; [done|by rewrite length_insert].
Qed.

(** ** Witnesses *)

(** A decision procedure for [grid_ok] on concrete grids. *)
Definition grid_okb (g : grid) : bool :=
  forallb (λ c, match c with Some s => bool_decide (color s < 3 ∧ shape s < 3) | None => true end) g.

Lemma grid_okb_sound g : grid_okb g = true → grid_ok g.
Proof.
  unfold grid_okb. rewrite forallb_forall. intros H j s Hj.
  apply list_elem_of_lookup_2, list_elem_of_In, H in Hj. by apply bool_decide_eq_true in Hj.
Qed.

(** A page with the six elements, empty, and two fresh contexts. *)
Definition demo_page : page :=
  mkPage (list_to_map ((λ id, (id, mkElem "" ∅)) <$> page_ids)) false ctx_init ctx_init.

Lemma demo_page_ok : page_ok demo_page.
Proof.
  unfold page_ok, elems_ok, page_ids. rewrite !Forall_cons, Forall_nil.
  split_and!; try exact I; eexists; reflexivity.
Qed.

(** The rule of the page after loading, and another rule, drawn from the
    stream of thirds. *)
Definition demo_rule : inst := default (Inst "" "" None [] 0) (rule demo_edit_state).
Definition demo_verdict : val :=
  match inst_match demo_rule (ui_grid demo_edit_state) AUndef with Ok v => v | Err _ => VBool false end.
Definition demo_other_rule : inst :=
  default (Inst "" "" None [] 0)
    (match resetModule (M:=Sampler) init_state (λ _, Qmake 1 3) 0 with Ok (s, _) => rule s | Err _ => None end).

Lemma challenge_page_hides_rule_witness :
  ∃ p1 p2, refreshDisplay_page false demo_challenge_state demo_page = Ok p1 ∧
    refreshDisplay_page false (set_rule demo_challenge_state (Some demo_other_rule)) demo_page = Ok p2 ∧
    p1 = p2.
Proof.
  destruct (refreshDisplay_page false demo_challenge_state demo_page) as [p1|] eqn:E1;
    [|vm_compute in E1; discriminate].
  destruct (refreshDisplay_page false (set_rule demo_challenge_state (Some demo_other_rule)) demo_page)
    as [p2|] eqn:E2; [|vm_compute in E2; discriminate].
  exists p1, p2. split_and!; [done|done|].
  apply (challenge_page_hides_rule demo_challenge_state demo_other_rule demo_page p1 p2);
    [vm_compute; reflexivity|eexists; vm_compute; reflexivity|exact E1|exact E2].
Defined.

Lemma edit_page_shows_verdict_witness :
  ∃ p', refreshDisplay_page true demo_edit_state demo_page = Ok p' ∧
    text "validstring" p' = status_prefix (moduleState demo_edit_state) +:+
      (if truthy demo_verdict then "This pattern is valid" else "This pattern is invalid") ∧
    ("highlight" ∈ classes "btn-yes" p' ↔ truthy demo_verdict = true) ∧
    ("highlight" ∈ classes "btn-no" p' ↔ truthy demo_verdict = false) ∧
    "highlight" ∉ classes "btn-ready" p'.
Proof.
  apply (edit_page_shows_verdict true demo_edit_state demo_rule demo_verdict demo_page);
    [exact demo_page_ok|vm_compute; discriminate|vm_compute; reflexivity|vm_compute; reflexivity].
Defined.

Lemma status_light_shows_mode_witness :
  ∃ p', refreshDisplay_page false demo_challenge_state demo_page = Ok p' ∧
    ("solve" ∈ classes "status-light" p' ↔ moduleState demo_challenge_state = Solved) ∧
    ("strike" ∈ classes "status-light" p' ↔ moduleState demo_challenge_state = Failed).
Proof.
  destruct (refreshDisplay_page false demo_challenge_state demo_page) as [p'|] eqn:E;
    [|vm_compute in E; discriminate].
  exists p'. split; [done|]. exact (status_light_shows_mode false demo_challenge_state demo_page p' demo_page_ok E).
Defined.

Lemma grid_picture_layout_witness :
  ∃ p', refreshDisplay_page false demo_edit_state demo_page = Ok p' ∧
  painted (gridCtx p') =
    painted (gridCtx demo_page) ++
      mkPaint "black" (scale_x (cur (gridCtx demo_page))) (scale_y (cur (gridCtx demo_page))) (RRect 0 0 600 600) ::
      map (mkPaint "white" (scale_x (cur (gridCtx demo_page))) (scale_y (cur (gridCtx demo_page)))) grid_line_regions ++
      flat_map (cell_paint (scale_x (cur (gridCtx demo_page))) (scale_y (cur (gridCtx demo_page))) (ui_grid demo_edit_state)) (seq 0 9) ∧
  Forall2 region_in line_boxes grid_line_regions ∧
  (∀ i q, i < 9 → q ∈ cell_paint (scale_x (cur (gridCtx demo_page))) (scale_y (cur (gridCtx demo_page))) (ui_grid demo_edit_state) i →
     region_in (cell_box i) (p_region q) ∧ Forall (λ b, boxes_disjoint (cell_box i) b = true) line_boxes).
Proof.
  destruct (refreshDisplay_page false demo_edit_state demo_page) as [p'|] eqn:E;
    [|vm_compute in E; discriminate].
  exists p'. split; [done|].
  apply (grid_picture_layout false demo_edit_state demo_page p');
    [exact demo_page_ok|apply grid_okb_sound; vm_compute; reflexivity|exact E].
Defined.

Lemma click_on_symbol_edits_cell_witness :
  gridOnClick (M:=Sampler)
    (offsetX_of (setCanvasScale 1 (mkCanvas 300 300 0 0) 600).1
       (scale_x (cur (exec (setCanvasScale 1 (mkCanvas 300 300 0 0) 600).2 ctx_init))) 300 / clientWidth (mkCanvas 300 300 0 0))
    (offsetY_of (setCanvasScale 1 (mkCanvas 300 300 0 0) 600).1
       (scale_y (cur (exec (setCanvasScale 1 (mkCanvas 300 300 0 0) 600).2 ctx_init))) 300 / clientWidth (mkCanvas 300 300 0 0))
    demo_edit_state half_stream 0 =
  Ok (set_grid demo_edit_state
        (<[4 := if brushErase demo_edit_state then None
                else Some (mkSymbol (brushColor demo_edit_state) (brushShape demo_edit_state))]> (ui_grid demo_edit_state)), 0).
Proof.
  apply (click_on_symbol_edits_cell 1 (mkCanvas 300 300 0 0) ctx_init 4 300 300 demo_edit_state half_stream 0);
    [reflexivity
    |split; [apply Qle_bool_imp_le; vm_compute|]; reflexivity
    |split; [apply Qle_bool_imp_le; vm_compute|]; reflexivity
    |lia
    |split; apply Qle_bool_imp_le; vm_compute; reflexivity
    |split; apply Qle_bool_imp_le; vm_compute; reflexivity
    |exact (reachable_ui_inv _ demo_edit_reachable)
    |vm_compute; discriminate].
Defined.
